(** * actionsdk: the invocation contract of an action process

    A shallow embedding of [actionsdk/actionsdk.go].  The package reads one
    JSON argument from [os.Args], caches the decoded record in the
    package-level variable [args], looks secrets up in the environment and
    writes one JSON value to standard output.

    The development has four layers:
    - [Go]: the fragment of Go's run-time universe the package touches
      (type descriptors, values, interface values, errors, [fmt.Errorf]);
    - [os]: the process as the package sees it (arguments, environment,
      standard output, the heap cell behind [args]);
    - [actionsdk]: the five exported functions, written against the
      interface of package [encoding/json];
    - [encoding_json]: a model of [encoding/json] itself (scanner, decoder,
      encoder) used wherever a concrete payload is evaluated. *)

From Stdlib Require Import ZArith List String Ascii Bool Lia.
From Stdlib Require Import Floats.SpecFloat.
From stdpp Require Import base option list gmap strings.

Set Warnings "-register-all".
Local Open Scope string_scope.
Local Open Scope Z_scope.

(* ===================================================================== *)
(** * Go run-time universe *)
(* ===================================================================== *)

Module Go.

(** Type descriptors, as [reflect.Type] presents them.  A struct type is a
    defined type ([pkg.name]) with its fields in declaration order; a field
    is its Go name, the text of its [json:"..."] tag (empty when the field
    has no tag) and its type. *)
Inductive gotype : Type :=
| TBool | TInt | TInt64 | TUint | TFloat64 | TString
| TRawMessage                       (* json.RawMessage *)
| TInterface                        (* interface{} *)
| TPointer (elem : gotype)
| TSlice (elem : gotype)
| TMap (key elem : gotype)
| TStruct (pkg name : string) (fields : list (string * string * gotype))
| TChan (elem : gotype)
| TFunc.

(** binary64 values. *)
Definition float64 := spec_float.

(** Values.  Pointers own their pointee (no aliasing between values); maps
    are association lists with distinct keys, a key being a [VString] or a
    [VInt]; [None] is the nil pointer, slice, map, interface or
    RawMessage. *)
Inductive value : Type :=
| VBool (b : bool)
| VInt (n : Z)
| VFloat64 (f : float64)
| VString (s : string)
| VRawMessage (m : option string)
| VInterface (i : option (gotype * value))
| VPointer (p : option value)
| VSlice (s : option (list value))
| VMap (m : option (list (value * value)))
| VStruct (fields : list value)
| VChan
| VFunc.

(** An [interface{}] argument: [None] is the nil interface, [Some (t, v)]
    holds dynamic type [t] and value [v]. *)
Definition iface : Type := option (gotype * value).

(** The zero value of a type. *)
Fixpoint zero (t : gotype) : value :=
  match t with
  | TBool => VBool false
  | TInt | TInt64 | TUint => VInt 0
  | TFloat64 => VFloat64 (S754_zero false)
  | TString => VString ""
  | TRawMessage => VRawMessage None
  | TInterface => VInterface None
  | TPointer _ => VPointer None
  | TSlice _ => VSlice None
  | TMap _ _ => VMap None
  | TStruct _ _ fs => VStruct (List.map (fun f => zero (snd f)) fs)
  | TChan _ => VChan
  | TFunc => VFunc
  end.

(** [reflect.Type.String] and [reflect.Type.Name]. *)
Fixpoint Type_String (t : gotype) : string :=
  match t with
  | TBool => "bool" | TInt => "int" | TInt64 => "int64" | TUint => "uint"
  | TFloat64 => "float64" | TString => "string"
  | TRawMessage => "json.RawMessage"
  | TInterface => "interface {}"
  | TPointer e => "*" ++ Type_String e
  | TSlice e => "[]" ++ Type_String e
  | TMap k e => "map[" ++ Type_String k ++ "]" ++ Type_String e
  | TStruct pkg name _ => pkg ++ "." ++ name
  | TChan e => "chan " ++ Type_String e
  | TFunc => "func()"
  end.

Definition Type_Name (t : gotype) : string :=
  match t with
  | TStruct _ name _ => name
  | TBool | TInt | TInt64 | TUint | TFloat64 | TString => Type_String t
  | TRawMessage => "RawMessage"
  | _ => ""
  end.

(** Selecting a field of a struct value by its Go name ([x.Name]). *)
Fixpoint select (fs : list (string * string * gotype)) (vs : list value)
    (name : string) : option value :=
  match fs, vs with
  | (n, _, _) :: fs', v :: vs' =>
      if String.eqb n name then Some v else select fs' vs' name
  | _, _ => None
  end.

Definition Field (t : gotype) (v : value) (name : string) : option value :=
  match t, v with
  | TStruct _ _ fs, VStruct vs => select fs vs name
  | _, _ => None
  end.

(** Errors.  [error] is the interface: [None] is nil.  The constructors are
    the concrete error types that reach the package: [errors.errorString]
    and [fmt.wrapError] (made by [fmt.Errorf]), the error types of
    [encoding/json], and [fs.PathError] for a failed write. *)
Inductive goerror : Type :=
| errorString (s : string)
| wrapError (msg : string) (err : goerror)
| SyntaxError (msg : string) (Offset : Z)
| UnmarshalTypeError (Value : string) (Type_ : gotype) (Struct Field_ : string)
| InvalidUnmarshalError (Type_ : option gotype)
| UnsupportedTypeError (Type_ : gotype)
| UnsupportedValueError (Str : string)
| MarshalerError (Type_ : gotype) (Err : goerror) (sourceFunc : string)
| PathError (Op Path Err : string).

Definition error : Type := option goerror.

(** The [Error() string] method of each error type. *)
Fixpoint Error (e : goerror) : string :=
  match e with
  | errorString s => s
  | wrapError msg _ => msg
  | SyntaxError msg _ => msg
  | UnmarshalTypeError v t st f =>
      if (negb (String.eqb st "") || negb (String.eqb f ""))%bool
      then "json: cannot unmarshal " ++ v ++ " into Go struct field "
             ++ st ++ "." ++ f ++ " of type " ++ Type_String t
      else "json: cannot unmarshal " ++ v ++ " into Go value of type "
             ++ Type_String t
  | InvalidUnmarshalError None => "json: Unmarshal(nil)"
  | InvalidUnmarshalError (Some t) =>
      match t with
      | TPointer _ => "json: Unmarshal(nil " ++ Type_String t ++ ")"
      | _ => "json: Unmarshal(non-pointer " ++ Type_String t ++ ")"
      end
  | UnsupportedTypeError t => "json: unsupported type: " ++ Type_String t
  | UnsupportedValueError s => "json: unsupported value: " ++ s
  | MarshalerError t err fn =>
      "json: error calling "
        ++ (if String.eqb fn "" then "MarshalJSON" else fn)
        ++ " for type " ++ Type_String t ++ ": " ++ Error err
  | PathError op path err => op ++ " " ++ path ++ ": " ++ err
  end.

(** [errors.Unwrap]. *)
Definition Unwrap (e : goerror) : error :=
  match e with
  | wrapError _ err => Some err
  | MarshalerError _ err _ => Some err
  | _ => None
  end.

(** ** [fmt.Errorf]

    Operands are strings or errors; the verbs are [%s], [%v] and [%w]
    (an error operand prints its [Error()] text), and [%%].  Every call of
    the package uses [%s] or [%w] and passes exactly the operands its
    format names; other verbs are not interpreted. *)
Inductive operand : Type :=
| AString (s : string)
| AError (e : error).

Definition is_verb (c : ascii) : bool :=
  (Ascii.eqb c "s" || Ascii.eqb c "v" || Ascii.eqb c "w")%bool.

Definition print_operand (verb : ascii) (a : operand) : string :=
  match a with
  | AString s =>
      if Ascii.eqb verb "w" then "%!w(string=" ++ s ++ ")" else s
  | AError (Some e) => Error e
  | AError None => "%!" ++ String verb "(<nil>)"
  end.

Fixpoint doPrintf (format : string) (a : list operand) : string :=
  match format with
  | EmptyString => ""
  | String c EmptyString =>
      if Ascii.eqb c "%" then "%!(NOVERB)" else String c ""
  | String c (String d rest as tl) =>
      if Ascii.eqb c "%" then
        if Ascii.eqb d "%" then String "%" (doPrintf rest a)
        else if is_verb d then
          match a with
          | [] => "%!" ++ String d "(MISSING)" ++ doPrintf rest []
          | x :: a' => print_operand d x ++ doPrintf rest a'
          end
        else String c (String d (doPrintf rest a))
      else String c (doPrintf tl a)
  end.

(** The first [%w] operand that is a non-nil error, if any. *)
Fixpoint wrapped (format : string) (a : list operand) : error :=
  match format with
  | EmptyString => None
  | String c EmptyString => None
  | String c (String d rest as tl) =>
      if Ascii.eqb c "%" then
        if Ascii.eqb d "%" then wrapped rest a
        else if is_verb d then
          match a with
          | [] => None
          | AError (Some e) :: a' =>
              if Ascii.eqb d "w" then Some e else wrapped rest a'
          | _ :: a' => wrapped rest a'
          end
        else wrapped rest a
      else wrapped tl a
  end.

Definition fmt_Errorf (format : string) (a : list operand) : goerror :=
  match wrapped format a with
  | Some e => wrapError (doPrintf format a) e
  | None => errorString (doPrintf format a)
  end.

End Go.
Export Go.

(* ===================================================================== *)
(** * The process: package [os], [fmt.Fprint], [log.Fatal] *)
(* ===================================================================== *)

Module os.

(** An open file seen from the writing side.  [failure = None]: every
    write succeeds.  [failure = Some (room, errno)]: the device accepts
    [room] more bytes, after which a write stops short and fails with
    [errno] (closed pipe, full disk). *)
Record File : Type := mkFile {
  Name : string;
  written : string;
  failure : option (nat * string)
}.

Fixpoint take_bytes (n : nat) (s : string) : string :=
  match n, s with
  | S n', String c s' => String c (take_bytes n' s')
  | _, _ => ""
  end.

(** [Write] on an [os.File]: the number of bytes written and the error. *)
Definition File_Write (f : File) (b : string) : (nat * error) * File :=
  match failure f with
  | None => ((String.length b, None), mkFile (Name f) (written f ++ b) None)
  | Some (room, errno) =>
      if (String.length b <=? room)%nat
      then ((String.length b, None),
            mkFile (Name f) (written f ++ b)
                   (Some ((room - String.length b)%nat, errno)))
      else ((room, Some (PathError "write" (Name f) errno)),
            mkFile (Name f) (written f ++ take_bytes room b)
                   (Some (0%nat, errno)))
  end.

(** The device takes [n] more bytes. *)
Definition accepts (f : File) (n : nat) : Prop :=
  match failure f with
  | None => True
  | Some (room, _) => (n <= room)%nat
  end.

(** The file after [b] has been written in full. *)
Definition appended (f : File) (b : string) : File :=
  mkFile (Name f) (written f ++ b)
    (match failure f with
     | None => None
     | Some (room, errno) => Some ((room - String.length b)%nat, errno)
     end).

(** A heap address. *)
Definition ptr : Type := nat.

(** What the package can observe and change of its process:
    - [args]: the package-level variable [var args *Args];
    - [heap]: the objects allocated by [&Args{}], addressed by index;
    - [os_Args], [environ], [os_Stdout]: the operating system's side;
    - [log_output]: the lines handed to package [log] (without the
      time stamp the logger puts in front). *)
Record Process : Type := mkProcess {
  args : option ptr;
  heap : list value;
  os_Args : list string;
  environ : gmap string string;
  os_Stdout : File;
  log_output : list string
}.

Definition set_args (a : option ptr) (p : Process) : Process :=
  mkProcess a (heap p) (os_Args p) (environ p) (os_Stdout p) (log_output p).
Definition set_heap (h : list value) (p : Process) : Process :=
  mkProcess (args p) h (os_Args p) (environ p) (os_Stdout p) (log_output p).
Definition set_os_Args (a : list string) (p : Process) : Process :=
  mkProcess (args p) (heap p) a (environ p) (os_Stdout p) (log_output p).
Definition set_environ (e : gmap string string) (p : Process) : Process :=
  mkProcess (args p) (heap p) (os_Args p) e (os_Stdout p) (log_output p).
Definition set_os_Stdout (f : File) (p : Process) : Process :=
  mkProcess (args p) (heap p) (os_Args p) (environ p) f (log_output p).
Definition set_log_output (l : list string) (p : Process) : Process :=
  mkProcess (args p) (heap p) (os_Args p) (environ p) (os_Stdout p) l.

(** How a call ends: it returns, the process exits ([os.Exit]), or the
    goroutine panics. *)
Inductive outcome (A : Type) : Type :=
| Returns (a : A) (p : Process)
| Exits (code : Z) (p : Process)
| Panics (msg : string) (p : Process).
Arguments Returns {A} a p.
Arguments Exits {A} code p.
Arguments Panics {A} msg p.

(** Computations over the process. *)
Definition M (A : Type) : Type := Process -> outcome A.

#[export] Instance M_ret : MRet M := fun A a p => Returns a p.
#[export] Instance M_bind : MBind M := fun A B f m p =>
  match m p with
  | Returns a p' => f a p'
  | Exits c p' => Exits c p'
  | Panics msg p' => Panics msg p'
  end.

Definition get : M Process := fun p => Returns p p.
Definition modify (f : Process -> Process) : M unit := fun p => Returns tt (f p).
Definition panic {A} (msg : string) : M A := fun p => Panics msg p.

(** [os.Exit(code)]. *)
Definition Exit {A} (code : Z) : M A := fun p => Exits code p.

(** [os.Getenv]: the value of the variable, empty when it is not set. *)
Definition Getenv (key : string) : M string := fun p =>
  Returns (default "" (environ p !! key)) p.

(** [fmt.Fprint(os.Stdout, s)] with one string operand: one [Write] of the
    bytes of [s]. *)
Definition fmt_Fprint_Stdout (s : string) : M (nat * error) := fun p =>
  let '(r, f) := File_Write (os_Stdout p) s in
  Returns r (set_os_Stdout f p).

(** [log.Fatal(err)]: print the error to the logger, then [os.Exit(1)]. *)
Definition log_Fatal {A} (e : goerror) : M A :=
  modify (fun p => set_log_output (log_output p ++ [Error e]) p) ;; Exit 1.

(** [new(T)] on the modelled heap: the address of a fresh zero value. *)
Definition new (t : gotype) : M ptr := fun p =>
  Returns (length (heap p)) (set_heap (heap p ++ [zero t]) p).

End os.
Export os.

(* ===================================================================== *)
(** * The interface of package [encoding/json] *)
(* ===================================================================== *)

(** [json.Marshal(v any) ([]byte, error)] and
    [json.Unmarshal(data []byte, v any) error].  [Unmarshal] writes through
    the pointer held by [v]; here it returns [v] with its pointee
    updated. *)
Class JSON : Type := {
  json_Marshal : iface -> string * error;
  json_Unmarshal : string -> iface -> iface * error
}.

(* ===================================================================== *)
(** * Package [actionsdk] *)
(* ===================================================================== *)

Module actionsdk.

(** ** The data model (lines 19-41 of the source) *)

Definition Event : gotype :=
  TStruct "actionsdk" "Event"
    [ ("Name", "name", TString);
      ("Data", "data", TMap TString TInterface);
      ("User", "user,omitempty", TMap TString TInterface);
      ("ID", "id,omitempty", TString);
      ("Timestamp", "ts,omitempty", TInt64);
      ("Version", "v,omitempty", TString) ].

Definition EventWrapper : gotype :=
  TStruct "actionsdk" "EventWrapper" [ ("Event", "", Event) ].

Definition Baggage : gotype :=
  TStruct "actionsdk" "Baggage"
    [ ("EventWrapper", "WorkspaceEvent", EventWrapper);
      ("Actions", "", TMap TUint (TMap TString TInterface)) ].

Definition Args : gotype :=
  TStruct "actionsdk" "Args"
    [ ("ArgsVersion", "", TInt);
      ("Metadata", "", TRawMessage);
      ("Baggage", "", Baggage) ].

(** [a.Metadata] for an [Args] value. *)
Definition Metadata (a : value) : string :=
  match Field Args a "Metadata" with
  | Some (VRawMessage (Some m)) => m
  | _ => ""
  end.

Section Functions.
Context {json : JSON}.

(** Reading and writing the object a heap pointer refers to. *)
Definition load (a : ptr) : M value := fun p =>
  match heap p !! a with
  | Some v => Returns v p
  | None => Panics "invalid memory address or nil pointer dereference" p
  end.

Definition store (a : ptr) (v : value) : M unit :=
  modify (fun p => set_heap (<[a := v]> (heap p)) p).

(** [json.Unmarshal(data, a)] for [a : *Args] on the heap. *)
Definition Unmarshal_at (data : string) (a : ptr) : M error :=
  obj ← load a;
  let '(dest, err) := json_Unmarshal data (Some (TPointer Args, VPointer (Some obj))) in
  match dest with
  | Some (_, VPointer (Some obj')) => store a obj'
  | _ => mret tt
  end;;
  mret err.

(** [func WriteError(err error)] *)
Definition WriteError (err : error) : M unit :=
  match err with
  | None => panic "invalid memory address or nil pointer dereference"
  | Some e =>
      let '(byt, err) :=
        json_Marshal
          (Some (TMap TString TInterface,
                 VMap (Some [(VString "error",
                              VInterface (Some (TString, VString (Error e))))])))
      in
      match err with
      | Some _ => log_Fatal (fmt_Errorf "unable to marshal error: %w" [AError err])
      | None =>
          '(_, err) ← fmt_Fprint_Stdout byt;
          match err with
          | Some _ => log_Fatal (fmt_Errorf "unable to write error: %w" [AError err])
          | None => mret tt
          end
      end
  end.

(** [func WriteResult(i interface{}) error] *)
Definition WriteResult (i : iface) : M error :=
  match i with
  | None =>
      '(_, err) ← fmt_Fprint_Stdout "{}";
      mret err
  | Some _ =>
      let '(byt, err) := json_Marshal i in
      match err with
      | Some _ => mret (Some (fmt_Errorf "error writing output: %w" [AError err]))
      | None =>
          '(_, err) ← fmt_Fprint_Stdout byt;
          mret err
      end
  end.

(** [func GetSecret(str string) (string, error)] *)
Definition GetSecret (str : string) : M (string * error) :=
  secret ← Getenv str;
  if negb (String.eqb secret "") then mret (secret, None)
  else mret ("", Some (fmt_Errorf "secret not found: %s" [AString str])).

(** [func GetArgs()], returning a pointer to [Args] and an error *)
Definition GetArgs : M (option ptr * error) :=
  p ← get;
  match args p with
  | Some a => mret (Some a, None)
  | None =>
      if (length (os_Args p) <? 2)%nat
      then mret (None, Some (fmt_Errorf "no arguments present" []))
      else
        a ← new Args;
        modify (set_args (Some a));;
        match os_Args p !! 1%nat with
        | None => panic "index out of range [1]"
        | Some arg1 =>
            err ← Unmarshal_at arg1 a;
            match err with
            | Some _ =>
                mret (None, Some (fmt_Errorf "unable to parse arguments: %s" [AError err]))
            | None => mret (Some a, None)
            end
        end
  end.

(** [func GetMetadata(dest interface{}) error].  The destination is
    passed in and handed back with whatever [json.Unmarshal] stored
    through it. *)
Definition GetMetadata (dest : iface) : M (iface * error) :=
  '(args, err) ← GetArgs;
  match err with
  | Some _ => mret (dest, err)
  | None =>
      match args with
      | None => panic "invalid memory address or nil pointer dereference"
      | Some a =>
          obj ← load a;
          mret (json_Unmarshal (Metadata obj) dest)
      end
  end.

End Functions.
End actionsdk.
Export actionsdk.

(* ===================================================================== *)
(** * A model of package [encoding/json] *)
(* ===================================================================== *)

(** ** Bytes and UTF-8 *)

Module utf8.

Definition byte (c : ascii) : Z := Z.of_N (N_of_ascii c).

(** The double quote, and a way to write texts that contain it: [js s] is
    [s] with every apostrophe replaced by a double quote. *)
Definition dquote : ascii := "034"%char.

Fixpoint js (s : string) : string :=
  match s with
  | EmptyString => EmptyString
  | String c s' => String (if Ascii.eqb c "'" then dquote else c) (js s')
  end.
Definition chr (n : Z) : ascii := ascii_of_N (Z.to_N n).

Definition RuneError : Z := 65533.   (* U+FFFD *)
Definition MaxRune : Z := 1114111.   (* U+10FFFF *)

Definition cont (b : Z) : bool := (128 <=? b) && (b <=? 191).

(** [utf8.DecodeRuneInString]: the first rune of [s] and its width in
    bytes; an invalid or short encoding is [(RuneError, 1)], the empty
    string [(RuneError, 0)]. *)
Definition DecodeRune (s : string) : Z * nat :=
  match s with
  | EmptyString => (RuneError, 0%nat)
  | String c0 s1 =>
      let b0 := byte c0 in
      if b0 <? 128 then (b0, 1%nat)
      else
        match s1 with
        | EmptyString => (RuneError, 1%nat)
        | String c1 s2 =>
            let b1 := byte c1 in
            if (194 <=? b0) && (b0 <=? 223) then
              if cont b1
              then (Z.lor (Z.shiftl (Z.land b0 31) 6) (Z.land b1 63), 2%nat)
              else (RuneError, 1%nat)
            else
              let lo := if b0 =? 224 then 160 else if b0 =? 240 then 144 else 128 in
              let hi := if b0 =? 237 then 159 else if b0 =? 244 then 143 else 191 in
              if negb ((lo <=? b1) && (b1 <=? hi)) then (RuneError, 1%nat)
              else
                match s2 with
                | EmptyString => (RuneError, 1%nat)
                | String c2 s3 =>
                    let b2 := byte c2 in
                    if negb (cont b2) then (RuneError, 1%nat)
                    else if (224 <=? b0) && (b0 <=? 239) then
                      (Z.lor (Z.lor (Z.shiftl (Z.land b0 15) 12)
                                    (Z.shiftl (Z.land b1 63) 6))
                             (Z.land b2 63), 3%nat)
                    else if (240 <=? b0) && (b0 <=? 244) then
                      match s3 with
                      | EmptyString => (RuneError, 1%nat)
                      | String c3 _ =>
                          let b3 := byte c3 in
                          if cont b3 then
                            (Z.lor (Z.lor (Z.lor (Z.shiftl (Z.land b0 7) 18)
                                                 (Z.shiftl (Z.land b1 63) 12))
                                          (Z.shiftl (Z.land b2 63) 6))
                                   (Z.land b3 63), 4%nat)
                          else (RuneError, 1%nat)
                      end
                    else (RuneError, 1%nat)
                end
        end
  end.

Definition surrogate (r : Z) : bool := (55296 <=? r) && (r <=? 57343).

(** [utf8.AppendRune]: the UTF-8 encoding of [r]; a rune out of range or
    a surrogate half is encoded as U+FFFD. *)
Definition EncodeRune (r : Z) : string :=
  let r := if (r <? 0) || (MaxRune <? r) || surrogate r then RuneError else r in
  if r <? 128 then String (chr r) ""
  else if r <? 2048 then
    String (chr (Z.lor 192 (Z.shiftr r 6)))
      (String (chr (Z.lor 128 (Z.land r 63))) "")
  else if r <? 65536 then
    String (chr (Z.lor 224 (Z.shiftr r 12)))
      (String (chr (Z.lor 128 (Z.land (Z.shiftr r 6) 63)))
        (String (chr (Z.lor 128 (Z.land r 63))) ""))
  else
    String (chr (Z.lor 240 (Z.shiftr r 18)))
      (String (chr (Z.lor 128 (Z.land (Z.shiftr r 12) 63)))
        (String (chr (Z.lor 128 (Z.land (Z.shiftr r 6) 63)))
          (String (chr (Z.lor 128 (Z.land r 63))) ""))).

End utf8.

(** ** Package [strconv] *)

Module strconv.
Import utf8.

Definition hexdigit (n : Z) : ascii :=
  if n <? 10 then chr (48 + n) else chr (87 + n).

Definition hex2 (b : Z) : string :=
  String (hexdigit (Z.shiftr b 4)) (String (hexdigit (Z.land b 15)) "").

Definition hex4 (r : Z) : string :=
  hex2 (Z.land (Z.shiftr r 8) 255) ++ hex2 (Z.land r 255).

Definition is_digit (c : ascii) : bool := (48 <=? byte c) && (byte c <=? 57).

(** The decimal digits of a non-negative number, written by repeated
    division; [fuel] bounds the number of digits. *)
Fixpoint digits (fuel : nat) (n : Z) (acc : string) : string :=
  match fuel with
  | O => acc
  | S fuel' =>
      let acc' := String (chr (48 + n mod 10)) acc in
      if n <? 10 then acc' else digits fuel' (n / 10) acc'
  end.

(** [strconv.FormatInt(n, 10)]. *)
Definition Itoa (n : Z) : string :=
  if n <? 0 then String "-" (digits (Z.to_nat (Z.log2 (- n)) + 1) (- n) "")
  else digits (Z.to_nat (Z.log2 n) + 1) n "".

(** The value of a non-empty string of decimal digits. *)
Fixpoint digits_value (s : string) (acc : Z) : option Z :=
  match s with
  | EmptyString => Some acc
  | String c s' =>
      if is_digit c then digits_value s' (10 * acc + (byte c - 48)) else None
  end.

Definition ParseDigits (s : string) : option Z :=
  match s with
  | EmptyString => None
  | _ => digits_value s 0
  end.

(** [strconv.ParseInt(s, 10, 64)] and [strconv.ParseUint(s, 10, 64)];
    [None] is a syntax or range error. *)
Definition ParseInt (s : string) : option Z :=
  let signed :=
    match s with
    | String c s' =>
        if Ascii.eqb c "+" then ParseDigits s'
        else if Ascii.eqb c "-" then option_map Z.opp (ParseDigits s')
        else ParseDigits s
    | EmptyString => None
    end in
  match signed with
  | Some n => if (- 2 ^ 63 <=? n) && (n <? 2 ^ 63) then Some n else None
  | None => None
  end.

Definition ParseUint (s : string) : option Z :=
  match ParseDigits s with
  | Some n => if n <? 2 ^ 64 then Some n else None
  | None => None
  end.

(** [strconv.IsPrint] on the runes U+0000..U+00FF. *)
Definition IsPrint (r : Z) : bool :=
  ((32 <=? r) && (r <=? 126)) || ((161 <=? r) && (r <=? 255) && negb (r =? 173)).

(** [strconv.Quote(string(rune(c)))] without its surrounding quotes, for a
    single byte [c]. *)
Definition quoteRune (b : Z) : string :=
  if b =? 34 then String "\" (String dquote "")
  else if b =? 92 then "\\"
  else if IsPrint b then EncodeRune b
  else if b =? 7 then "\a" else if b =? 8 then "\b" else if b =? 12 then "\f"
  else if b =? 10 then "\n" else if b =? 13 then "\r" else if b =? 9 then "\t"
  else if b =? 11 then "\v"
  else if (b <? 32) || (b =? 127) then "\x" ++ hex2 b
  else "\u" ++ hex4 b.

End strconv.

(** ** The scanner ([scanner.go])

    A state machine fed one byte at a time.  [step] names the current
    state function, [parseState] is the stack of open composite values
    (innermost first), [bytes] counts the bytes consumed. *)

Module scanner.
Import utf8 strconv.

Inductive stepfn : Type :=
| stateBeginValueOrEmpty | stateBeginValue
| stateBeginStringOrEmpty | stateBeginString
| stateEndValue | stateEndTop
| stateInString | stateInStringEsc
| stateInStringEscU | stateInStringEscU1 | stateInStringEscU12 | stateInStringEscU123
| stateNeg | state1 | state0 | stateDot | stateDot0 | stateE | stateESign | stateE0
| stateT | stateTr | stateTru
| stateF | stateFa | stateFal | stateFals
| stateN | stateNu | stateNul
| stateError.

Inductive opcode : Type :=
| scanContinue | scanBeginLiteral
| scanBeginObject | scanObjectKey | scanObjectValue | scanEndObject
| scanBeginArray | scanArrayValue | scanEndArray
| scanSkipSpace | scanEnd | scanError.

Inductive pstate : Type := parseObjectKey | parseObjectValue | parseArrayValue.

Record t : Type := mk {
  step : stepfn;
  parseState : list pstate;
  err : error;
  endTop : bool;
  bytes : Z
}.

Definition maxNestingDepth : Z := 10000.

Definition reset : t := mk stateBeginValue [] None false 0.

Definition with_step (f : stepfn) (s : t) : t :=
  mk f (parseState s) (err s) (endTop s) (bytes s).
Definition with_parseState (ps : list pstate) (s : t) : t :=
  mk (step s) ps (err s) (endTop s) (bytes s).

Definition isSpace (c : ascii) : bool :=
  (Ascii.eqb c " " || Ascii.eqb c "009" || Ascii.eqb c "013" || Ascii.eqb c "010")%bool.

Definition isHex (c : ascii) : bool :=
  let b := byte c in
  ((48 <=? b) && (b <=? 57)) || ((97 <=? b) && (b <=? 102)) || ((65 <=? b) && (b <=? 70)).

Definition is19 (c : ascii) : bool := (49 <=? byte c) && (byte c <=? 57).

(** [quoteChar]: a byte as it appears in a syntax error; [s_error] is the
    scanner method [error]. *)
Definition quoteChar (c : ascii) : string :=
  if Ascii.eqb c "'" then "'\''"
  else if Ascii.eqb c dquote then String "'" (String dquote "'")
  else "'" ++ quoteRune (byte c) ++ "'".

Definition s_error (c : ascii) (context : string) (s : t) : t * opcode :=
  (mk stateError (parseState s)
      (Some (SyntaxError ("invalid character " ++ quoteChar c ++ " " ++ context) (bytes s)))
      (endTop s) (bytes s),
   scanError).

Definition pushParseState (c : ascii) (newParseState : pstate) (successState : opcode)
    (s : t) : t * opcode :=
  let s' := with_parseState (newParseState :: parseState s) s in
  if Z.of_nat (length (parseState s')) <=? maxNestingDepth then (s', successState)
  else s_error c "exceeded max depth" s'.

Definition popParseState (s : t) : t :=
  match parseState s with
  | [] => s
  | _ :: [] => mk stateEndTop [] (err s) true (bytes s)
  | _ :: ps => mk stateEndValue ps (err s) (endTop s) (bytes s)
  end.

Definition replaceTop (ps : pstate) (s : t) : t :=
  match parseState s with
  | [] => s
  | _ :: rest => with_parseState (ps :: rest) s
  end.

Definition do_stateEndTop (s : t) (c : ascii) : t * opcode :=
  if negb (isSpace c)
  then (fst (s_error c "after top-level value" s), scanEnd)
  else (s, scanEnd).

Definition do_stateBeginValue (s : t) (c : ascii) : t * opcode :=
  if isSpace c then (s, scanSkipSpace)
  else if Ascii.eqb c "{" then
    pushParseState c parseObjectKey scanBeginObject (with_step stateBeginStringOrEmpty s)
  else if Ascii.eqb c "[" then
    pushParseState c parseArrayValue scanBeginArray (with_step stateBeginValueOrEmpty s)
  else if Ascii.eqb c dquote then (with_step stateInString s, scanBeginLiteral)
  else if Ascii.eqb c "-" then (with_step stateNeg s, scanBeginLiteral)
  else if Ascii.eqb c "0" then (with_step state0 s, scanBeginLiteral)
  else if Ascii.eqb c "t" then (with_step stateT s, scanBeginLiteral)
  else if Ascii.eqb c "f" then (with_step stateF s, scanBeginLiteral)
  else if Ascii.eqb c "n" then (with_step stateN s, scanBeginLiteral)
  else if is19 c then (with_step state1 s, scanBeginLiteral)
  else s_error c "looking for beginning of value" s.

Definition do_stateEndValue (s : t) (c : ascii) : t * opcode :=
  match parseState s with
  | [] => do_stateEndTop (mk stateEndTop [] (err s) true (bytes s)) c
  | ps :: _ =>
      if isSpace c then (with_step stateEndValue s, scanSkipSpace)
      else
        match ps with
        | parseObjectKey =>
            if Ascii.eqb c ":"
            then (with_step stateBeginValue (replaceTop parseObjectValue s), scanObjectKey)
            else s_error c "after object key" s
        | parseObjectValue =>
            if Ascii.eqb c ","
            then (with_step stateBeginString (replaceTop parseObjectKey s), scanObjectValue)
            else if Ascii.eqb c "}" then (popParseState s, scanEndObject)
            else s_error c "after object key:value pair" s
        | parseArrayValue =>
            if Ascii.eqb c "," then (with_step stateBeginValue s, scanArrayValue)
            else if Ascii.eqb c "]" then (popParseState s, scanEndArray)
            else s_error c "after array element" s
        end
  end.

Definition do_stateBeginValueOrEmpty (s : t) (c : ascii) : t * opcode :=
  if isSpace c then (s, scanSkipSpace)
  else if Ascii.eqb c "]" then do_stateEndValue s c
  else do_stateBeginValue s c.

Definition do_stateBeginString (s : t) (c : ascii) : t * opcode :=
  if isSpace c then (s, scanSkipSpace)
  else if Ascii.eqb c dquote then (with_step stateInString s, scanBeginLiteral)
  else s_error c "looking for beginning of object key string" s.

Definition do_stateBeginStringOrEmpty (s : t) (c : ascii) : t * opcode :=
  if isSpace c then (s, scanSkipSpace)
  else if Ascii.eqb c "}" then do_stateEndValue (replaceTop parseObjectValue s) c
  else do_stateBeginString s c.

Definition do_stateInString (s : t) (c : ascii) : t * opcode :=
  if Ascii.eqb c dquote then (with_step stateEndValue s, scanContinue)
  else if Ascii.eqb c "\" then (with_step stateInStringEsc s, scanContinue)
  else if byte c <? 32 then s_error c "in string literal" s
  else (s, scanContinue).

Definition do_stateInStringEsc (s : t) (c : ascii) : t * opcode :=
  if (Ascii.eqb c "b" || Ascii.eqb c "f" || Ascii.eqb c "n" || Ascii.eqb c "r"
      || Ascii.eqb c "t" || Ascii.eqb c "\" || Ascii.eqb c "/" || Ascii.eqb c dquote)%bool
  then (with_step stateInString s, scanContinue)
  else if Ascii.eqb c "u" then (with_step stateInStringEscU s, scanContinue)
  else s_error c "in string escape code" s.

Definition do_hex (next : stepfn) (s : t) (c : ascii) : t * opcode :=
  if isHex c then (with_step next s, scanContinue)
  else s_error c "in \u hexadecimal character escape" s.

Definition do_state0 (s : t) (c : ascii) : t * opcode :=
  if Ascii.eqb c "." then (with_step stateDot s, scanContinue)
  else if (Ascii.eqb c "e" || Ascii.eqb c "E")%bool then (with_step stateE s, scanContinue)
  else do_stateEndValue s c.

Definition do_state1 (s : t) (c : ascii) : t * opcode :=
  if is_digit c then (with_step state1 s, scanContinue)
  else do_state0 s c.

Definition do_stateNeg (s : t) (c : ascii) : t * opcode :=
  if Ascii.eqb c "0" then (with_step state0 s, scanContinue)
  else if is19 c then (with_step state1 s, scanContinue)
  else s_error c "in numeric literal" s.

Definition do_stateDot (s : t) (c : ascii) : t * opcode :=
  if is_digit c then (with_step stateDot0 s, scanContinue)
  else s_error c "after decimal point in numeric literal" s.

Definition do_stateDot0 (s : t) (c : ascii) : t * opcode :=
  if is_digit c then (s, scanContinue)
  else if (Ascii.eqb c "e" || Ascii.eqb c "E")%bool then (with_step stateE s, scanContinue)
  else do_stateEndValue s c.

Definition do_stateESign (s : t) (c : ascii) : t * opcode :=
  if is_digit c then (with_step stateE0 s, scanContinue)
  else s_error c "in exponent of numeric literal" s.

Definition do_stateE (s : t) (c : ascii) : t * opcode :=
  if (Ascii.eqb c "+" || Ascii.eqb c "-")%bool then (with_step stateESign s, scanContinue)
  else do_stateESign s c.

Definition do_stateE0 (s : t) (c : ascii) : t * opcode :=
  if is_digit c then (s, scanContinue)
  else do_stateEndValue s c.

(** One letter of [true], [false] or [null]. *)
Definition do_letter (want : ascii) (next : stepfn) (context : string)
    (s : t) (c : ascii) : t * opcode :=
  if Ascii.eqb c want then (with_step next s, scanContinue)
  else s_error c context s.

(** [s.step(s, c)]. *)
Definition do_step (s : t) (c : ascii) : t * opcode :=
  match step s with
  | stateBeginValueOrEmpty => do_stateBeginValueOrEmpty s c
  | stateBeginValue => do_stateBeginValue s c
  | stateBeginStringOrEmpty => do_stateBeginStringOrEmpty s c
  | stateBeginString => do_stateBeginString s c
  | stateEndValue => do_stateEndValue s c
  | stateEndTop => do_stateEndTop s c
  | stateInString => do_stateInString s c
  | stateInStringEsc => do_stateInStringEsc s c
  | stateInStringEscU => do_hex stateInStringEscU1 s c
  | stateInStringEscU1 => do_hex stateInStringEscU12 s c
  | stateInStringEscU12 => do_hex stateInStringEscU123 s c
  | stateInStringEscU123 => do_hex stateInString s c
  | stateNeg => do_stateNeg s c
  | state1 => do_state1 s c
  | state0 => do_state0 s c
  | stateDot => do_stateDot s c
  | stateDot0 => do_stateDot0 s c
  | stateE => do_stateE s c
  | stateESign => do_stateESign s c
  | stateE0 => do_stateE0 s c
  | stateT => do_letter "r" stateTr "in literal true (expecting 'r')" s c
  | stateTr => do_letter "u" stateTru "in literal true (expecting 'u')" s c
  | stateTru => do_letter "e" stateEndValue "in literal true (expecting 'e')" s c
  | stateF => do_letter "a" stateFa "in literal false (expecting 'a')" s c
  | stateFa => do_letter "l" stateFal "in literal false (expecting 'l')" s c
  | stateFal => do_letter "s" stateFals "in literal false (expecting 's')" s c
  | stateFals => do_letter "e" stateEndValue "in literal false (expecting 'e')" s c
  | stateN => do_letter "u" stateNu "in literal null (expecting 'u')" s c
  | stateNu => do_letter "l" stateNul "in literal null (expecting 'l')" s c
  | stateNul => do_letter "l" stateEndValue "in literal null (expecting 'l')" s c
  | stateError => (s, scanError)
  end.

(** [s.eof()]: the opcode at the end of the input and the error, if any. *)
Definition eof (s : t) : t * opcode :=
  match err s with
  | Some _ => (s, scanError)
  | None =>
      if endTop s then (s, scanEnd)
      else
        let s' := fst (do_step s " ") in
        if endTop s' then (s', scanEnd)
        else
          match err s' with
          | Some _ => (s', scanError)
          | None =>
              (mk (step s') (parseState s')
                  (Some (SyntaxError "unexpected end of JSON input" (bytes s')))
                  (endTop s') (bytes s'),
               scanError)
          end
  end.

End scanner.

(** ** Syntax trees

    The decoder of [decode.go] walks the input with the scanner and reads
    literals and composite values off it.  Here the walk is done once and
    kept as a tree: a literal with its bytes, an array with its elements,
    an object with its members (the key still quoted).  Composite nodes
    also keep their own source text, which is what an [Unmarshaler] such
    as [json.RawMessage] receives. *)

Module syntax.
Import utf8 strconv scanner.

Inductive jtree : Type :=
| Lit (item : string)
| Arr (raw : string) (elems : list jtree)
| Obj (raw : string) (members : list (string * jtree)).

Definition raw_of (j : jtree) : string :=
  match j with
  | Lit item => item
  | Arr raw _ => raw
  | Obj raw _ => raw
  end.

(** An open composite value: its text so far, the key and the value read
    last, and the children completed so far. *)
Record frame : Type := mkFrame {
  raw : string;
  key : option string;
  pending : option jtree;
  elems : list jtree;
  members : list (string * jtree)
}.

Record builder : Type := mkBuilder {
  lit : option string;
  frames : list frame;
  top : option jtree
}.

Definition empty : builder := mkBuilder None [] None.

Definition snoc (s : string) (c : ascii) : string := s ++ String c "".

Definition add_raw (c : ascii) (fs : list frame) : list frame :=
  List.map (fun f => mkFrame (snoc (raw f) c) (key f) (pending f) (elems f) (members f)) fs.

Definition deliver (v : jtree) (b : builder) : builder :=
  match frames b with
  | [] => mkBuilder (lit b) [] (Some v)
  | f :: fs =>
      mkBuilder (lit b)
        (mkFrame (raw f) (key f) (Some v) (elems f) (members f) :: fs) (top b)
  end.

(** A literal ends at the first byte the scanner does not report as
    [scanContinue]. *)
Definition flush (b : builder) : builder :=
  match lit b with
  | Some l => deliver (Lit l) (mkBuilder None (frames b) (top b))
  | None => b
  end.

Definition close_members (f : frame) : list (string * jtree) :=
  match pending f with
  | Some v => members f ++ [(default "" (key f), v)]
  | None => members f
  end.

Definition close_elems (f : frame) : list jtree :=
  match pending f with
  | Some v => elems f ++ [v]
  | None => elems f
  end.

Definition on_top (g : frame -> frame) (b : builder) : builder :=
  match frames b with
  | [] => b
  | f :: fs => mkBuilder (lit b) (g f :: fs) (top b)
  end.

Definition feed (op : opcode) (c : ascii) (b : builder) : builder :=
  match op with
  | scanContinue =>
      mkBuilder (option_map (fun l => snoc l c) (lit b)) (add_raw c (frames b)) (top b)
  | _ =>
      let b := flush b in
      let b := mkBuilder (lit b) (add_raw c (frames b)) (top b) in
      match op with
      | scanBeginLiteral => mkBuilder (Some (String c "")) (frames b) (top b)
      | scanBeginObject | scanBeginArray =>
          mkBuilder (lit b) (mkFrame (String c "") None None [] [] :: frames b) (top b)
      | scanObjectKey =>
          on_top (fun f => mkFrame (raw f) (option_map raw_of (pending f)) None
                                   (elems f) (members f)) b
      | scanObjectValue =>
          on_top (fun f => mkFrame (raw f) None None (elems f) (close_members f)) b
      | scanArrayValue =>
          on_top (fun f => mkFrame (raw f) None None (close_elems f) (members f)) b
      | scanEndObject =>
          match frames b with
          | [] => b
          | f :: fs => deliver (Obj (raw f) (close_members f)) (mkBuilder (lit b) fs (top b))
          end
      | scanEndArray =>
          match frames b with
          | [] => b
          | f :: fs => deliver (Arr (raw f) (close_elems f)) (mkBuilder (lit b) fs (top b))
          end
      | _ => b
      end
  end.

Definition unexpected_end (n : Z) : goerror :=
  SyntaxError "unexpected end of JSON input" n.

(** [checkValid] and the walk over the input in one pass: the tree of a
    well-formed text, or the scanner's [SyntaxError]. *)
Fixpoint run (s : scanner.t) (b : builder) (data : string) : jtree + goerror :=
  match data with
  | EmptyString =>
      match eof s with
      | (s', scanError) => inr (default (unexpected_end (bytes s')) (err s'))
      | _ =>
          match top (flush b) with
          | Some v => inl v
          | None => inr (unexpected_end (bytes s))
          end
      end
  | String c rest =>
      let s1 := mk (step s) (parseState s) (err s) (endTop s) (bytes s + 1) in
      match do_step s1 c with
      | (s2, scanError) => inr (default (unexpected_end (bytes s2)) (err s2))
      | (s2, op) => run s2 (feed op c b) rest
      end
  end.

Definition scan (data : string) : jtree + goerror := run reset empty data.

(** *** String literals *)

Definition hexval (c : ascii) : Z :=
  let b := byte c in
  if (48 <=? b) && (b <=? 57) then b - 48
  else if (97 <=? b) && (b <=? 102) then b - 87
  else if (65 <=? b) && (b <=? 70) then b - 55
  else -1.

(** [getu4]: the code unit of a [\uXXXX] escape at the head of [s], or -1. *)
Definition getu4 (s : string) : Z :=
  match s with
  | String "\" (String "u" (String a (String b (String c (String d _))))) =>
      if isHex a && isHex b && isHex c && isHex d
      then hexval a * 4096 + hexval b * 256 + hexval c * 16 + hexval d
      else -1
  | _ => -1
  end.

(** [utf16.DecodeRune]. *)
Definition utf16_DecodeRune (r1 r2 : Z) : Z :=
  if (55296 <=? r1) && (r1 <? 56320) && (56320 <=? r2) && (r2 <? 57344)
  then Z.lor (Z.shiftl (r1 - 55296) 10) (r2 - 56320) + 65536
  else RuneError.

(** The body of [unquoteBytes], after the surrounding quotes are removed.
    [skip] bytes are still to be passed over because an escape or a
    multi-byte rune that began earlier covers them. *)
Fixpoint unquote_body (skip : nat) (s : string) : string :=
  match s with
  | EmptyString => EmptyString
  | String c rest =>
      match skip with
      | S k => unquote_body k rest
      | O =>
          if Ascii.eqb c "\" then
            match rest with
            | EmptyString => EmptyString
            | String e rest' =>
                if Ascii.eqb e "u" then
                  let rr := getu4 s in
                  if surrogate rr then
                    let dec := utf16_DecodeRune rr (getu4 (String.substring 6 6 s)) in
                    if negb (dec =? RuneError)
                    then EncodeRune dec ++ unquote_body 10 rest'
                    else EncodeRune RuneError ++ unquote_body 4 rest'
                  else EncodeRune rr ++ unquote_body 4 rest'
                else
                  let out :=
                    if Ascii.eqb e "b" then "008"%char
                    else if Ascii.eqb e "f" then "012"%char
                    else if Ascii.eqb e "n" then "010"%char
                    else if Ascii.eqb e "r" then "013"%char
                    else if Ascii.eqb e "t" then "009"%char
                    else e in
                  String out (unquote_body 0 rest')
            end
          else if byte c <? 128 then String c (unquote_body 0 rest)
          else
            let '(rr, size) := DecodeRune s in
            EncodeRune rr ++ unquote_body (size - 1) rest
      end
  end.

Fixpoint drop_last (s : string) : string :=
  match s with
  | EmptyString => EmptyString
  | String c EmptyString => EmptyString
  | String c s' => String c (drop_last s')
  end.

(** [unquote]: the string a quoted literal denotes.  The scanner has
    accepted the literal, so its escapes are well formed. *)
Definition unquote (item : string) : string :=
  match item with
  | String _ body => unquote_body 0 (drop_last body)
  | EmptyString => EmptyString
  end.

End syntax.

(** ** binary64: [strconv.ParseFloat], [strconv.AppendFloat]

    Values are [spec_float]s of precision 53 and maximal exponent 1024.
    Parsing rounds the decimal to the nearest value, ties to even;
    formatting produces the shortest decimal that parses back to the same
    value. *)

Module float.
Import utf8 strconv.

Definition prec : Z := 53.
Definition emax : Z := 1024.

Fixpoint take_digits (s : string) : string * string :=
  match s with
  | String c s' =>
      if is_digit c then let '(d, r) := take_digits s' in (String c d, r)
      else (EmptyString, s)
  | EmptyString => (EmptyString, EmptyString)
  end.

(** The decimal exponent after [e] or [E]. *)
Definition exponent (s : string) : option Z :=
  match s with
  | EmptyString => Some 0
  | String c r =>
      if (Ascii.eqb c "e" || Ascii.eqb c "E")%bool then
        match r with
        | String "+" r' => ParseDigits r'
        | String "-" r' => option_map Z.opp (ParseDigits r')
        | _ => ParseDigits r
        end
      else None
  end.

(** [strconv.ParseFloat(s, 64)] on the number syntax of JSON; [None] is a
    syntax error or a value out of range. *)
Definition ParseFloat (s : string) : option float64 :=
  let '(neg, s1) := match s with String "-" r => (true, r) | _ => (false, s) end in
  let '(ip, s2) := take_digits s1 in
  let '(fp, s3) := match s2 with String "." r => take_digits r | _ => (EmptyString, s2) end in
  match ParseDigits (ip ++ fp), exponent s3 with
  | Some m, Some e =>
      let e10 := e - Z.of_nat (String.length fp) in
      let f :=
        match m with
        | Zpos mp =>
            if 0 <=? e10
            then binary_normalize prec emax ((if neg then - m else m) * 10 ^ e10) 0 false
            else SFdiv prec emax (S754_finite neg mp 0)
                       (S754_finite false (Z.to_pos (10 ^ (- e10))) 0)
        | _ => S754_zero neg
        end in
      match f with
      | S754_infinity _ | S754_nan => None
      | _ => Some f
      end
  | _, _ => None
  end.

(** The shortest decimal [D * 10^x] that lies in the rounding interval of
    the positive value [m * 2^e]: the first decimal place, from the top,
    at which rounding down or up stays inside the interval. *)
Fixpoint shortest_from (j : nat) (X L U : Z) (inclusive : bool) : Z * Z :=
  let unit := 10 ^ Z.of_nat j in
  let T := X / unit * unit in
  let okdown := (L <? T) || (inclusive && (L =? T)) in
  let okup := (T + unit <? U) || (inclusive && (T + unit =? U)) in
  let r := X - T in
  let up :=
    match 2 * r ?= unit with
    | Gt => true
    | Lt => false
    | Eq => Z.odd (T / unit)
    end in
  let pick (b : bool) := ((if b then T / unit + 1 else T / unit), Z.of_nat j) in
  match j with
  | O => pick (if okdown then (okup && up) else okup)
  | S j' =>
      if okdown && okup then pick up
      else if okdown then pick false
      else if okup then pick true
      else shortest_from j' X L U inclusive
  end.

Fixpoint strip_zeros (fuel : nat) (D x : Z) : Z * Z :=
  match fuel with
  | O => (D, x)
  | S fuel' =>
      if (D =? 0) || negb (D mod 10 =? 0) then (D, x)
      else strip_zeros fuel' (D / 10) (x + 1)
  end.

(** The digits and the position of the decimal point ([d.d], [d.dp] of
    [strconv]'s decimal) of the shortest representation. *)
Definition shortest (m : positive) (e : Z) : string * Z :=
  let s := if e <? 2 then 2 - e else 0 in
  let sc (z ez : Z) := z * 2 ^ (ez + s) * 5 ^ s in
  let X := sc (Zpos m) e in
  let U := sc (2 * Zpos m + 1) (e - 1) in
  let L := if (Zpos m =? 2 ^ 52) && (-1074 <? e)
           then sc (4 * Zpos m - 1) (e - 2)
           else sc (2 * Zpos m - 1) (e - 1) in
  let J := Z.to_nat (Z.log2 U / 3 + 1) in
  let '(D, j) := shortest_from J X L U (Z.even (Zpos m)) in
  let '(D, x) := strip_zeros (Z.to_nat (Z.log2 D)) D (j - s) in
  let ds := Itoa D in
  (ds, Z.of_nat (String.length ds) + x).

Fixpoint zeros (n : nat) : string :=
  match n with
  | O => EmptyString
  | S n' => String "0" (zeros n')
  end.

(** [%f] with the shortest digits. *)
Definition fmtF (ds : string) (dp : Z) : string :=
  let nd := Z.of_nat (String.length ds) in
  let ip :=
    if 0 <? dp
    then take_bytes (Z.to_nat dp) ds ++ zeros (Z.to_nat (dp - nd))
    else "0" in
  let fp :=
    if dp <? nd
    then "." ++ zeros (Z.to_nat (- dp)) ++ String.substring (Z.to_nat dp) (Z.to_nat nd) ds
    else EmptyString in
  ip ++ fp.

(** [%e] with the shortest digits, the exponent without padding (the
    encoder rewrites [e-09] to [e-9]). *)
Definition fmtE (ds : string) (dp : Z) : string :=
  match ds with
  | EmptyString => "0e+00"
  | String d rest =>
      let x := dp - 1 in
      String d (match rest with EmptyString => EmptyString | _ => "." ++ rest end)
        ++ "e" ++ (if x <? 0 then "-" else "+")
        ++ (if Z.abs x <? 10 then "0" else "") ++ Itoa (Z.abs x)
  end.

Definition clean_exponent (b : string) : string :=
  let n := String.length b in
  if (4 <=? n)%nat then
    match String.get (n - 4) b, String.get (n - 3) b, String.get (n - 2) b with
    | Some c4, Some c3, Some c2 =>
        if Ascii.eqb c4 "e" && (Ascii.eqb c3 "-" || Ascii.eqb c3 "+") && Ascii.eqb c2 "0"
        then String.substring 0 (n - 2) b ++ String.substring (n - 1) 1 b
        else b
    | _, _, _ => b
    end
  else b.

(** The bytes the encoder writes for a finite value. *)
Definition encode (f : float64) : option string :=
  match f with
  | S754_zero neg => Some (if neg then "-0" else "0")
  | S754_finite neg m e =>
      let '(ds, dp) := shortest m e in
      (* abs < 1e-6 || abs >= 1e21 *)
      let body := if (dp <? -5) || (21 <? dp) then clean_exponent (fmtE ds dp)
                  else fmtF ds dp in
      Some (if neg then String "-" body else body)
  | _ => None
  end.

(** [strconv.FormatFloat(f, 'g', -1, 64)] for the values the encoder
    rejects. *)
Definition special (f : float64) : string :=
  match f with
  | S754_nan => "NaN"
  | S754_infinity neg => if neg then "-Inf" else "+Inf"
  | _ => EmptyString
  end.

End float.

(** ** Struct fields as the codec sees them ([typeFields])

    Field names and tags are ASCII.  A field is dropped when it is
    unexported or tagged [json:"-"]; its JSON name is the tag's name when
    that is valid, its Go name otherwise; of several fields with one JSON
    name the only tagged one wins, otherwise none is kept. *)

Module fields.
Import utf8 strconv.

Record field : Type := mkField {
  f_name : string;
  f_tagged : bool;
  f_omitEmpty : bool;
  f_type : gotype
}.

Fixpoint split_comma (s : string) : string * string :=
  match s with
  | EmptyString => (EmptyString, EmptyString)
  | String c s' =>
      if Ascii.eqb c "," then (EmptyString, s')
      else let '(a, b) := split_comma s' in (String c a, b)
  end.

(** [tagOptions.Contains]. *)
Fixpoint contains_fuel (fuel : nat) (opts name : string) : bool :=
  match fuel with
  | O => false
  | S fuel' =>
      match opts with
      | EmptyString => false
      | _ =>
          let '(o, rest) := split_comma opts in
          String.eqb o name || contains_fuel fuel' rest name
      end
  end.

Definition Contains (opts name : string) : bool :=
  contains_fuel (String.length opts) opts name.

Definition is_letter (b : Z) : bool :=
  ((65 <=? b) && (b <=? 90)) || ((97 <=? b) && (b <=? 122)).

Definition tag_punct : string := "!#$%&()*+-./:;<=>?@[]^_{|}~ ".

Fixpoint mem_char (c : ascii) (s : string) : bool :=
  match s with
  | EmptyString => false
  | String d s' => Ascii.eqb c d || mem_char c s'
  end.

Fixpoint all_chars (p : ascii -> bool) (s : string) : bool :=
  match s with
  | EmptyString => true
  | String c s' => p c && all_chars p s'
  end.

Definition isValidTag (s : string) : bool :=
  negb (String.eqb s "")
  && all_chars (fun c => mem_char c tag_punct || is_letter (byte c) || is_digit c) s.

Definition IsExported (name : string) : bool :=
  match name with
  | String c _ => (65 <=? byte c) && (byte c <=? 90)
  | EmptyString => false
  end.

(** One declared field, before name conflicts are resolved. *)
Definition candidate (sf : string * string * gotype) : option field :=
  let '(goname, tag, t) := sf in
  if negb (IsExported goname) then None
  else if String.eqb tag "-" then None
  else
    let '(name, opts) := split_comma tag in
    let name := if isValidTag name then name else EmptyString in
    Some (mkField (if String.eqb name "" then goname else name)
                  (negb (String.eqb name ""))
                  (Contains opts "omitempty") t).

Definition count_named (name : string) (tagged : bool) (cs : list (option field)) : nat :=
  length (List.filter
            (fun c => match c with
                      | Some f => String.eqb (f_name f) name && Bool.eqb (f_tagged f) tagged
                      | None => false
                      end) cs).

(** [dominantField] within one struct. *)
Definition dominant (cs : list (option field)) (c : option field) : option field :=
  match c with
  | None => None
  | Some f =>
      let tagged := count_named (f_name f) true cs in
      let plain := count_named (f_name f) false cs in
      if f_tagged f then (if (tagged =? 1)%nat then Some f else None)
      else if ((tagged =? 0)%nat && (plain =? 1)%nat)%bool then Some f else None
  end.

(** For each declared field, in order: how the codec names it, or [None]
    when the codec ignores it. *)
Definition typeFields (fs : list (string * string * gotype)) : list (option field) :=
  let cs := List.map candidate fs in
  List.map (dominant cs) cs.

(** [foldName]: upper-case ASCII letters; the two runes outside ASCII
    whose case orbit reaches ASCII fold to [S] and [K]. *)
Fixpoint foldName_body (skip : nat) (s : string) : string :=
  match s with
  | EmptyString => EmptyString
  | String c rest =>
      match skip with
      | S k => foldName_body k rest
      | O =>
          let b := byte c in
          if b <? 128 then
            String (if (97 <=? b) && (b <=? 122) then chr (b - 32) else c)
                   (foldName_body 0 rest)
          else
            let '(r, n) := DecodeRune s in
            let r := if r =? 383 then 83 else if r =? 8490 then 75 else r in
            EncodeRune r ++ foldName_body (n - 1) rest
      end
  end.

Definition foldName (s : string) : string := foldName_body 0 s.

Fixpoint find_by (p : field -> bool) (i : nat) (fs : list (option field))
    : option (nat * field) :=
  match fs with
  | [] => None
  | Some f :: fs' => if p f then Some (i, f) else find_by p (S i) fs'
  | None :: fs' => find_by p (S i) fs'
  end.

(** The field a key of the input selects: the one with exactly that name,
    else the first whose folded name equals the folded key. *)
Definition lookup (fs : list (option field)) (key : string) : option (nat * field) :=
  match find_by (fun f => String.eqb (f_name f) key) 0 fs with
  | Some r => Some r
  | None => find_by (fun f => String.eqb (foldName (f_name f)) (foldName key)) 0 fs
  end.

End fields.

(** ** The decoder ([decode.go]) *)

Module decoder.
Import utf8 strconv scanner syntax fields.

(** [d.errorContext]: the struct being filled and the path of JSON names
    that leads to the current field. *)
Record errorContext : Type := mkContext {
  Struct : option string;
  FieldStack : list string
}.

Fixpoint join (sep : string) (l : list string) : string :=
  match l with
  | [] => EmptyString
  | [x] => x
  | x :: l' => x ++ sep ++ join sep l'
  end.

Definition addErrorContext (ctx : errorContext) (e : goerror) : goerror :=
  match Struct ctx, FieldStack ctx, e with
  | None, [], _ => e
  | st, fs, UnmarshalTypeError v t _ _ =>
      UnmarshalTypeError v t (default "" st) (join "." fs)
  | _, _, _ => e
  end.

(** [d.saveError]: only the first error is kept. *)
Definition saveError (ctx : errorContext) (e : goerror) (saved : error) : error :=
  match saved with
  | Some _ => saved
  | None => Some (addErrorContext ctx e)
  end.

Definition first_char (s : string) : ascii :=
  match s with
  | String c _ => c
  | EmptyString => "000"%char
  end.

Definition is_null (j : jtree) : bool :=
  match j with
  | Lit item => Ascii.eqb (first_char item) "n"
  | _ => false
  end.

(** *** Decoding into [interface{}] ([valueInterface]) *)

Definition key_eqb (a b : value) : bool :=
  match a, b with
  | VString x, VString y => String.eqb x y
  | VInt x, VInt y => x =? y
  | _, _ => false
  end.

(** [m[k] = v]. *)
Fixpoint map_set (k v : value) (m : list (value * value)) : list (value * value) :=
  match m with
  | [] => [(k, v)]
  | (k', v') :: m' =>
      if key_eqb k k' then (k, v) :: m' else (k', v') :: map_set k v m'
  end.

Definition literalInterface (ctx : errorContext) (item : string) (saved : error)
    : value * error :=
  let c := first_char item in
  if Ascii.eqb c "n" then (VInterface None, saved)
  else if Ascii.eqb c "t" then (VInterface (Some (TBool, VBool true)), saved)
  else if Ascii.eqb c "f" then (VInterface (Some (TBool, VBool false)), saved)
  else if Ascii.eqb c dquote then (VInterface (Some (TString, VString (unquote item))), saved)
  else
    match float.ParseFloat item with
    | Some f => (VInterface (Some (TFloat64, VFloat64 f)), saved)
    | None =>
        (VInterface None,
         saveError ctx (UnmarshalTypeError ("number " ++ item) TFloat64 "" "") saved)
    end.

Section InterfaceLoops.
Variable dec : errorContext -> jtree -> error -> value * error.

(** [arrayInterface]: the elements as a [[]interface{}]. *)
Fixpoint arrayInterface (ctx : errorContext) (es : list jtree) (saved : error)
    : list value * error :=
  match es with
  | [] => ([], saved)
  | e :: es' =>
      let '(x, saved) := dec ctx e saved in
      let '(xs, saved) := arrayInterface ctx es' saved in
      (x :: xs, saved)
  end.

(** [objectInterface]: the members as a [map[string]interface{}]. *)
Fixpoint objectInterface (ctx : errorContext) (ms : list (string * jtree))
    (m : list (value * value)) (saved : error) : list (value * value) * error :=
  match ms with
  | [] => (m, saved)
  | (k, e) :: ms' =>
      let '(x, saved) := dec ctx e saved in
      objectInterface ctx ms' (map_set (VString (unquote k)) x m) saved
  end.

End InterfaceLoops.

Fixpoint valueInterface (ctx : errorContext) (j : jtree) (saved : error)
    {struct j} : value * error :=
  match j with
  | Lit item => literalInterface ctx item saved
  | Arr _ es =>
      let '(xs, saved) := arrayInterface valueInterface ctx es saved in
      (VInterface (Some (TSlice TInterface, VSlice (Some xs))), saved)
  | Obj _ ms =>
      let '(m, saved) := objectInterface valueInterface ctx ms [] saved in
      (VInterface (Some (TMap TString TInterface, VMap (Some m))), saved)
  end.

(** *** [indirect]

    Walks down through pointers (allocating where they are nil) and
    through an interface that holds a non-nil pointer, to the value the
    input is stored in.  The walk is returned as the list of wrappers
    passed, outermost first, with the type and value reached.  When a
    [null] is decoded the walk stops at the first pointer that can be
    set. *)
Inductive wrapper : Type :=
| WPointer
| WInterface (t : gotype).

Fixpoint rebuild (ws : list wrapper) (v : value) : value :=
  match ws with
  | [] => v
  | WPointer :: ws' => VPointer (Some (rebuild ws' v))
  | WInterface t :: ws' => VInterface (Some (t, rebuild ws' v))
  end.

Definition is_pointer (t : gotype) : bool :=
  match t with
  | TPointer _ => true
  | _ => false
  end.

(** Below a pointer that was nil everything is freshly allocated. *)
Fixpoint indirect_new (decodingNull : bool) (t : gotype) : list wrapper * gotype :=
  match t with
  | TPointer e =>
      if decodingNull then ([], t)
      else let '(ws, t') := indirect_new decodingNull e in (WPointer :: ws, t')
  | _ => ([], t)
  end.

Fixpoint indirect (decodingNull canset : bool) (t : gotype) (v : value)
    {struct v} : list wrapper * (gotype * value) :=
  match v with
  | VInterface (Some (TPointer e, VPointer (Some x))) =>
      if negb decodingNull || is_pointer e then
        let '(ws, r) := indirect decodingNull true e x in
        (WInterface (TPointer e) :: WPointer :: ws, r)
      else ([], (t, v))
  | VPointer p =>
      match t with
      | TPointer e =>
          if decodingNull && canset then ([], (t, v))
          else
            match p with
            | Some x =>
                let '(ws, r) := indirect decodingNull true e x in
                (WPointer :: ws, r)
            | None =>
                let '(ws, t') := indirect_new decodingNull e in
                (WPointer :: ws, (t', zero t'))
            end
      | _ => ([], (t, v))
      end
  | _ => ([], (t, v))
  end.

(** *** [literalStore] for a destination that is not an [Unmarshaler] *)
Definition literalStore (ctx : errorContext) (item : string) (t : gotype) (v : value)
    (saved : error) : value * error :=
  let c := first_char item in
  let mismatch (what : string) := (v, saveError ctx (UnmarshalTypeError what t "" "") saved) in
  if Ascii.eqb c "n" then
    match t with
    | TInterface => (VInterface None, saved)
    | TPointer _ => (VPointer None, saved)
    | TMap _ _ => (VMap None, saved)
    | TSlice _ => (VSlice None, saved)
    | _ => (v, saved)
    end
  else if (Ascii.eqb c "t" || Ascii.eqb c "f")%bool then
    match t with
    | TBool => (VBool (Ascii.eqb c "t"), saved)
    | TInterface => (VInterface (Some (TBool, VBool (Ascii.eqb c "t"))), saved)
    | _ => mismatch "bool"
    end
  else if Ascii.eqb c dquote then
    match t with
    | TString => (VString (unquote item), saved)
    | TInterface => (VInterface (Some (TString, VString (unquote item))), saved)
    | _ => mismatch "string"
    end
  else
    match t with
    | TInterface =>
        match float.ParseFloat item with
        | Some f => (VInterface (Some (TFloat64, VFloat64 f)), saved)
        | None =>
            (v, saveError ctx (UnmarshalTypeError ("number " ++ item) TFloat64 "" "") saved)
        end
    | TInt | TInt64 =>
        match ParseInt item with
        | Some n => (VInt n, saved)
        | None => mismatch ("number " ++ item)
        end
    | TUint =>
        match ParseUint item with
        | Some n => (VInt n, saved)
        | None => mismatch ("number " ++ item)
        end
    | TFloat64 =>
        match float.ParseFloat item with
        | Some f => (VFloat64 f, saved)
        | None => mismatch ("number " ++ item)
        end
    | _ => mismatch "number"
    end.

(** The key of a map entry, from the unquoted key of the input. *)
Definition mapKey (kt : gotype) (key : string) : option value :=
  match kt with
  | TString => Some (VString key)
  | TInt | TInt64 => option_map VInt (ParseInt key)
  | TUint => option_map VInt (ParseUint key)
  | _ => None
  end.

Definition key_kind_ok (kt : gotype) : bool :=
  match kt with
  | TString | TInt | TInt64 | TUint => true
  | _ => false
  end.

Definition set_nth (i : nat) (x : value) (l : list value) : list value := <[i := x]> l.

(** *** The loops of [d.array] and [d.object]

    [dec] is [d.value], called on each element or member. *)
Section Loops.
Variable dec : jtree -> errorContext -> bool -> gotype -> value -> error -> value * error.

(** The elements of an array, stored over the slice's old elements where
    it has them, over zero values where it has not. *)
Fixpoint array (ctx : errorContext) (te : gotype) (es : list jtree) (old : list value)
    (saved : error) : list value * error :=
  match es with
  | [] => ([], saved)
  | e :: es' =>
      let '(x, saved) := dec e ctx true te (hd (zero te) old) saved in
      let '(xs, saved) := array ctx te es' (tl old) saved in
      (x :: xs, saved)
  end.

(** The members of an object, stored in a map. *)
Fixpoint object_map (ctx : errorContext) (kt et : gotype) (ms : list (string * jtree))
    (m : list (value * value)) (saved : error) : list (value * value) * error :=
  match ms with
  | [] => (m, saved)
  | (k, e) :: ms' =>
      let '(x, saved) := dec e ctx true et (zero et) saved in
      let key := unquote k in
      match mapKey kt key with
      | Some kv => object_map ctx kt et ms' (map_set kv x m) saved
      | None =>
          object_map ctx kt et ms' m
            (saveError ctx (UnmarshalTypeError ("number " ++ key) kt "" "") saved)
      end
  end.

(** The members of an object, stored in the fields of a struct; a key
    that selects no field is skipped. *)
Fixpoint object_struct (ctx : errorContext) (name : string) (tfs : list (option field))
    (ms : list (string * jtree)) (vs : list value) (saved : error)
    : list value * error :=
  match ms with
  | [] => (vs, saved)
  | (k, e) :: ms' =>
      match lookup tfs (unquote k) with
      | Some (i, f) =>
          let ctx' := mkContext (Some name) (FieldStack ctx ++ [f_name f]) in
          let '(x, saved) :=
            dec e ctx' true (f_type f) (nth i vs (zero (f_type f))) saved in
          object_struct ctx name tfs ms' (set_nth i x vs) saved
      | None => object_struct ctx name tfs ms' vs saved
      end
  end.

(** What [d.value] does once [indirect] has found the destination [v] of
    type [t]. *)
Definition store (j : jtree) (ctx : errorContext) (t : gotype) (v : value)
    (saved : error) : value * error :=
  match t with
  | TRawMessage => (VRawMessage (Some (raw_of j)), saved)
  | _ =>
      match j with
      | Lit item => literalStore ctx item t v saved
      | Arr _ es =>
          match t with
          | TInterface => valueInterface ctx j saved
          | TSlice te =>
              let old := match v with VSlice (Some l) => l | _ => [] end in
              let '(xs, saved) := array ctx te es old saved in
              (VSlice (Some xs), saved)
          | _ => (v, saveError ctx (UnmarshalTypeError "array" t "" "") saved)
          end
      | Obj _ ms =>
          match t with
          | TInterface => valueInterface ctx j saved
          | TMap kt et =>
              if negb (key_kind_ok kt)
              then (v, saveError ctx (UnmarshalTypeError "object" t "" "") saved)
              else
                let m := match v with VMap (Some m) => m | _ => [] end in
                let '(m, saved) := object_map ctx kt et ms m saved in
                (VMap (Some m), saved)
          | TStruct _ name fs =>
              let vs := match v with VStruct vs => vs | _ => [] end in
              let '(vs, saved) := object_struct ctx name (typeFields fs) ms vs saved in
              (VStruct vs, saved)
          | _ => (v, saveError ctx (UnmarshalTypeError "object" t "" "") saved)
          end
      end
  end.

End Loops.

(** *** [d.value]: store the input [j] in the destination [v] of type [t].
    [canset] tells whether [v] itself can be assigned (it cannot when it is
    the pointer handed to [Unmarshal]). *)
Fixpoint decodeValue (j : jtree) (ctx : errorContext) (canset : bool) (t : gotype)
    (v : value) (saved : error) {struct j} : value * error :=
  let '(ws, (t, v)) := indirect (is_null j) canset t v in
  let '(r, saved) := store decodeValue j ctx t v saved in
  (rebuild ws r, saved).

(** [json.Unmarshal(data, v)]. *)
Definition Unmarshal (data : string) (v : iface) : iface * error :=
  match scan data with
  | inr e => (v, Some e)
  | inl j =>
      match v with
      | None => (v, Some (InvalidUnmarshalError None))
      | Some (TPointer e, VPointer (Some x)) =>
          let '(r, saved) :=
            decodeValue j (mkContext None []) false (TPointer e) (VPointer (Some x)) None in
          (Some (TPointer e, r), saved)
      | Some (t, _) => (v, Some (InvalidUnmarshalError (Some t)))
      end
  end.

End decoder.

(** ** The encoder ([encode.go], [indent.go]) *)

Module encoder.
Import utf8 strconv scanner syntax fields.

(** [appendString] with HTML escaping on, without the surrounding quotes.
    [skip] bytes that continue a rune seen earlier are copied ([copy]) or
    passed over. *)
Fixpoint appendString_body (skip : nat) (copy : bool) (s : string) : string :=
  match s with
  | EmptyString => EmptyString
  | String c rest =>
      match skip with
      | S k =>
          if copy then String c (appendString_body k copy rest)
          else appendString_body k copy rest
      | O =>
          let b := byte c in
          if b <? 128 then
            let out :=
              if (b =? 92) || (b =? 34) then String "\" (String c "")
              else if b =? 8 then "\b"
              else if b =? 12 then "\f"
              else if b =? 10 then "\n"
              else if b =? 13 then "\r"
              else if b =? 9 then "\t"
              else if (b <? 32) || (b =? 60) || (b =? 62) || (b =? 38)
              then "\u00" ++ hex2 b
              else String c "" in
            out ++ appendString_body 0 false rest
          else
            let '(r, size) := DecodeRune s in
            if (r =? RuneError) && (size =? 1)%nat
            then "\ufffd" ++ appendString_body 0 false rest
            else if (r =? 8232) || (r =? 8233)
            then "\u202" ++ String (hexdigit (Z.land r 15)) (appendString_body (size - 1) false rest)
            else String c (appendString_body (size - 1) true rest)
      end
  end.

Definition appendString (s : string) : string :=
  String dquote (appendString_body 0 false s) ++ String dquote "".

(** [appendCompact] with HTML escaping on: the text without insignificant
    space, or the scanner's error. *)
Fixpoint compact_run (s : scanner.t) (skip : nat) (src : string) : string + goerror :=
  match src with
  | EmptyString =>
      match eof s with
      | (s', scanError) => inr (default (unexpected_end (bytes s')) (err s'))
      | _ => inl EmptyString
      end
  | String c rest =>
      let b := byte c in
      let '(s', op) := do_step s c in
      let continue (out : string) (skip' : nat) :=
        match compact_run s' skip' rest with
        | inl r => inl (out ++ r)
        | inr e => inr e
        end in
      match op with
      | scanError => inr (default (unexpected_end (bytes s')) (err s'))
      | scanSkipSpace | scanEnd => continue EmptyString (Nat.pred skip)
      | _ =>
          match skip with
          | S k => continue EmptyString k
          | O =>
              if (b =? 60) || (b =? 62) || (b =? 38)
              then continue ("\u00" ++ hex2 b) 0%nat
              else
                match rest with
                | String c1 (String c2 _) =>
                    if (b =? 226) && (byte c1 =? 128) && (Z.land (byte c2) 254 =? 168)
                    then continue ("\u202" ++ String (hexdigit (Z.land (byte c2) 15)) "") 2%nat
                    else continue (String c "") 0%nat
                | _ => continue (String c "") 0%nat
                end
          end
      end
  end.

Definition compact (src : string) : string + goerror := compact_run reset 0 src.

(** [isEmptyValue]. *)
Definition isEmptyValue (v : value) : bool :=
  match v with
  | VBool b => negb b
  | VInt n => n =? 0
  | VFloat64 f => match f with S754_zero _ => true | _ => false end
  | VString s => String.eqb s ""
  | VRawMessage None | VRawMessage (Some EmptyString) => true
  | VInterface None | VPointer None => true
  | VSlice None | VSlice (Some []) => true
  | VMap None | VMap (Some []) => true
  | _ => false
  end.

(** [resolveKeyName]: the text of a map key. *)
Definition resolveKeyName (k : value) : string :=
  match k with
  | VString s => s
  | VInt n => Itoa n
  | _ => EmptyString
  end.

(** [strings.Compare] on bytes, as "less than or equal". *)
Fixpoint string_leb (a b : string) : bool :=
  match a, b with
  | EmptyString, _ => true
  | String _ _, EmptyString => false
  | String x a', String y b' =>
      if byte x <? byte y then true
      else if byte y <? byte x then false
      else string_leb a' b'
  end.

Section Sorting.
Context {A : Type}.

Fixpoint insert_sorted (x : string * A) (l : list (string * A)) : list (string * A) :=
  match l with
  | [] => [x]
  | y :: l' => if string_leb (fst x) (fst y) then x :: l else y :: insert_sorted x l'
  end.

Fixpoint sort_keys (l : list (string * A)) : list (string * A) :=
  match l with
  | [] => []
  | x :: l' => insert_sorted x (sort_keys l')
  end.

End Sorting.

(** Joining encoded parts with commas; the first failure wins. *)
Fixpoint join_parts (first : bool) (parts : list (string + goerror)) : string + goerror :=
  match parts with
  | [] => inl EmptyString
  | inr e :: _ => inr e
  | inl s :: parts' =>
      match join_parts false parts' with
      | inl r => inl ((if first then s else "," ++ s) ++ r)
      | inr e => inr e
      end
  end.

Definition bracket (l r : string) (body : string + goerror) : string + goerror :=
  match body with
  | inl s => inl (l ++ s ++ r)
  | inr e => inr e
  end.

Definition member (k : string) (x : string + goerror) : string + goerror :=
  match x with
  | inl s => inl (appendString k ++ ":" ++ s)
  | inr e => inr e
  end.

(** The fields of a struct, each as ["name":value]; a field tagged
    [omitempty] is left out when its value is empty.  [enc] is the encoder
    of the field values. *)
Fixpoint struct_parts (enc : gotype -> value -> string + goerror)
    (tfs : list (option field)) (vs : list value) {struct vs} : list (string + goerror) :=
  match tfs, vs with
  | Some f :: tfs', x :: vs' =>
      if f_omitEmpty f && isEmptyValue x then struct_parts enc tfs' vs'
      else member (f_name f) (enc (f_type f) x) :: struct_parts enc tfs' vs'
  | None :: tfs', _ :: vs' => struct_parts enc tfs' vs'
  | _, _ => []
  end.

(** [e.reflectValue]: the encoding of a value of type [t]. *)
Fixpoint encodeValue (t : gotype) (v : value) {struct v} : string + goerror :=
  match v with
  | VBool b => inl (if b then "true" else "false")
  | VInt n => inl (Itoa n)
  | VFloat64 f =>
      match float.encode f with
      | Some s => inl s
      | None => inr (UnsupportedValueError (float.special f))
      end
  | VString s => inl (appendString s)
  | VRawMessage None => inl "null"
  | VRawMessage (Some m) =>
      match compact m with
      | inl s => inl s
      | inr e => inr (MarshalerError t e "MarshalJSON")
      end
  | VInterface None => inl "null"
  | VInterface (Some (t', v')) => encodeValue t' v'
  | VPointer None => inl "null"
  | VPointer (Some v') =>
      match t with
      | TPointer e => encodeValue e v'
      | _ => inr (UnsupportedTypeError t)
      end
  | VSlice None => inl "null"
  | VSlice (Some vs) =>
      match t with
      | TSlice te =>
          bracket "[" "]" (join_parts true (List.map (encodeValue te) vs))
      | _ => inr (UnsupportedTypeError t)
      end
  | VMap None =>
      match t with
      | TMap kt _ =>
          if decoder.key_kind_ok kt then inl "null" else inr (UnsupportedTypeError t)
      | _ => inr (UnsupportedTypeError t)
      end
  | VMap (Some m) =>
      match t with
      | TMap kt te =>
          if negb (decoder.key_kind_ok kt) then inr (UnsupportedTypeError t)
          else
            let entries :=
              List.map (fun kv => (resolveKeyName (fst kv), encodeValue te (snd kv))) m in
            bracket "{" "}"
              (join_parts true
                 (List.map (fun kx => member (fst kx) (snd kx)) (sort_keys entries)))
      | _ => inr (UnsupportedTypeError t)
      end
  | VStruct vs =>
      match t with
      | TStruct _ _ fs =>
          bracket "{" "}" (join_parts true (struct_parts encodeValue (typeFields fs) vs))
      | _ => inr (UnsupportedTypeError t)
      end
  | VChan | VFunc => inr (UnsupportedTypeError t)
  end.

(** [json.Marshal(v)]. *)
Definition Marshal (v : iface) : string * error :=
  match v with
  | None => ("null", None)
  | Some (t, x) =>
      match encodeValue t x with
      | inl s => (s, None)
      | inr e => (EmptyString, Some e)
      end
  end.

End encoder.

(** The package as an implementation of the interface. *)
#[export] Instance encoding_json : JSON := {
  json_Marshal := encoder.Marshal;
  json_Unmarshal := decoder.Unmarshal
}.

(* ===================================================================== *)
(** * Sample processes and payloads *)
(* ===================================================================== *)

Module sample.
Import utf8.

(** A healthy standard output with nothing written yet. *)
Definition stdout : File := mkFile "/dev/stdout" "" None.

(** A standard output whose reader has gone. *)
Definition closed_pipe : File := mkFile "/dev/stdout" "" (Some (0%nat, "broken pipe")).

(** A process just started with the argument vector [argv]. *)
Definition started (argv : list string) : Process :=
  mkProcess None [] argv ∅ stdout [].

(** The payload of the end-to-end example. *)
Definition payload : string :=
  js "{'ArgsVersion':1,'Metadata':{'x':5},'Baggage':{'WorkspaceEvent':{'Event':{'name':'signup','data':{}}},'Actions':{}}}".

(** [type Meta struct { X int }] and a pointer to a value of it. *)
Definition Meta : gotype := TStruct "main" "Meta" [("X", "", TInt)].

Definition pointer_to (t : gotype) (v : value) : iface :=
  Some (TPointer t, VPointer (Some v)).

(** The [Args] record the example payload decodes to. *)
Definition decoded_payload : value :=
  VStruct
    [VInt 1; VRawMessage (Some (js "{'x':5}"));
     VStruct
       [VStruct
          [VStruct
             [VString "signup"; VMap (Some []); VMap None; VString ""; VInt 0;
              VString ""]];
        VMap (Some [])]].

(** The object [map[string]interface{}{"error": msg}] of [WriteError]. *)
Definition envelope (msg : string) : iface :=
  Some (TMap TString TInterface,
        VMap (Some [(VString "error", VInterface (Some (TString, VString msg)))])).

(** What [json.Unmarshal] leaves in the object behind the pointer. *)
Definition stored (dest : iface) : value :=
  match dest with
  | Some (_, VPointer (Some obj)) => obj
  | _ => zero Args
  end.

(** The state after [GetArgs] has gone past the length check: [args] points
    at a new object holding whatever the decoder left there. *)
Definition parsed_state (p : Process) (obj : value) : Process :=
  mkProcess (Some (length (heap p))) (heap p ++ [obj]) (os_Args p) (environ p)
            (os_Stdout p) (log_output p).

(** An implementation of the interface whose [Marshal] always fails. *)
Definition failing_Marshal : JSON := {|
  json_Marshal := fun _ => (EmptyString, Some (errorString "marshal failed"));
  json_Unmarshal := decoder.Unmarshal
|}.

End sample.
Import sample.

(* ===================================================================== *)
(** * Round trips: vocabulary *)
(* ===================================================================== *)

Module roundtrip.
Import utf8 strconv scanner syntax fields decoder encoder.

(** The JSON value a text denotes, as [json.Unmarshal] into an
    [interface{}] presents it. *)
Definition json_value (text : string) : iface * error :=
  json_Unmarshal text (pointer_to TInterface (VInterface None)).

(** The claim as the specification states it, for one payload and one
    destination type: when [GetMetadata] decodes the payload's metadata
    into a zero destination, encoding the destination gives a text that
    denotes the same JSON value as the metadata. *)
Definition reencodes_to_metadata (arg1 : string) (T : gotype) : Prop :=
  forall (p' : Process) (v : value),
    GetMetadata (pointer_to T (zero T)) (started ["action"; arg1])
    = Returns (pointer_to T v, None) p' ->
    exists (a : ptr) (obj : value) (text : string),
      args p' = Some a /\ heap p' !! a = Some obj
      /\ json_Marshal (Some (T, v)) = (text, None)
      /\ json_value text = json_value (Metadata obj).

(** [type Limits struct { X int `json:"x,omitempty"` }] and a payload
    whose metadata sets [x] to 0. *)
Definition Limits : gotype := TStruct "main" "Limits" [("X", "x,omitempty", TInt)].

Definition payload_zero : string :=
  js "{'ArgsVersion':1,'Metadata':{'x':0},'Baggage':{'WorkspaceEvent':{'Event':{'name':'signup','data':{}}},'Actions':{}}}".

(** *** Destination types covered by the round-trip theorem *)

Definition simple_char (c : ascii) : bool :=
  is_letter (byte c) || is_digit c || Ascii.eqb c "_".

Definition simple_name (s : string) : bool :=
  negb (String.eqb s "") && all_chars simple_char s.

Fixpoint distinct (l : list string) : bool :=
  match l with
  | [] => true
  | x :: l' => negb (existsb (String.eqb x) l') && distinct l'
  end.

(** A field the codec keeps, under a name of letters, digits and
    underscores, without [omitempty]. *)
Definition kept (o : option field) : bool :=
  match o with
  | Some f => simple_name (f_name f) && negb (f_omitEmpty f)
  | None => false
  end.

Definition name_of (o : option field) : string :=
  match o with
  | Some f => f_name f
  | None => EmptyString
  end.

(** Booleans, integers, pointers, slices and structs all of whose fields
    are [kept] under distinct names. *)
Fixpoint plain (t : gotype) : bool :=
  match t with
  | TBool | TInt | TInt64 | TUint => true
  | TPointer e | TSlice e => plain e
  | TStruct _ _ fs =>
      forallb kept (typeFields fs)
      && distinct (List.map name_of (typeFields fs))
      && (fix all (fs : list (string * string * gotype)) : bool :=
            match fs with
            | [] => true
            | f :: fs' => plain (snd f) && all fs'
            end) fs
  | _ => false
  end.

(** How deep the encoding of a value of the type nests arrays and
    objects. *)
Fixpoint nesting (t : gotype) : Z :=
  match t with
  | TPointer e => nesting e
  | TSlice e => 1 + nesting e
  | TStruct _ _ fs =>
      1 + (fix deepest (fs : list (string * string * gotype)) : Z :=
             match fs with
             | [] => 0
             | f :: fs' => Z.max (nesting (snd f)) (deepest fs')
             end) fs
  | _ => 0
  end.

(** Neither a nil pointer nor a nil slice. *)
Definition nonnull (v : value) : Prop :=
  match v with
  | VPointer None | VSlice None => False
  | _ => True
  end.

(** The values of a plain type that an error-free decoding produces: of
    the right shape, integers within the range of their type, and no
    pointer to a nil pointer or to a nil slice (a [null] in the input
    leaves the outermost pointer nil). *)
Fixpoint canon (t : gotype) (v : value) {struct t} : Prop :=
  match t, v with
  | TBool, VBool _ => True
  | TInt, VInt n | TInt64, VInt n => - 2 ^ 63 <= n < 2 ^ 63
  | TUint, VInt n => 0 <= n < 2 ^ 64
  | TPointer e, VPointer None => True
  | TPointer e, VPointer (Some x) => canon e x /\ nonnull x
  | TSlice e, VSlice None => True
  | TSlice e, VSlice (Some l) => Forall (canon e) l
  | TStruct _ _ fs, VStruct vs =>
      (fix each (fs : list (string * string * gotype)) (vs : list value) : Prop :=
         match fs, vs with
         | [], [] => True
         | f :: fs', x :: vs' => canon (snd f) x /\ each fs' vs'
         | _, _ => False
         end) fs vs
  | _, _ => False
  end.

(** The text the encoder writes for a value, and the syntax tree of that
    text. *)
Definition text (t : gotype) (v : value) : string :=
  match encodeValue t v with
  | inl s => s
  | inr _ => EmptyString
  end.

Fixpoint member_trees (tr : gotype -> value -> jtree)
    (tfs : list (option field)) (vs : list value) {struct vs} : list (string * jtree) :=
  match tfs, vs with
  | Some f :: tfs', x :: vs' =>
      (appendString (f_name f), tr (f_type f) x) :: member_trees tr tfs' vs'
  | None :: tfs', _ :: vs' => member_trees tr tfs' vs'
  | _, _ => []
  end.

Fixpoint tree (t : gotype) (v : value) {struct v} : jtree :=
  match v with
  | VPointer (Some x) =>
      match t with
      | TPointer e => tree e x
      | _ => Lit EmptyString
      end
  | VSlice (Some l) =>
      match t with
      | TSlice e => Arr (text t v) (List.map (tree e) l)
      | _ => Lit EmptyString
      end
  | VStruct vs =>
      match t with
      | TStruct _ _ fs =>
          Obj (text t v) (member_trees tree (typeFields fs) vs)
      | _ => Lit EmptyString
      end
  | _ => Lit (text t v)
  end.

(** The members of an encoded struct, each as ["name":value]. *)
Fixpoint member_texts (tx : gotype -> value -> string)
    (tfs : list (option field)) (vs : list value) {struct vs} : list string :=
  match tfs, vs with
  | Some f :: tfs', x :: vs' =>
      (appendString (f_name f) ++ ":" ++ tx (f_type f) x) :: member_texts tx tfs' vs'
  | None :: tfs', _ :: vs' => member_texts tx tfs' vs'
  | _, _ => []
  end.

(** The parts of an array or an object, separated by commas. *)
Fixpoint items (first : bool) (l : list string) : string :=
  match l with
  | [] => EmptyString
  | s :: l' => (if first then s else "," ++ s) ++ items false l'
  end.

(** [type Signals struct { X int; Done chan bool }]: the decoder fills
    [X] and leaves the channel alone; the encoder has no encoding for a
    channel. *)
Definition Signals : gotype :=
  TStruct "main" "Signals" [("X", "", TInt); ("Done", "", TChan TBool)].

(** *** Vocabulary of the round-trip proof *)

(** An error saved earlier stays the error of the call. *)
Definition sticky (r : value * error) (saved : error) : Prop :=
  forall e, saved = Some e -> snd r = Some e.

Definition keeps (j : jtree) : Prop :=
  forall ctx cs t v e, snd (decodeValue j ctx cs t v (Some e)) = Some e.

(** Decoding [j] into a canonical value of a plain type without error
    leaves a canonical value, and one that is not nil unless [j] is
    [null]. *)
Definition sound (j : jtree) : Prop :=
  forall t v0 ctx v,
    plain t = true -> canon t v0 ->
    decodeValue j ctx true t v0 None = (v, None) ->
    canon t v /\ (is_null j = false -> nonnull v).

(** The decimal digit [n], and the number of digits that surely suffice
    for [n] in [strconv.Itoa]. *)
Definition digit (n : Z) : ascii := chr (48 + n).

Definition fuel_of (n : Z) : nat := (Z.to_nat (Z.log2 n) + 1)%nat.

Fixpoint all_digits (s : string) : bool :=
  match s with
  | EmptyString => true
  | String c s' => is_digit c && all_digits s'
  end.

(** A number text: an optional minus sign, then 0 or a digit from 1 to 9
    followed by digits. *)
Definition number_text (s : string) : Prop :=
  exists neg d ds,
    s = (if neg : bool then String "-" (String d ds) else String d ds)
    /\ ((d = "0"%char /\ ds = "") \/ (is19 d = true /\ all_digits ds = true)).

(** A kept field and the value stored in it, related by [Q]. *)
Definition aligned (Q : gotype -> value -> Prop) (o : option field) (x : value) : Prop :=
  exists f, o = Some f /\ kept (Some f) = true /\ Q (f_type f) x.

(** The tree of [x] decodes to [x] in a zero destination. *)
Definition decodes (t : gotype) (x : value) : Prop :=
  forall ctx, decodeValue (tree t x) ctx true t (zero t) None = (x, None).

Definition zero_of (o : option field) : value :=
  match o with
  | Some f => zero (f_type f)
  | None => VBool false
  end.

(** The bytes [w] appended to the text of every open composite value. *)
Definition add_raws (w : string) (fs : list frame) : list frame :=
  List.map (fun f => mkFrame (raw f ++ w) (key f) (pending f) (elems f) (members f)) fs.

(** What may follow a value: inside a composite value a comma or a
    closing bracket, at the top level the end of the input. *)
Definition delim (c : ascii) : bool :=
  Ascii.eqb c "," || Ascii.eqb c "]" || Ascii.eqb c "}".

Definition follows (ps : list pstate) (rest : string) : Prop :=
  match ps with
  | [] => rest = ""
  | _ :: _ => exists d rest', rest = String d rest' /\ delim d = true
  end.

(** The scanner states in which a value may begin. *)
Definition begins (f : stepfn) : Prop :=
  f = stateBeginValue \/ f = stateBeginValueOrEmpty.

(** The scanner reads [w] as one literal. *)
Definition scans_literal (w : string) : Prop :=
  forall f ps n fs tp rest,
    begins f -> follows ps rest ->
    exists n',
      run (mk f ps None false n) (mkBuilder None fs tp) (w ++ rest)
      = run (mk stateEndValue ps None false n')
            (deliver (Lit w) (mkBuilder None (add_raws w fs) tp)) rest.

(** The scanner reads the text of [v] as the tree of [v]. *)
Definition scans (t : gotype) (v : value) : Prop :=
  forall f ps n fs tp rest,
    begins f ->
    Z.of_nat (length ps) + nesting t <= maxNestingDepth ->
    follows ps rest ->
    exists n',
      run (mk f ps None false n) (mkBuilder None fs tp) (text t v ++ rest)
      = run (mk stateEndValue ps None false n')
            (deliver (tree t v) (mkBuilder None (add_raws (text t v) fs) tp)) rest.

Definition fits (D : Z) (t : gotype) (x : value) : Prop :=
  scans t x /\ nesting t <= D.

End roundtrip.
Import roundtrip.

(* ===================================================================== *)
(** * Outcomes and frames: vocabulary *)
(* ===================================================================== *)

Module observations.
Import utf8 fields encoder.

(** The process as a call leaves it, however the call ends. *)
Definition final {A : Type} (o : outcome A) : Process :=
  match o with
  | Returns _ p => p
  | Exits _ p => p
  | Panics _ p => p
  end.

(** The package variable [args], when set, points at an object. *)
Definition linked (p : Process) : Prop :=
  forall a, args p = Some a -> is_Some (heap p !! a).

(** The operating system's side of two process states is the same. *)
Definition same_world (p p' : Process) : Prop :=
  os_Args p' = os_Args p /\ environ p' = environ p
  /\ os_Stdout p' = os_Stdout p /\ log_output p' = log_output p.

(** The package's side (the cache) and its inputs are the same. *)
Definition same_cache (p p' : Process) : Prop :=
  args p' = args p /\ heap p' = heap p
  /\ os_Args p' = os_Args p /\ environ p' = environ p.

(** What [WriteResult] hands to [fmt.Fprint] for [i], if anything. *)
Definition output_of {json : JSON} (i : iface) (byt : string) : Prop :=
  match i with
  | None => byt = "{}"
  | Some _ => json_Marshal i = (byt, None)
  end.

(** Every byte is below 128. *)
Definition ascii_only (s : string) : bool := all_chars (fun c => byte c <? 128) s.

(** What [appendString] writes for the one byte [c]. *)
Definition escaped (c : ascii) : string := appendString_body 0 false (String c "").

(** The text [WriteError] writes for the message [m]. *)
Definition envelope_text (m : string) : string :=
  js "{'error':" ++ appendString m ++ "}".

End observations.
Import observations.

(* ===================================================================== *)
(** * Properties *)
(* ===================================================================== *)

Import utf8.

(** ** Running the process monad *)

Lemma bind_Returns {A B} (m : M A) (k : A -> M B) (p p' : Process) (a : A) :
  m p = Returns a p' -> (m ≫= k) p = k a p'.
Proof. intros H. unfold mbind, M_bind. now rewrite H. Qed.

Lemma append_empty (s : string) : s ++ "" = s.
Proof.
  induction s as [|c s IH]; [reflexivity|].
  change (String c (s ++ "") = String c s). now rewrite IH.
Qed.

Lemma length_append (a b : string) :
  String.length (a ++ b) = (String.length a + String.length b)%nat.
Proof.
  induction a as [|c a IH]; [reflexivity|].
  change (S (String.length (a ++ b)) = S (String.length a + String.length b)).
  now rewrite IH.
Qed.

(** The texts [fmt.Errorf] builds for the package's five format strings. *)
Lemma Errorf_no_arguments :
  fmt_Errorf "no arguments present" [] = errorString "no arguments present".
Proof. reflexivity. Qed.

Lemma Errorf_secret (str : string) :
  fmt_Errorf "secret not found: %s" [AString str]
  = errorString ("secret not found: " ++ str).
Proof. unfold fmt_Errorf. simpl. rewrite append_empty. reflexivity. Qed.

Lemma Errorf_parse (e : goerror) :
  fmt_Errorf "unable to parse arguments: %s" [AError (Some e)]
  = errorString ("unable to parse arguments: " ++ Error e).
Proof. unfold fmt_Errorf. simpl. rewrite append_empty. reflexivity. Qed.

Lemma Errorf_wrap_output (e : goerror) :
  fmt_Errorf "error writing output: %w" [AError (Some e)]
  = wrapError ("error writing output: " ++ Error e) e.
Proof. unfold fmt_Errorf. simpl. rewrite append_empty. reflexivity. Qed.

Lemma Errorf_wrap_marshal (e : goerror) :
  fmt_Errorf "unable to marshal error: %w" [AError (Some e)]
  = wrapError ("unable to marshal error: " ++ Error e) e.
Proof. unfold fmt_Errorf. simpl. rewrite append_empty. reflexivity. Qed.

Lemma Errorf_wrap_write (e : goerror) :
  fmt_Errorf "unable to write error: %w" [AError (Some e)]
  = wrapError ("unable to write error: " ++ Error e) e.
Proof. unfold fmt_Errorf. simpl. rewrite append_empty. reflexivity. Qed.

(** ** Standard output *)

Lemma File_Write_accepts (f : File) (b : string) :
  accepts f (String.length b) ->
  File_Write f b = ((String.length b, None), appended f b).
Proof.
  unfold accepts, File_Write, appended.
  destruct (failure f) as [[room errno]|]; [|reflexivity].
  intros H. apply Nat.leb_le in H. now rewrite H.
Qed.

Lemma File_Write_rejects (f : File) (b : string) (room : nat) (errno : string) :
  failure f = Some (room, errno) -> (room < String.length b)%nat ->
  File_Write f b
  = ((room, Some (PathError "write" (Name f) errno)),
     mkFile (Name f) (written f ++ take_bytes room b) (Some (0%nat, errno))).
Proof.
  intros Hf Hlt. unfold File_Write. rewrite Hf.
  apply Nat.leb_gt in Hlt. now rewrite Hlt.
Qed.

Lemma Fprint_accepts (p : Process) (b : string) :
  accepts (os_Stdout p) (String.length b) ->
  fmt_Fprint_Stdout b p
  = Returns (String.length b, None) (set_os_Stdout (appended (os_Stdout p) b) p).
Proof.
  intros H. unfold fmt_Fprint_Stdout. now rewrite (File_Write_accepts _ _ H).
Qed.

Lemma Fprint_rejects (p : Process) (b : string) (room : nat) (errno : string) :
  failure (os_Stdout p) = Some (room, errno) -> (room < String.length b)%nat ->
  fmt_Fprint_Stdout b p
  = Returns (room, Some (PathError "write" (Name (os_Stdout p)) errno))
      (set_os_Stdout
         (mkFile (Name (os_Stdout p)) (written (os_Stdout p) ++ take_bytes room b)
                 (Some (0%nat, errno))) p).
Proof.
  intros Hf Hlt. unfold fmt_Fprint_Stdout.
  now rewrite (File_Write_rejects _ _ _ _ Hf Hlt).
Qed.

(** ** GetArgs *)

Section GetArgs_facts.
Context {json : JSON}.

(** [GetArgs] on a process without a cached record and with a first
    positional argument. *)
Lemma GetArgs_uncached (p : Process) (arg1 : string) :
  args p = None -> os_Args p !! 1%nat = Some arg1 ->
  GetArgs p =
    let r := json_Unmarshal arg1 (pointer_to Args (zero Args)) in
    Returns
      match snd r with
      | Some e => (None, Some (errorString ("unable to parse arguments: " ++ Error e)))
      | None => (Some (length (heap p)), None)
      end
      (parsed_state p (stored (fst r))).
Proof.
  intros Hargs Harg.
  assert (Hlen : (length (os_Args p) <? 2)%nat = false).
  { apply Nat.ltb_ge. apply lookup_lt_Some in Harg. lia. }
  cbv beta iota delta [GetArgs mbind M_bind get new modify Unmarshal_at load store mret M_ret].
  rewrite Hargs, Hlen. rewrite Harg.
  unfold set_args, set_heap; cbn [heap args os_Args environ os_Stdout log_output].
  rewrite list_lookup_middle by reflexivity.
  unfold pointer_to.
  destruct (json_Unmarshal arg1 (Some (TPointer Args, VPointer (Some (zero Args)))))
    as [dest err] eqn:Hun.
  assert (Hstore : forall obj,
            <[length (heap p) := obj]> (heap p ++ [zero Args])%list
            = (heap p ++ [obj])%list).
  { intros obj. rewrite insert_app_r_alt by lia. now rewrite Nat.sub_diag. }
  cbn [fst snd].
  destruct dest as [[t [ | | | | | | [obj|] | | | | | ]]|];
    cbn [stored heap args os_Args environ os_Stdout log_output];
    try rewrite Hstore;
    destruct err as [e|]; try rewrite Errorf_parse; reflexivity.
Qed.

(** A call that finds fewer than two arguments changes nothing. *)
Lemma GetArgs_missing (p : Process) :
  args p = None -> (length (os_Args p) < 2)%nat ->
  GetArgs p = Returns (None, Some (errorString "no arguments present")) p.
Proof.
  intros Hargs Hlen. apply Nat.ltb_lt in Hlen.
  unfold GetArgs, mbind, M_bind, get, mret, M_ret.
  now rewrite Hargs, Hlen.
Qed.

Lemma GetArgs_cached (p : Process) (a : ptr) :
  args p = Some a -> GetArgs p = Returns (Some a, None) p.
Proof.
  intros Hargs. unfold GetArgs, mbind, M_bind, get, mret, M_ret. now rewrite Hargs.
Qed.

End GetArgs_facts.

(** C2.  When a record is already cached, [GetArgs] returns the cached
    pointer with a nil error and leaves the process as it was; it does not
    look at [os.Args]: a call, a change of [os.Args] to anything, and a
    second call return the same pointer twice, and the heap behind it is
    untouched. *)
Theorem GetArgs_returns_cached_record {json : JSON}
    (p : Process) (a : ptr) (argv' : list string) :
  args p = Some a ->
  GetArgs p = Returns (Some a, None) p
  /\ (r1 ← GetArgs; modify (set_os_Args argv');; r2 ← GetArgs; mret (r1, r2)) p
     = Returns ((Some a, None), (Some a, None)) (set_os_Args argv' p).
Proof.
  intros Hargs. split; [now apply GetArgs_cached|].
  rewrite (bind_Returns _ _ _ _ _ (GetArgs_cached p a Hargs)).
  unfold modify at 1. unfold mbind at 1, M_bind at 1.
  rewrite (bind_Returns _ _ _ _ _ (GetArgs_cached (set_os_Args argv' p) a Hargs)).
  reflexivity.
Qed.

Lemma GetArgs_returns_cached_record_witness :
  let p := mkProcess (Some 0%nat) [decoded_payload] ["action"; payload] ∅ stdout [] in
  GetArgs p = Returns (Some 0%nat, None) p
  /\ (r1 ← GetArgs; modify (set_os_Args ["action"; "not json"]);; r2 ← GetArgs; mret (r1, r2)) p
     = Returns ((Some 0%nat, None), (Some 0%nat, None))
         (set_os_Args ["action"; "not json"] p).
Proof.
  exact (GetArgs_returns_cached_record
           (mkProcess (Some 0%nat) [decoded_payload] ["action"; payload] ∅ stdout [])
           0%nat ["action"; "not json"] eq_refl).
Defined.

(** C3.  Without a cached record: with fewer than two entries in
    [os.Args], [GetArgs] returns a nil record and the error "no arguments
    present"; with a first positional argument that [json.Unmarshal]
    rejects with error [e], it returns a nil record and an error whose
    text is "unable to parse arguments: " followed by the text of [e]. *)
Theorem GetArgs_missing_or_malformed {json : JSON} (p : Process) :
  args p = None ->
  ((length (os_Args p) < 2)%nat ->
   GetArgs p = Returns (None, Some (errorString "no arguments present")) p)
  /\ (forall (arg1 : string) (e : goerror),
        os_Args p !! 1%nat = Some arg1 ->
        snd (json_Unmarshal arg1 (pointer_to Args (zero Args))) = Some e ->
        exists p',
          GetArgs p
          = Returns (None, Some (errorString ("unable to parse arguments: " ++ Error e))) p').
Proof.
  intros Hargs. split; [now apply GetArgs_missing|].
  intros arg1 e Harg He. eexists.
  rewrite (GetArgs_uncached p arg1 Hargs Harg). cbv zeta. rewrite He. reflexivity.
Qed.

Lemma GetArgs_missing_or_malformed_witness :
  GetArgs (started ["action"])
  = Returns (None, Some (errorString "no arguments present")) (started ["action"])
  /\ exists p',
       GetArgs (started ["action"; "not json"])
       = Returns
           (None,
            Some (errorString
                    ("unable to parse arguments: "
                     ++ Error (SyntaxError
                                 "invalid character 'o' in literal null (expecting 'u')" 2))))
           p'.
Proof.
  split.
  - apply (proj1 (GetArgs_missing_or_malformed (started ["action"]) eq_refl)).
    simpl. lia.
  - apply (proj2 (GetArgs_missing_or_malformed (started ["action"; "not json"]) eq_refl)
             "not json").
    + reflexivity.
    + vm_compute. reflexivity.
Defined.

(** A rejected argument still leaves [args] set: [GetArgs] assigns the
    package variable before it looks at the error of [json.Unmarshal]. *)
Lemma GetArgs_rejected_argument_stays_cached {json : JSON}
    (p : Process) (arg1 : string) (e : goerror) :
  args p = None -> os_Args p !! 1%nat = Some arg1 ->
  snd (json_Unmarshal arg1 (pointer_to Args (zero Args))) = Some e ->
  exists p',
    GetArgs p
    = Returns (None, Some (errorString ("unable to parse arguments: " ++ Error e))) p'
    /\ args p' = Some (length (heap p))
    /\ forall argv', GetArgs (set_os_Args argv' p')
                     = Returns (Some (length (heap p)), None) (set_os_Args argv' p').
Proof.
  intros Hargs Harg He. eexists. split; [|split].
  - rewrite (GetArgs_uncached p arg1 Hargs Harg). cbv zeta. rewrite He. reflexivity.
  - reflexivity.
  - intros argv'. now apply GetArgs_cached.
Qed.

(** C1 (the code departs from the claim).  A process started with the
    malformed argument [{]: [GetArgs] fails with the parse error, yet
    [args] now points at a zero [Args] record; after [os.Args] is replaced
    by a valid payload, [GetArgs] returns that zero record with a nil
    error and parses nothing, whereas a process started with the valid
    payload decodes it.  A call that fails for lack of arguments leaves
    the cache unset. *)
Theorem GetArgs_failed_parse_is_cached :
  let p := started ["action"; "{"] in
  let p' := parsed_state p (zero Args) in
  let retry := set_os_Args ["action"; payload] p' in
  GetArgs p
  = Returns (None, Some (errorString
                           "unable to parse arguments: unexpected end of JSON input")) p'
  /\ args p' = Some 0%nat
  /\ heap p' !! 0%nat = Some (zero Args)
  /\ GetArgs retry = Returns (Some 0%nat, None) retry
  /\ GetArgs (started ["action"; payload])
     = Returns (Some 0%nat, None) (parsed_state (started ["action"; payload]) decoded_payload)
  /\ GetArgs (started ["action"])
     = Returns (None, Some (errorString "no arguments present")) (started ["action"]).
Proof. vm_compute. repeat split; reflexivity. Qed.

(** ** GetSecret *)

(** C5.  [GetSecret name] fails with "secret not found: name" when the
    variable is not in the environment and, with the same result, when it
    is set to the empty string; when it is set to a non-empty string it
    returns that string and a nil error.  The process is left unchanged. *)
Theorem GetSecret_absent_empty_or_value (p : Process) (name : string) :
  (environ p !! name = None ->
   GetSecret name p
   = Returns ("", Some (errorString ("secret not found: " ++ name))) p)
  /\ (environ p !! name = Some "" ->
      GetSecret name p
      = Returns ("", Some (errorString ("secret not found: " ++ name))) p)
  /\ (forall v : string,
        environ p !! name = Some v -> v <> "" ->
        GetSecret name p = Returns (v, None) p).
Proof.
  unfold GetSecret, Getenv, mbind, M_bind, mret, M_ret.
  repeat split.
  - intros H. rewrite H. cbn [default from_option id String.eqb negb]. now rewrite Errorf_secret.
  - intros H. rewrite H. cbn [default from_option id String.eqb negb]. now rewrite Errorf_secret.
  - intros v H Hne. rewrite H. cbn [default from_option id].
    destruct (String.eqb v "") eqn:E; [|reflexivity].
    apply String.eqb_eq in E. contradiction.
Qed.

Lemma GetSecret_absent_empty_or_value_witness :
  let env : gmap string string := <["BAR" := ""]> (<["BAZ" := "s3cret"]> ∅) in
  let p := mkProcess None [] ["action"] env stdout [] in
  GetSecret "FOO" p = Returns ("", Some (errorString "secret not found: FOO")) p
  /\ GetSecret "BAR" p = Returns ("", Some (errorString "secret not found: BAR")) p
  /\ GetSecret "BAZ" p = Returns ("s3cret", None) p.
Proof.
  set (env := <["BAR" := ""]> (<["BAZ" := "s3cret"]> ∅) : gmap string string).
  set (p := mkProcess None [] ["action"] env stdout []).
  split; [|split].
  - apply (proj1 (GetSecret_absent_empty_or_value p "FOO")). vm_compute. reflexivity.
  - apply (proj1 (proj2 (GetSecret_absent_empty_or_value p "BAR"))). vm_compute. reflexivity.
  - apply (proj2 (proj2 (GetSecret_absent_empty_or_value p "BAZ")) "s3cret").
    + vm_compute. reflexivity.
    + discriminate.
Defined.

(** ** WriteResult and WriteError *)

Section Emitter_facts.
Context {json : JSON}.

Lemma WriteResult_nil (p : Process) :
  WriteResult None p
  = match fmt_Fprint_Stdout "{}" p with
    | Returns (_, err) p' => Returns err p'
    | Exits c p' => Exits c p'
    | Panics msg p' => Panics msg p'
    end.
Proof.
  unfold WriteResult, mbind, M_bind, mret, M_ret.
  destruct (fmt_Fprint_Stdout "{}" p) as [[n err] p'| |]; reflexivity.
Qed.

Lemma WriteResult_value (p : Process) (t : gotype) (v : value) :
  WriteResult (Some (t, v)) p
  = match json_Marshal (Some (t, v)) with
    | (_, Some e) => Returns (Some (wrapError ("error writing output: " ++ Error e) e)) p
    | (byt, None) =>
        match fmt_Fprint_Stdout byt p with
        | Returns (_, err) p' => Returns err p'
        | Exits c p' => Exits c p'
        | Panics msg p' => Panics msg p'
        end
    end.
Proof.
  unfold WriteResult, mbind, M_bind, mret, M_ret.
  destruct (json_Marshal (Some (t, v))) as [byt [e|]].
  - now rewrite Errorf_wrap_output.
  - destruct (fmt_Fprint_Stdout byt p) as [[n err] p'| |]; reflexivity.
Qed.

Lemma WriteError_value (p : Process) (e : goerror) :
  WriteError (Some e) p
  = match json_Marshal (envelope (Error e)) with
    | (_, Some m) =>
        Exits 1 (set_log_output
                   (log_output p ++ ["unable to marshal error: " ++ Error m]) p)
    | (byt, None) =>
        match fmt_Fprint_Stdout byt p with
        | Returns (_, Some w) p' =>
            Exits 1 (set_log_output
                       (log_output p' ++ ["unable to write error: " ++ Error w]) p')
        | Returns (_, None) p' => Returns tt p'
        | Exits c p' => Exits c p'
        | Panics msg p' => Panics msg p'
        end
    end.
Proof.
  unfold WriteError, envelope, log_Fatal, modify, Exit, mbind, M_bind, mret, M_ret.
  destruct (json_Marshal _) as [byt [m|]].
  - now rewrite Errorf_wrap_marshal.
  - destruct (fmt_Fprint_Stdout byt p) as [[n [w|]] p'| |]; try reflexivity.
    now rewrite Errorf_wrap_write.
Qed.

End Emitter_facts.

(** The encoder never fails on the object [WriteError] builds, and this is
    its output. *)
Lemma Marshal_envelope (msg : string) :
  json_Marshal (envelope msg)
  = (js "{'error':" ++ encoder.appendString msg ++ "}", None).
Proof.
  unfold envelope. cbn -[encoder.appendString String.append js].
  rewrite append_empty. reflexivity.
Qed.

(** C6.  [WriteResult] given nil writes exactly the two bytes [{}] to
    standard output; given a value that [json.Marshal] encodes as [byt],
    it writes exactly [byt], nothing before and nothing after.  In both
    cases it returns a nil error (the device taking the bytes). *)
Theorem WriteResult_writes_encoding {json : JSON} (p : Process) :
  (accepts (os_Stdout p) 2 ->
   WriteResult None p
   = Returns None (set_os_Stdout (appended (os_Stdout p) "{}") p))
  /\ (forall (t : gotype) (v : value) (byt : string),
        json_Marshal (Some (t, v)) = (byt, None) ->
        accepts (os_Stdout p) (String.length byt) ->
        WriteResult (Some (t, v)) p
        = Returns None (set_os_Stdout (appended (os_Stdout p) byt) p)
        /\ written (appended (os_Stdout p) byt) = written (os_Stdout p) ++ byt).
Proof.
  split.
  - intros Hok. rewrite WriteResult_nil.
    now rewrite (Fprint_accepts p "{}" Hok).
  - intros t v byt Hm Hok. split; [|reflexivity].
    rewrite WriteResult_value, Hm. now rewrite (Fprint_accepts p byt Hok).
Qed.

Lemma WriteResult_writes_encoding_witness :
  let a1 := Some (TMap TString TInterface,
                  VMap (Some [(VString "a", VInterface (Some (TInt, VInt 1)))])) in
  WriteResult None (started ["action"])
  = Returns None (set_os_Stdout (mkFile "/dev/stdout" "{}" None) (started ["action"]))
  /\ WriteResult a1 (started ["action"])
     = Returns None
         (set_os_Stdout (mkFile "/dev/stdout" (js "{'a':1}") None) (started ["action"])).
Proof.
  split.
  - apply (proj1 (WriteResult_writes_encoding (started ["action"]))). exact I.
  - apply (proj2 (WriteResult_writes_encoding (started ["action"]))
             (TMap TString TInterface)
             (VMap (Some [(VString "a", VInterface (Some (TInt, VInt 1)))]))
             (js "{'a':1}")).
    + vm_compute. reflexivity.
    + exact I.
Defined.

(** C7.  For an error with message [m], [WriteError] writes to standard
    output exactly the encoding of the object with the single key "error"
    and the string [m]: the bytes [{"error":], the quoted [m], and [}].
    For the message "secret not found: FOO" these are
    [{"error":"secret not found: FOO"}]. *)
Theorem WriteError_writes_envelope (p : Process) (e : goerror) :
  let text := js "{'error':" ++ encoder.appendString (Error e) ++ "}" in
  accepts (os_Stdout p) (String.length text) ->
  json_Marshal (envelope (Error e)) = (text, None)
  /\ WriteError (Some e) p = Returns tt (set_os_Stdout (appended (os_Stdout p) text) p)
  /\ written (appended (os_Stdout p) text) = written (os_Stdout p) ++ text.
Proof.
  intros text Hok. split; [apply Marshal_envelope|]. split; [|reflexivity].
  rewrite WriteError_value, Marshal_envelope.
  fold text. now rewrite (Fprint_accepts p text Hok).
Qed.

Lemma WriteError_writes_envelope_witness :
  WriteError (Some (errorString "secret not found: FOO")) (started ["action"])
  = Returns tt
      (set_os_Stdout (mkFile "/dev/stdout" (js "{'error':'secret not found: FOO'}") None)
                     (started ["action"])).
Proof.
  exact (proj1 (proj2 (WriteError_writes_envelope (started ["action"])
                         (errorString "secret not found: FOO") I))).
Defined.

(** C8.  When [json.Marshal] fails with [e], [WriteResult] returns the
    error "error writing output: ..." wrapping [e] and the process goes
    on unchanged; when the write to standard output fails, [WriteResult]
    returns the write error and the process goes on.  On the same two
    failures [WriteError] does not return: it hands the failure to the
    logger and the process exits with status 1. *)
Theorem WriteResult_returns_WriteError_exits {json : JSON}
    (p : Process) (room : nat) (errno : string) :
  failure (os_Stdout p) = Some (room, errno) ->
  let werr := PathError "write" (Name (os_Stdout p)) errno in
  let short (b : string) :=
    set_os_Stdout (mkFile (Name (os_Stdout p)) (written (os_Stdout p) ++ take_bytes room b)
                          (Some (0%nat, errno))) p in
  (* WriteResult: serialization fails *)
  (forall (t : gotype) (v : value) (byt : string) (e : goerror),
     json_Marshal (Some (t, v)) = (byt, Some e) ->
     WriteResult (Some (t, v)) p
     = Returns (Some (wrapError ("error writing output: " ++ Error e) e)) p)
  (* WriteResult: the write fails *)
  /\ (forall (t : gotype) (v : value) (byt : string),
        json_Marshal (Some (t, v)) = (byt, None) -> (room < String.length byt)%nat ->
        WriteResult (Some (t, v)) p = Returns (Some werr) (short byt))
  /\ ((room < 2)%nat -> WriteResult None p = Returns (Some werr) (short "{}"))
  (* WriteError: serialization fails *)
  /\ (forall (err : goerror) (byt : string) (e : goerror),
        json_Marshal (envelope (Error err)) = (byt, Some e) ->
        WriteError (Some err) p
        = Exits 1 (set_log_output
                     (log_output p ++ ["unable to marshal error: " ++ Error e]) p))
  (* WriteError: the write fails *)
  /\ (forall (err : goerror) (byt : string),
        json_Marshal (envelope (Error err)) = (byt, None) -> (room < String.length byt)%nat ->
        WriteError (Some err) p
        = Exits 1 (set_log_output
                     (log_output p ++ ["unable to write error: " ++ Error werr])
                     (short byt))).
Proof.
  intros Hf werr short. repeat split.
  - intros t v byt e Hm. now rewrite WriteResult_value, Hm.
  - intros t v byt Hm Hlt. rewrite WriteResult_value, Hm.
    now rewrite (Fprint_rejects p byt room errno Hf Hlt).
  - intros Hlt. rewrite WriteResult_nil.
    now rewrite (Fprint_rejects p "{}" room errno Hf Hlt).
  - intros err byt e Hm. now rewrite WriteError_value, Hm.
  - intros err byt Hm Hlt. rewrite WriteError_value, Hm.
    now rewrite (Fprint_rejects p byt room errno Hf Hlt).
Qed.

Lemma WriteResult_returns_WriteError_exits_witness :
  let p := mkProcess None [] ["action"] ∅ closed_pipe [] in
  let boom := errorString "boom" in
  WriteResult (Some (TChan TInt, VChan)) p
  = Returns (Some (wrapError "error writing output: json: unsupported type: chan int"
                             (UnsupportedTypeError (TChan TInt)))) p
  /\ WriteResult (Some (TInt, VInt 7)) p
     = Returns (Some (PathError "write" "/dev/stdout" "broken pipe")) p
  /\ WriteResult None p
     = Returns (Some (PathError "write" "/dev/stdout" "broken pipe")) p
  /\ @WriteError failing_Marshal (Some boom) p
     = Exits 1 (set_log_output ["unable to marshal error: marshal failed"] p)
  /\ WriteError (Some boom) p
     = Exits 1 (set_log_output
                  ["unable to write error: write /dev/stdout: broken pipe"] p).
Proof.
  set (p := mkProcess None [] ["action"] ∅ closed_pipe []).
  pose proof (@WriteResult_returns_WriteError_exits encoding_json p 0%nat "broken pipe"
                eq_refl) as H.
  pose proof (@WriteResult_returns_WriteError_exits failing_Marshal p 0%nat "broken pipe"
                eq_refl) as F.
  cbv zeta in H, F.
  destruct H as (H1 & H2 & H3 & _ & H5). destruct F as (_ & _ & _ & F4 & _).
  split; [|split; [|split; [|split]]].
  - exact (H1 (TChan TInt) VChan "" (UnsupportedTypeError (TChan TInt)) eq_refl).
  - exact (H2 TInt (VInt 7) "7" eq_refl (Nat.lt_0_succ 0)).
  - exact (H3 (Nat.lt_0_succ 1)).
  - exact (F4 (errorString "boom") "" (errorString "marshal failed") eq_refl).
  - exact (H5 (errorString "boom") (js "{'error':'boom'}") eq_refl (Nat.lt_0_succ 15)).
Defined.

(** C10.  [WriteResult] takes the branch that writes the literal [{}]
    only for the nil interface, and there it does not ask the encoder:
    whatever [json.Marshal] would do, a nil argument writes [{}].  An
    interface that is not nil is encoded, and what is written is the
    encoder's output; for a nil pointer, a nil map and a nil slice held in
    an interface the encoder gives [null], so [null] is written, not
    [{}]. *)
Theorem WriteResult_typed_nil_writes_null (p : Process) (e k : gotype) :
  accepts (os_Stdout p) 4 ->
  decoder.key_kind_ok k = true ->
  let wrote (s : string) := Returns None (set_os_Stdout (appended (os_Stdout p) s) p) in
  (forall json : JSON, @WriteResult json None p = wrote "{}")
  /\ (forall (json : JSON) (t : gotype) (v : value) (byt : string),
        @json_Marshal json (Some (t, v)) = (byt, None) ->
        accepts (os_Stdout p) (String.length byt) ->
        @WriteResult json (Some (t, v)) p = wrote byt)
  /\ WriteResult (Some (TPointer e, VPointer None)) p = wrote "null"
  /\ WriteResult (Some (TMap k e, VMap None)) p = wrote "null"
  /\ WriteResult (Some (TSlice e, VSlice None)) p = wrote "null".
Proof.
  intros Hok Hk wrote.
  assert (Hok2 : accepts (os_Stdout p) 2).
  { unfold accepts in *. destruct (failure (os_Stdout p)) as [[room errno]|]; [lia | exact I]. }
  split; [|split; [|split; [|split]]].
  - intros json. apply (proj1 (@WriteResult_writes_encoding json p) Hok2).
  - intros json t v byt Hm Hb.
    apply (proj2 (@WriteResult_writes_encoding json p) t v byt Hm Hb).
  - apply (proj2 (WriteResult_writes_encoding p) _ _ "null"); [reflexivity | exact Hok].
  - apply (proj2 (WriteResult_writes_encoding p) _ _ "null"); [|exact Hok].
    cbn. now rewrite Hk.
  - apply (proj2 (WriteResult_writes_encoding p) _ _ "null"); [reflexivity | exact Hok].
Qed.

Lemma WriteResult_typed_nil_writes_null_witness :
  let p := started ["action"] in
  let wrote (s : string) := Returns None (set_os_Stdout (mkFile "/dev/stdout" s None) p) in
  WriteResult None p = wrote "{}"
  /\ WriteResult (Some (TPointer Meta, VPointer None)) p = wrote "null"
  /\ WriteResult (Some (TMap TString Meta, VMap None)) p = wrote "null"
  /\ WriteResult (Some (TSlice Meta, VSlice None)) p = wrote "null".
Proof.
  pose proof (WriteResult_typed_nil_writes_null (started ["action"]) Meta TString I eq_refl)
    as H.
  cbv zeta in H. destruct H as (H1 & _ & H3 & H4 & H5).
  split; [|split; [|split]].
  - exact (H1 encoding_json).
  - exact H3.
  - exact H4.
  - exact H5.
Defined.

(** ** GetMetadata *)

Section GetMetadata_facts.
Context {json : JSON}.

Lemma GetMetadata_after_GetArgs (p p' : Process) (dest : iface) (r : option ptr * error) :
  GetArgs p = Returns r p' ->
  GetMetadata dest p
  = match r with
    | (_, Some e) => Returns (dest, Some e) p'
    | (None, None) => Panics "invalid memory address or nil pointer dereference" p'
    | (Some a, None) =>
        match heap p' !! a with
        | Some obj => Returns (json_Unmarshal (Metadata obj) dest) p'
        | None => Panics "invalid memory address or nil pointer dereference" p'
        end
    end.
Proof.
  intros H. unfold GetMetadata. rewrite (bind_Returns _ _ _ _ _ H).
  destruct r as [[a|] [e|]]; try reflexivity.
  unfold load, mbind, M_bind, mret, M_ret.
  destruct (heap p' !! a); reflexivity.
Qed.

Lemma GetMetadata_first_call (p : Process) (dest : iface) (arg1 : string) (obj : value) :
  args p = None -> os_Args p !! 1%nat = Some arg1 ->
  json_Unmarshal arg1 (pointer_to Args (zero Args)) = (pointer_to Args obj, None) ->
  GetMetadata dest p = Returns (json_Unmarshal (Metadata obj) dest) (parsed_state p obj).
Proof.
  intros Hargs Harg Hun.
  rewrite (GetMetadata_after_GetArgs p _ dest _ (GetArgs_uncached p arg1 Hargs Harg)).
  cbv zeta. rewrite Hun. cbn [fst snd stored pointer_to parsed_state heap].
  now rewrite list_lookup_middle.
Qed.

End GetMetadata_facts.

(** C4.  [GetMetadata] asks [GetArgs] for the record and hands the bytes
    of its [Metadata] field to [json.Unmarshal] together with the caller's
    destination; its result is that call's result, so an error of the
    payload decoder comes back unchanged and so does the decoder's error
    for a blob that does not fit the destination.  Started with the
    payload of the example, [GetMetadata] into a [struct { X int }] sets
    [X] to 5 and returns nil; with the metadata [{"x":"five"}] it returns
    an [UnmarshalTypeError] and leaves [X] as it was. *)
Theorem GetMetadata_decodes_Metadata {json : JSON} (p : Process) (dest : iface) :
  (forall (r : option ptr) (e : goerror) (p' : Process),
     GetArgs p = Returns (r, Some e) p' ->
     GetMetadata dest p = Returns (dest, Some e) p')
  /\ (forall (a : ptr) (obj : value),
        args p = Some a -> heap p !! a = Some obj ->
        GetMetadata dest p = Returns (json_Unmarshal (Metadata obj) dest) p)
  /\ (forall (arg1 : string) (obj : value),
        args p = None -> os_Args p !! 1%nat = Some arg1 ->
        json_Unmarshal arg1 (pointer_to Args (zero Args)) = (pointer_to Args obj, None) ->
        GetMetadata dest p
        = Returns (json_Unmarshal (Metadata obj) dest) (parsed_state p obj))
  /\ (forall x0 : Z,
        args p = None -> os_Args p !! 1%nat = Some payload ->
        @GetMetadata encoding_json (pointer_to Meta (VStruct [VInt x0])) p
        = Returns (pointer_to Meta (VStruct [VInt 5]), None)
            (parsed_state p decoded_payload))
  /\ (forall x0 : Z,
        args p = None -> os_Args p !! 1%nat = Some (js "{'Metadata':{'x':'five'}}") ->
        exists p',
          @GetMetadata encoding_json (pointer_to Meta (VStruct [VInt x0])) p
          = Returns (pointer_to Meta (VStruct [VInt x0]),
                     Some (UnmarshalTypeError "string" TInt "Meta" "X")) p').
Proof.
  split; [|split; [|split; [|split]]].
  - intros r e p' H. rewrite (GetMetadata_after_GetArgs p p' dest _ H).
    destruct r; reflexivity.
  - intros a obj Hargs Hobj.
    rewrite (GetMetadata_after_GetArgs p p dest _ (GetArgs_cached p a Hargs)).
    now rewrite Hobj.
  - intros arg1 obj. apply GetMetadata_first_call.
  - intros x0 Hargs Harg.
    rewrite (@GetMetadata_first_call encoding_json p _ payload decoded_payload Hargs Harg);
      reflexivity.
  - intros x0 Hargs Harg. eexists.
    rewrite (@GetMetadata_first_call encoding_json p _ _
               (VStruct [VInt 0; VRawMessage (Some (js "{'x':'five'}"));
                         VStruct [VStruct [zero Event]; VMap None]])
               Hargs Harg);
      reflexivity.
Qed.

Lemma GetMetadata_decodes_Metadata_witness :
  let p := started ["action"; payload] in
  let bad := started ["action"; "not json"] in
  let dest := pointer_to Meta (VStruct [VInt 0]) in
  (exists p', GetMetadata dest bad
              = Returns (dest,
                         Some (errorString
                                 "unable to parse arguments: invalid character 'o' in literal null (expecting 'u')"))
                        p')
  /\ GetMetadata dest (parsed_state p decoded_payload)
     = Returns (pointer_to Meta (VStruct [VInt 5]), None) (parsed_state p decoded_payload)
  /\ GetMetadata dest p
     = Returns (pointer_to Meta (VStruct [VInt 5]), None) (parsed_state p decoded_payload).
Proof.
  split; [|split].
  - eexists.
    refine (proj1 (GetMetadata_decodes_Metadata (started ["action"; "not json"])
                     (pointer_to Meta (VStruct [VInt 0]))) None _ _ _).
    vm_compute. reflexivity.
  - exact (proj1 (proj2 (GetMetadata_decodes_Metadata
                           (parsed_state (started ["action"; payload]) decoded_payload)
                           (pointer_to Meta (VStruct [VInt 0]))))
             0%nat decoded_payload eq_refl eq_refl).
  - exact (proj1 (proj2 (proj2 (proj2 (GetMetadata_decodes_Metadata
                                         (started ["action"; payload])
                                         (pointer_to Meta (VStruct [VInt 0]))))))
             0 eq_refl eq_refl).
Defined.

(** ** Round trips of the metadata *)

Section Outcome_facts.
Context {json : JSON}.

(** What a returning [GetMetadata] returned. *)
Lemma GetMetadata_Returns (p p' : Process) (dest r : iface) :
  GetMetadata dest p = Returns (r, None) p' ->
  exists (a : ptr) (obj : value),
    args p' = Some a /\ heap p' !! a = Some obj
    /\ json_Unmarshal (Metadata obj) dest = (r, None).
Proof.
  intros H.
  assert (Hargs : forall q q' ra, GetArgs q = Returns (Some ra, None) q' -> args q' = Some ra).
  { intros q q' ra Hq. destruct (args q) as [a0|] eqn:Ha.
    - rewrite (GetArgs_cached q a0 Ha) in Hq. now inversion Hq; subst.
    - destruct (os_Args q !! 1%nat) as [arg1|] eqn:Harg.
      + rewrite (GetArgs_uncached q arg1 Ha Harg) in Hq. cbv zeta in Hq.
        destruct (snd (json_Unmarshal arg1 (pointer_to Args (zero Args))));
          inversion Hq; subst; reflexivity.
      + revert Hq.
        cbv beta iota delta [GetArgs mbind M_bind get new modify Unmarshal_at load store
                               mret M_ret panic].
        rewrite Ha, Harg.
        destruct (length (os_Args q) <? 2)%nat; discriminate. }
  destruct (GetArgs p) as [[[a|] [e|]] q| |] eqn:HG;
    rewrite (GetMetadata_after_GetArgs p _ dest _ HG) in H || (unfold GetMetadata in H;
      unfold mbind, M_bind in H; rewrite HG in H); try discriminate.
  destruct (heap q !! a) as [obj|] eqn:Hobj; [|discriminate].
  inversion H as [[Hr Hq]]. subst q. exists a, obj.
  split; [now apply (Hargs p p' a)|]. split; [assumption|].
  destruct (json_Unmarshal (Metadata obj) dest) as [r0 e0]. now inversion Hr.
Qed.

End Outcome_facts.

(** C9, as stated.  The example of the specification re-encodes with the
    key [X]; a zero field tagged [omitempty] is left out of the
    re-encoding; and a destination with a channel field, which the
    decoder fills without complaint, cannot be encoded at all.  In none
    of the three cases does re-encoding the destination give a text that
    denotes the JSON value of the metadata it was decoded from. *)
Lemma reencoding_differs_from_metadata :
  ~ reencodes_to_metadata payload Meta
  /\ ~ reencodes_to_metadata payload_zero Limits
  /\ ~ reencodes_to_metadata payload Signals.
Proof.
  split; [|split]; intros H.
  - destruct (H (parsed_state (started ["action"; payload]) decoded_payload)
                (VStruct [VInt 5]) eq_refl) as (a & obj & text & Ha & Hobj & Hm & Hv).
    vm_compute in Ha. inversion Ha; subst a.
    vm_compute in Hobj. inversion Hobj; subst obj.
    vm_compute in Hm. inversion Hm; subst text.
    vm_compute in Hv. discriminate.
  - pose (rec := VStruct [VInt 1; VRawMessage (Some (js "{'x':0}"));
                          VStruct [VStruct [VStruct [VString "signup"; VMap (Some []);
                                                     VMap None; VString ""; VInt 0;
                                                     VString ""]];
                                   VMap (Some [])]]).
    destruct (H (parsed_state (started ["action"; payload_zero]) rec)
                (VStruct [VInt 0]) eq_refl) as (a & obj & text & Ha & Hobj & Hm & Hv).
    vm_compute in Ha. inversion Ha; subst a.
    vm_compute in Hobj. inversion Hobj; subst obj.
    vm_compute in Hm. inversion Hm; subst text.
    vm_compute in Hv. discriminate.
  - destruct (H (parsed_state (started ["action"; payload]) decoded_payload)
                (VStruct [VInt 5; VChan]) eq_refl) as (a & obj & text & Ha & Hobj & Hm & Hv).
    vm_compute in Hm. discriminate.
Qed.

(* ===================================================================== *)
(** * The decode/encode round trip of plain destinations *)
(* ===================================================================== *)

Section roundtrip_facts.
Import utf8 strconv scanner syntax fields decoder encoder roundtrip sample.

Lemma gotype_ind' (P : gotype -> Prop) :
  P TBool -> P TInt -> P TInt64 -> P TUint -> P TFloat64 -> P TString ->
  P TRawMessage -> P TInterface ->
  (forall e, P e -> P (TPointer e)) ->
  (forall e, P e -> P (TSlice e)) ->
  (forall k e, P k -> P e -> P (TMap k e)) ->
  (forall pkg name fs, Forall (fun f => P (snd f)) fs -> P (TStruct pkg name fs)) ->
  (forall e, P e -> P (TChan e)) ->
  P TFunc ->
  forall t, P t.
Proof.
  intros Hb Hi Hi64 Hu Hf Hs Hr Hif Hp Hsl Hm Hst Hc Hfn.
  fix IH 1. intros [ | | | | | | | | e | e | k e | pkg name fs | e | ].
  all: try assumption.
  - apply Hp, IH.
  - apply Hsl, IH.
  - apply Hm; apply IH.
  - apply Hst. induction fs as [|f fs IHfs]; constructor; [apply IH | exact IHfs].
  - apply Hc, IH.
Qed.

Lemma jtree_ind' (P : jtree -> Prop) :
  (forall item, P (Lit item)) ->
  (forall raw es, Forall P es -> P (Arr raw es)) ->
  (forall raw ms, Forall (fun m => P (snd m)) ms -> P (Obj raw ms)) ->
  forall j, P j.
Proof.
  intros Hl Ha Ho. fix IH 1. intros [item | raw es | raw ms].
  - apply Hl.
  - apply Ha. induction es as [|e es IHes]; constructor; [apply IH | exact IHes].
  - apply Ho. induction ms as [|m ms IHms]; constructor; [apply IH | exact IHms].
Qed.

(** Unfolding plain and canon on structs *)
Lemma plain_struct pkg name fs :
  plain (TStruct pkg name fs) = true ->
  forallb kept (typeFields fs) = true
  /\ distinct (List.map name_of (typeFields fs)) = true
  /\ Forall (fun f => plain (snd f) = true) fs.
Proof.
  cbn [plain]. rewrite !andb_true_iff. intros [[Hk Hd] Hall]. repeat split; try assumption.
  clear Hk Hd. induction fs as [|f fs IH]; constructor;
    simpl in Hall; apply andb_true_iff in Hall; destruct Hall as [H1 H2]; auto.
Qed.

Lemma canon_struct pkg name fs vs :
  canon (TStruct pkg name fs) (VStruct vs) <-> Forall2 (fun f x => canon (snd f) x) fs vs.
Proof.
  cbn [canon]. revert vs. induction fs as [|f fs IH]; intros [|x vs]; simpl.
  - split; [constructor | trivial].
  - split; [contradiction | intros H; inversion H].
  - split; [contradiction | intros H; inversion H].
  - rewrite IH. split.
    + intros [H1 H2]. now constructor.
    + intros H. inversion H; subst. now split.
Qed.

Lemma zero_canon t : plain t = true -> canon t (zero t).
Proof.
  induction t using gotype_ind'; intros Hp; try discriminate; cbn; try lia; try exact I.
  apply plain_struct in Hp as (_ & _ & Hall).
  change (canon (TStruct pkg name fs) (VStruct (List.map (fun f => zero (snd f)) fs))).
  apply canon_struct.
  induction fs as [|f fs IHfs]; constructor.
  - inversion H; inversion Hall; subst. auto.
  - inversion H; inversion Hall; subst. auto.
Qed.

Lemma decodeValue_unfold j ctx cs t v saved :
  decodeValue j ctx cs t v saved
  = let '(ws, (t', v')) := indirect (is_null j) cs t v in
    let '(r, s) := store decodeValue j ctx t' v' saved in
    (rebuild ws r, s).
Proof. destruct j; reflexivity. Qed.

Lemma saveError_Some ctx e x : saveError ctx e (Some x) = Some x.
Proof. reflexivity. Qed.

Lemma saveError_not_None ctx e saved : saveError ctx e saved <> None.
Proof. destruct saved; discriminate. Qed.

Lemma indirect_plain_nonpointer dn cs t v :
  plain t = true -> canon t v -> is_pointer t = false ->
  indirect dn cs t v = ([], (t, v)).
Proof.
  destruct t; try discriminate; destruct v; try contradiction; reflexivity.
Qed.

Lemma indirect_zero e :
  indirect false true e (zero e)
  = let '(ws, t') := indirect_new false e in (ws, (t', zero t')).
Proof.
  destruct e; try reflexivity.
  simpl. destruct (indirect_new false e) as [ws t']. reflexivity.
Qed.

(** Decoding something other than null through a pointer. *)
Lemma decodeValue_pointer j ctx e p saved :
  is_null j = false ->
  decodeValue j ctx true (TPointer e) (VPointer p) saved
  = let '(r, s) := decodeValue j ctx true e (default (zero e) p) saved in
    (VPointer (Some r), s).
Proof.
  intros Hn. rewrite !decodeValue_unfold, Hn.
  destruct p as [x|]; cbn [indirect andb default from_option id].
  - destruct (indirect false true e x) as [ws [t' v']].
    destruct (store decodeValue j ctx t' v' saved) as [r s]. reflexivity.
  - rewrite indirect_zero.
    destruct (indirect_new false e) as [ws t'].
    destruct (store decodeValue j ctx t' (zero t') saved) as [r s]. reflexivity.
Qed.

Lemma digits_value_nonneg s acc n : 0 <= acc -> digits_value s acc = Some n -> 0 <= n.
Proof.
  revert acc. induction s as [|c s IH]; intros acc Hacc; simpl.
  - intros [= <-]. exact Hacc.
  - destruct (is_digit c) eqn:Hd; [|discriminate].
    apply IH. unfold is_digit in Hd. apply andb_true_iff in Hd as [H1 H2].
    apply Z.leb_le in H1. lia.
Qed.

Lemma ParseInt_range s n : ParseInt s = Some n -> - 2 ^ 63 <= n < 2 ^ 63.
Proof.
  unfold ParseInt.
  match goal with |- match ?x with _ => _ end = _ -> _ => destruct x as [m|] end;
    [|discriminate].
  destruct ((- 2 ^ 63 <=? m) && (m <? 2 ^ 63)) eqn:H; [|discriminate].
  intros [= <-]. apply andb_true_iff in H as [H1 H2].
  apply Z.leb_le in H1. apply Z.ltb_lt in H2. lia.
Qed.

Lemma ParseUint_range s n : ParseUint s = Some n -> 0 <= n < 2 ^ 64.
Proof.
  unfold ParseUint, ParseDigits. destruct s as [|c s]; [discriminate|].
  destruct (digits_value (String c s) 0) as [m|] eqn:Hm; [|discriminate].
  destruct (m <? 2 ^ 64) eqn:H; [|discriminate].
  intros [= <-]. apply Z.ltb_lt in H. split; [|exact H].
  eapply digits_value_nonneg; [|exact Hm]. lia.
Qed.

Lemma literalStore_good ctx item t v0 saved :
  plain t = true -> canon t v0 -> is_pointer t = false \/ is_null (Lit item) = true ->
  let r := literalStore ctx item t v0 saved in
  sticky r saved
  /\ (snd r = None -> canon t (fst r) /\ (is_null (Lit item) = false -> nonnull (fst r))).
Proof.
  intros Hp Hc Hpt. unfold literalStore, is_null in *.
  destruct (Ascii.eqb (first_char item) "n") eqn:Hn.
  - destruct t; try discriminate; cbn [fst snd]; (split; [intros e ->; reflexivity|]);
      intros _; (split; [try exact Hc; try exact I | discriminate]).
  - destruct Hpt as [Hpt|Hpt]; [|discriminate].
    destruct (Ascii.eqb (first_char item) "t" || Ascii.eqb (first_char item) "f").
    { destruct t; try discriminate; cbn [fst snd];
        (split; [intros e ->; reflexivity|]);
        try (intros H; now apply saveError_not_None in H).
      intros _. split; [exact I | intros _; exact I]. }
    destruct (Ascii.eqb (first_char item) dquote).
    { destruct t; try discriminate; cbn [fst snd];
        (split; [intros e ->; reflexivity|]);
        intros H; now apply saveError_not_None in H. }
    destruct t; try discriminate; cbn [fst snd].
    + split; [intros e ->; reflexivity|]. intros H; now apply saveError_not_None in H.
    + destruct (ParseInt item) as [n|] eqn:Hi; cbn [fst snd].
      * split; [intros e ->; reflexivity|]. intros _. split; [|intros _; exact I].
        now apply ParseInt_range in Hi.
      * split; [intros e ->; reflexivity|]. intros H; now apply saveError_not_None in H.
    + destruct (ParseInt item) as [n|] eqn:Hi; cbn [fst snd].
      * split; [intros e ->; reflexivity|]. intros _. split; [|intros _; exact I].
        now apply ParseInt_range in Hi.
      * split; [intros e ->; reflexivity|]. intros H; now apply saveError_not_None in H.
    + destruct (ParseUint item) as [n|] eqn:Hi; cbn [fst snd].
      * split; [intros e ->; reflexivity|]. intros _. split; [|intros _; exact I].
        now apply ParseUint_range in Hi.
      * split; [intros e ->; reflexivity|]. intros H; now apply saveError_not_None in H.
    + split; [intros e ->; reflexivity|]. intros H; now apply saveError_not_None in H.
    + split; [intros e ->; reflexivity|]. intros H; now apply saveError_not_None in H.
Qed.

(** *** An error saved once stays *)

Lemma literalStore_sticky ctx item t v e :
  snd (literalStore ctx item t v (Some e)) = Some e.
Proof.
  unfold literalStore.
  repeat match goal with
         | |- context [if ?b then _ else _] => destruct b
         | |- context [match ?x with _ => _ end] => destruct x
         end; reflexivity.
Qed.

Lemma literalInterface_sticky ctx item e :
  snd (literalInterface ctx item (Some e)) = Some e.
Proof.
  unfold literalInterface.
  repeat match goal with
         | |- context [if ?b then _ else _] => destruct b
         | |- context [match ?x with _ => _ end] => destruct x
         end; reflexivity.
Qed.

Lemma valueInterface_sticky j : forall ctx e, snd (valueInterface ctx j (Some e)) = Some e.
Proof.
  induction j as [item | raw es IH | raw ms IH] using jtree_ind'; intros ctx e.
  - apply literalInterface_sticky.
  - cbn [valueInterface].
    assert (H : snd (arrayInterface valueInterface ctx es (Some e)) = Some e).
    { clear raw. induction IH as [|j es Hj _ IHes]; [reflexivity|].
      cbn [arrayInterface]. specialize (Hj ctx e).
      destruct (valueInterface ctx j (Some e)) as [x s]. cbn [snd] in Hj. subst s.
      destruct (arrayInterface valueInterface ctx es (Some e)) as [xs s]. exact IHes. }
    destruct (arrayInterface valueInterface ctx es (Some e)) as [xs s]. exact H.
  - cbn [valueInterface].
    assert (H : forall m, snd (objectInterface valueInterface ctx ms m (Some e)) = Some e).
    { clear raw. induction IH as [|[k j] ms Hj _ IHms]; intros m; [reflexivity|].
      cbn [objectInterface]. specialize (Hj ctx e). cbn [snd] in Hj.
      destruct (valueInterface ctx j (Some e)) as [x s]. cbn [snd] in Hj. subst s.
      apply IHms. }
    specialize (H []). destruct (objectInterface valueInterface ctx ms [] (Some e)) as [xs s].
    exact H.
Qed.

Lemma array_sticky ctx te es :
  Forall keeps es -> forall old e, snd (array decodeValue ctx te es old (Some e)) = Some e.
Proof.
  induction 1 as [|j es Hj _ IH]; intros old e; [reflexivity|].
  cbn [array]. specialize (Hj ctx true te (hd (zero te) old) e).
  destruct (decodeValue j ctx true te (hd (zero te) old) (Some e)) as [x s].
  cbn [snd] in Hj. subst s. specialize (IH (tl old) e).
  destruct (array decodeValue ctx te es (tl old) (Some e)) as [xs s]. exact IH.
Qed.

Lemma object_map_sticky ctx kt et ms :
  Forall (fun m => keeps (snd m)) ms ->
  forall m e, snd (object_map decodeValue ctx kt et ms m (Some e)) = Some e.
Proof.
  induction 1 as [|[k j] ms Hj _ IH]; intros m e; [reflexivity|].
  cbn [object_map]. specialize (Hj ctx true et (zero et) e). cbn [snd] in Hj.
  destruct (decodeValue j ctx true et (zero et) (Some e)) as [x s].
  cbn [snd] in Hj. subst s.
  destruct (mapKey kt (unquote k)); apply IH.
Qed.

Lemma object_struct_sticky ctx name tfs ms :
  Forall (fun m => keeps (snd m)) ms ->
  forall vs e, snd (object_struct decodeValue ctx name tfs ms vs (Some e)) = Some e.
Proof.
  induction 1 as [|[k j] ms Hj _ IH]; intros vs e; [reflexivity|].
  cbn [object_struct]. cbn [snd] in Hj.
  destruct (lookup tfs (unquote k)) as [[i f]|]; [|apply IH].
  match goal with |- context [decodeValue j ?c true ?t ?v (Some e)] =>
    specialize (Hj c true t v e); destruct (decodeValue j c true t v (Some e)) as [x s]
  end.
  cbn [snd] in Hj. subst s. apply IH.
Qed.

Lemma decodeValue_sticky j : keeps j.
Proof.
  induction j as [item | raw es IH | raw ms IH] using jtree_ind';
    intros ctx cs t v e; rewrite decodeValue_unfold;
    destruct (indirect _ cs t v) as [ws [t' v']];
    match goal with |- context [store decodeValue ?j ctx t' v' (Some e)] =>
      assert (H : snd (store decodeValue j ctx t' v' (Some e)) = Some e);
      [|destruct (store decodeValue j ctx t' v' (Some e)); exact H]
    end.
  - destruct t'; cbn [store]; try apply literalStore_sticky; reflexivity.
  - destruct t'; cbn [store]; try reflexivity.
    + apply valueInterface_sticky.
    + pose proof (array_sticky ctx t' es IH
                    (match v' with VSlice (Some l) => l | _ => [] end) e) as H.
      destruct (array decodeValue ctx t' es _ (Some e)). exact H.
  - destruct t'; cbn [store]; try reflexivity.
    + apply valueInterface_sticky.
    + destruct (negb (key_kind_ok t'1)); [reflexivity|].
      pose proof (object_map_sticky ctx t'1 t'2 ms IH
                    (match v' with VMap (Some m) => m | _ => [] end) e) as H.
      destruct (object_map decodeValue ctx t'1 t'2 ms _ (Some e)). exact H.
    + pose proof (object_struct_sticky ctx name (typeFields fields) ms IH
                    (match v' with VStruct vs => vs | _ => [] end) e) as H.
      destruct (object_struct decodeValue ctx name (typeFields fields) ms _ (Some e)).
      exact H.
Qed.

Lemma decodeValue_no_error j ctx cs t v saved r :
  decodeValue j ctx cs t v saved = (r, None) -> saved = None.
Proof.
  destruct saved as [e|]; [|reflexivity].
  intros H. pose proof (decodeValue_sticky j ctx cs t v e) as Hs.
  rewrite H in Hs. discriminate.
Qed.

(** *** Fields by index *)

Lemma lookup_map {A B} (g : A -> B) (l : list A) (i : nat) :
  List.map g l !! i = g <$> (l !! i).
Proof. revert i. induction l as [|x l IH]; intros [|i]; simpl; auto. Qed.

Lemma find_by_Some p k tfs i f :
  find_by p k tfs = Some (i, f) ->
  exists n, i = (k + n)%nat /\ tfs !! n = Some (Some f) /\ p f = true.
Proof.
  revert k. induction tfs as [|[g|] tfs IH]; intros k; simpl; [discriminate| |].
  - destruct (p g) eqn:Hp.
    + intros [= <- <-]. exists 0%nat. repeat split; [lia | assumption].
    + intros H. apply IH in H as (n & -> & Hn & Hp'). exists (S n). repeat split; [lia|assumption|assumption].
  - intros H. apply IH in H as (n & -> & Hn & Hp'). exists (S n). repeat split; [lia|assumption|assumption].
Qed.

Lemma lookup_Some tfs key i f :
  lookup tfs key = Some (i, f) -> tfs !! i = Some (Some f).
Proof.
  unfold lookup.
  destruct (find_by _ 0 tfs) as [[i' f']|] eqn:H1.
  - intros [= <- <-]. now apply find_by_Some in H1 as (n & -> & Hn & _).
  - intros H. now apply find_by_Some in H as (n & -> & Hn & _).
Qed.

Lemma dominant_Some cs c f : dominant cs c = Some f -> c = Some f.
Proof.
  unfold dominant. destruct c as [g|]; [|discriminate].
  repeat match goal with |- context [if ?b then _ else _] => destruct b end;
    congruence.
Qed.

Lemma candidate_type sf f : candidate sf = Some f -> f_type f = snd sf.
Proof.
  destruct sf as [[goname tag] t]. unfold candidate.
  destruct (negb (IsExported goname)); [discriminate|].
  destruct (String.eqb tag "-"); [discriminate|].
  destruct (split_comma tag) as [name opts]. now intros [= <-].
Qed.

Lemma typeFields_type fs i f :
  typeFields fs !! i = Some (Some f) ->
  exists sf, fs !! i = Some sf /\ snd sf = f_type f.
Proof.
  unfold typeFields. rewrite !lookup_map.
  destruct (fs !! i) as [sf|]; [|discriminate]. cbn.
  intros [= H]. apply dominant_Some in H. apply candidate_type in H.
  exists sf. now split.
Qed.

Lemma Forall2_nth_canon (fs : list (string * string * gotype)) vs i sf d :
  Forall2 (fun f x => canon (snd f) x) fs vs -> fs !! i = Some sf ->
  canon (snd sf) d -> canon (snd sf) (nth i vs d).
Proof.
  intros H. revert i. induction H as [|f x fs vs Hfx _ IH]; intros [|i]; simpl;
    try discriminate.
  - now intros [= <-].
  - apply IH.
Qed.

Lemma Forall2_set_canon (fs : list (string * string * gotype)) vs i sf x :
  Forall2 (fun f x => canon (snd f) x) fs vs -> fs !! i = Some sf ->
  canon (snd sf) x -> Forall2 (fun f x => canon (snd f) x) fs (set_nth i x vs).
Proof.
  intros H. revert i. induction H as [|f y fs vs Hfy Hrest IH]; intros [|i]; simpl;
    try discriminate.
  - intros [= <-] Hx. now constructor.
  - intros Hi Hx. constructor; [assumption|]. now apply IH.
Qed.

(** *** A decoding that ends without error leaves a canonical value *)

Lemma array_sound ctx te es :
  Forall sound es -> plain te = true ->
  forall old xs, Forall (canon te) old ->
    array decodeValue ctx te es old None = (xs, None) -> Forall (canon te) xs.
Proof.
  intros Hes Hp. induction Hes as [|j es Hj _ IH]; intros old xs Hold; cbn [array].
  - intros [= <-]. constructor.
  - destruct (decodeValue j ctx true te (hd (zero te) old) None) as [x s1] eqn:Hx.
    destruct (array decodeValue ctx te es (tl old) s1) as [xs' s2] eqn:Hxs.
    intros [= <- ->].
    assert (s1 = None) as ->.
    { destruct s1 as [e|]; [|reflexivity].
      pose proof (array_sticky ctx te es
                    (proj2 (Forall_forall _ _) (fun j _ => decodeValue_sticky j))
                    (tl old) e) as Hs.
      rewrite Hxs in Hs. discriminate. }
    constructor.
    + apply (Hj te _ ctx x Hp) in Hx; [tauto|].
      destruct Hold; [now apply zero_canon | assumption].
    + apply (IH (tl old)); [|assumption]. destruct Hold; [constructor | assumption].
Qed.

Lemma object_struct_sound ctx pkg name fs ms :
  Forall (fun m => sound (snd m)) ms -> plain (TStruct pkg name fs) = true ->
  forall vs vs', Forall2 (fun f x => canon (snd f) x) fs vs ->
    object_struct decodeValue ctx name (typeFields fs) ms vs None = (vs', None) ->
    Forall2 (fun f x => canon (snd f) x) fs vs'.
Proof.
  intros Hms Hp. pose proof (plain_struct _ _ _ Hp) as (_ & _ & Hall).
  induction Hms as [|[k j] ms Hj _ IH]; intros vs vs' Hvs; cbn [object_struct].
  - now intros [= <-].
  - destruct (lookup (typeFields fs) (unquote k)) as [[i f]|] eqn:Hl; [|now apply IH].
    apply lookup_Some in Hl. apply typeFields_type in Hl as (sf & Hsf & Ht).
    match goal with |- context [decodeValue j ?c true ?t ?v None] =>
      destruct (decodeValue j c true t v None) as [x s1] eqn:Hx
    end.
    intros Hrest.
    assert (s1 = None) as ->.
    { destruct s1 as [e|]; [|reflexivity].
      pose proof (object_struct_sticky ctx name (typeFields fs) ms
                    (proj2 (Forall_forall _ _) (fun m _ => decodeValue_sticky (snd m)))
                    (set_nth i x vs) e) as Hs.
      rewrite Hrest in Hs. discriminate. }
    assert (Hpf : plain (snd sf) = true).
    { rewrite Forall_forall in Hall. apply Hall. eapply list_elem_of_lookup_2, Hsf. }
    cbn [snd] in Hj. rewrite <- Ht in Hx.
    apply Hj in Hx as [Hcx _]; [|assumption|].
    + apply (IH (set_nth i x vs)); [|assumption].
      now apply (Forall2_set_canon fs vs i sf).
    + apply (Forall2_nth_canon fs vs i sf); [assumption|assumption|].
      now apply zero_canon.
Qed.

Lemma is_null_Lit j : is_null j = true -> exists item, j = Lit item.
Proof. destruct j; try discriminate. eauto. Qed.

Lemma store_sound j ctx t v0 v :
  match j with
  | Lit _ => True
  | Arr _ es => Forall sound es
  | Obj _ ms => Forall (fun m => sound (snd m)) ms
  end ->
  plain t = true -> canon t v0 -> is_pointer t = false ->
  store decodeValue j ctx t v0 None = (v, None) ->
  canon t v /\ (is_null j = false -> nonnull v).
Proof.
  intros IH Hp Hc Hpt H.
  destruct j as [item | raw es | raw ms].
  - assert (Hs : store decodeValue (Lit item) ctx t v0 None = literalStore ctx item t v0 None).
    { destruct t; try discriminate; reflexivity. }
    rewrite Hs in H.
    pose proof (literalStore_good ctx item t v0 None Hp Hc (or_introl Hpt)) as [_ Hg].
    cbv zeta in Hg. rewrite H in Hg. now apply Hg.
  - destruct t as [ | | | | | | | | e | e | k e | pkg name fs | e | ];
      try discriminate; cbn [store] in H; try (inversion H; fail).
    destruct (array decodeValue ctx e es _ None) as [xs s] eqn:Hxs.
    inversion H; subst. split; [|intros _; exact I].
    cbn [canon]. eapply array_sound; [exact IH | exact Hp | | exact Hxs].
    destruct v0 as [ | | | | | | |[l|] | | | | ]; try contradiction; [exact Hc | constructor].
  - destruct t as [ | | | | | | | | e | e | k e | pkg name fs | e | ];
      try discriminate; cbn [store] in H; try (inversion H; fail).
    destruct (object_struct decodeValue ctx name (typeFields fs) ms _ None)
      as [vs s] eqn:Hvs.
    inversion H; subst. split; [|intros _; exact I].
    apply canon_struct.
    destruct v0 as [ | | | | | | | | |vs0| | ]; try contradiction.
    eapply object_struct_sound; [exact IH | exact Hp | | exact Hvs].
    now apply canon_struct in Hc.
Qed.

Theorem decodeValue_sound j : sound j.
Proof.
  induction j as [item | raw es IH | raw ms IH] using jtree_ind'.
  all: intros t; induction t as [ | | | | | | | | e IHe | e _ | | | | ];
    intros v0 ctx v Hp Hc H; try discriminate.
  all: try (rewrite decodeValue_unfold in H;
            rewrite (indirect_plain_nonpointer _ true _ _ Hp Hc eq_refl) in H;
            match type of H with
            | context [store decodeValue ?j ?c ?t ?v None] =>
                destruct (store decodeValue j c t v None) as [r s] eqn:Hst
            end;
            cbn [rebuild] in H; inversion H; subst;
            eapply store_sound; [| exact Hp | exact Hc | reflexivity | exact Hst];
            first [exact I | exact IH]).
  (* pointers *)
  - destruct v0 as [ | | | | | |p| | | | | ]; try contradiction.
    destruct (is_null (Lit item)) eqn:Hn.
    + rewrite decodeValue_unfold, Hn in H. cbn [indirect andb] in H.
      assert (Hs : store decodeValue (Lit item) ctx (TPointer e) (VPointer p) None
                   = literalStore ctx item (TPointer e) (VPointer p) None) by reflexivity.
      rewrite Hs in H.
      pose proof (literalStore_good ctx item (TPointer e) (VPointer p) None Hp Hc
                    (or_intror Hn)) as [_ Hg].
      cbv zeta in Hg.
      destruct (literalStore ctx item (TPointer e) (VPointer p) None) as [r s].
      cbn [rebuild] in H. inversion H; subst. rewrite Hn in Hg.
      destruct (Hg eq_refl) as [Hg1 _]. split; [exact Hg1 | discriminate].
    + rewrite (decodeValue_pointer _ _ _ _ _ Hn) in H.
      destruct (decodeValue (Lit item) ctx true e (default (zero e) p) None) as [r s] eqn:Hr.
      inversion H; subst.
      apply IHe in Hr as [Hr1 Hr2]; [| exact Hp |].
      * split; [|intros _; exact I]. cbn [canon]. split; [exact Hr1 | now apply Hr2].
      * destruct p as [x|]; cbn; [apply Hc | now apply zero_canon].
  - destruct v0 as [ | | | | | |p| | | | | ]; try contradiction.
    rewrite (decodeValue_pointer (Arr raw es) _ _ _ _ eq_refl) in H.
    destruct (decodeValue (Arr raw es) ctx true e (default (zero e) p) None) as [r s] eqn:Hr.
    inversion H; subst.
    apply IHe in Hr as [Hr1 Hr2]; [| exact Hp |].
    + split; [|intros _; exact I]. cbn [canon]. split; [exact Hr1 | now apply Hr2].
    + destruct p as [x|]; cbn; [apply Hc | now apply zero_canon].
  - destruct v0 as [ | | | | | |p| | | | | ]; try contradiction.
    rewrite (decodeValue_pointer (Obj raw ms) _ _ _ _ eq_refl) in H.
    destruct (decodeValue (Obj raw ms) ctx true e (default (zero e) p) None) as [r s] eqn:Hr.
    inversion H; subst.
    apply IHe in Hr as [Hr1 Hr2]; [| exact Hp |].
    + split; [|intros _; exact I]. cbn [canon]. split; [exact Hr1 | now apply Hr2].
    + destruct p as [x|]; cbn; [apply Hc | now apply zero_canon].
Qed.

(** *** Bytes *)

Lemma byte_range c : 0 <= byte c < 256.
Proof.
  unfold byte. pose proof (N_ascii_bounded c) as H. lia.
Qed.

Lemma byte_chr n : 0 <= n < 256 -> byte (chr n) = n.
Proof.
  intros H. unfold byte, chr. rewrite N_ascii_embedding by lia. lia.
Qed.

Lemma chr_byte c : chr (byte c) = c.
Proof. unfold byte, chr. rewrite N2Z.id. apply ascii_N_embedding. Qed.

Lemma byte_inj c d : byte c = byte d -> c = d.
Proof. intros H. rewrite <- (chr_byte c), <- (chr_byte d). now rewrite H. Qed.

Lemma eqb_byte c d : Ascii.eqb c d = (byte c =? byte d).
Proof.
  destruct (Ascii.eqb c d) eqn:E.
  - apply Ascii.eqb_eq in E. subst. symmetry. apply Z.eqb_refl.
  - symmetry. apply Z.eqb_neq. intros H. apply byte_inj in H. subst.
    rewrite Ascii.eqb_refl in E. discriminate.
Qed.

Lemma append_assoc (a b c : string) : (a ++ b) ++ c = a ++ (b ++ c).
Proof.
  induction a as [|x a IH]; [reflexivity|].
  change (String x ((a ++ b) ++ c) = String x (a ++ (b ++ c))). now rewrite IH.
Qed.

(** *** Decimal digits *)

Lemma is_digit_digit n : 0 <= n < 10 -> is_digit (digit n) = true.
Proof.
  intros H. unfold is_digit, digit. rewrite byte_chr by lia.
  apply andb_true_iff. split; [apply Z.leb_le | apply Z.leb_le]; lia.
Qed.

Lemma digits_app fuel : forall n acc, digits fuel n acc = digits fuel n "" ++ acc.
Proof.
  induction fuel as [|fuel IH]; intros n acc; [reflexivity|].
  cbn [digits]. destruct (n <? 10); [reflexivity|].
  rewrite IH. rewrite (IH _ (String _ "")).
  rewrite append_assoc. reflexivity.
Qed.

Lemma digits_value_app s1 : forall s2 a,
  digits_value (s1 ++ s2) a
  = match digits_value s1 a with
    | Some v => digits_value s2 v
    | None => None
    end.
Proof.
  induction s1 as [|c s1 IH]; intros s2 a; [reflexivity|].
  change (String c s1 ++ s2) with (String c (s1 ++ s2)). cbn [digits_value].
  destruct (is_digit c); [apply IH | reflexivity].
Qed.

Lemma digits_value_digits fuel : forall n,
  0 <= n < 2 ^ Z.of_nat fuel -> digits_value (digits fuel n "") 0 = Some n.
Proof.
  induction fuel as [|fuel IH]; intros n Hn.
  - cbn in Hn. assert (n = 0) by lia. subst. reflexivity.
  - cbn [digits].
    assert (Hm : 0 <= n mod 10 < 10) by (apply Z.mod_pos_bound; lia).
    destruct (n <? 10) eqn:Hlt.
    + apply Z.ltb_lt in Hlt. rewrite Z.mod_small by lia.
      cbn [digits_value]. fold (digit n). rewrite is_digit_digit by lia.
      unfold digit. rewrite byte_chr by lia. f_equal. lia.
    + apply Z.ltb_ge in Hlt. rewrite digits_app, digits_value_app.
      rewrite IH.
      * cbn [digits_value]. fold (digit (n mod 10)). rewrite is_digit_digit by lia.
        unfold digit. rewrite byte_chr by lia. f_equal.
        pose proof (Z.div_mod n 10). lia.
      * split; [apply Z.div_pos; lia|].
        apply Z.div_lt_upper_bound; [lia|].
        rewrite Nat2Z.inj_succ, Z.pow_succ_r in Hn by lia. lia.
Qed.

Lemma digits_nonempty fuel n acc : digits (S fuel) n acc <> "".
Proof.
  rewrite digits_app. cbn [digits].
  destruct (n <? 10); [discriminate|].
  rewrite digits_app. destruct (digits fuel (n / 10) ""); discriminate.
Qed.

Lemma fuel_enough n : 0 <= n -> 0 <= n < 2 ^ Z.of_nat (fuel_of n).
Proof.
  intros H. split; [assumption|]. unfold fuel_of.
  destruct (Z.eq_dec n 0) as [->|Hne]; [reflexivity|].
  rewrite Nat2Z.inj_add, Z2Nat.id by apply Z.log2_nonneg.
  change (Z.of_nat 1) with 1.
  pose proof (Z.log2_spec n ltac:(lia)) as [_ H2].
  now rewrite Z.add_1_r.
Qed.

Lemma Itoa_nonneg n : 0 <= n -> Itoa n = digits (fuel_of n) n "".
Proof.
  intros H. unfold Itoa. destruct (n <? 0) eqn:E; [apply Z.ltb_lt in E; lia|].
  reflexivity.
Qed.

Lemma Itoa_neg n : n < 0 -> Itoa n = String "-" (digits (fuel_of (- n)) (- n) "").
Proof.
  intros H. unfold Itoa. destruct (n <? 0) eqn:E; [reflexivity|].
  apply Z.ltb_ge in E. lia.
Qed.

Lemma ParseDigits_digits n : 0 <= n -> ParseDigits (digits (fuel_of n) n "") = Some n.
Proof.
  intros H. unfold ParseDigits.
  destruct (digits (fuel_of n) n "") eqn:E.
  - exfalso. unfold fuel_of in E. rewrite Nat.add_1_r in E.
    now apply digits_nonempty in E.
  - rewrite <- E. apply digits_value_digits. now apply fuel_enough.
Qed.

Lemma is19_digit n : 1 <= n < 10 -> is19 (digit n) = true.
Proof.
  intros H. unfold is19, digit. rewrite byte_chr by lia.
  apply andb_true_iff. split; apply Z.leb_le; lia.
Qed.

Lemma digits_shape fuel : forall n acc,
  0 < n < 2 ^ Z.of_nat fuel -> all_digits acc = true ->
  exists d ds, digits fuel n acc = String d ds /\ is19 d = true /\ all_digits ds = true.
Proof.
  induction fuel as [|fuel IH]; intros n acc Hn Hacc.
  - cbn in Hn. lia.
  - cbn [digits].
    assert (Hm : 0 <= n mod 10 < 10) by (apply Z.mod_pos_bound; lia).
    destruct (n <? 10) eqn:Hlt.
    + apply Z.ltb_lt in Hlt. rewrite Z.mod_small by lia.
      exists (digit n), acc. repeat split; [|assumption]. apply is19_digit. lia.
    + apply Z.ltb_ge in Hlt. apply IH.
      * split; [apply Z.div_str_pos; lia|].
        apply Z.div_lt_upper_bound; [lia|].
        rewrite Nat2Z.inj_succ, Z.pow_succ_r in Hn by lia. lia.
      * cbn [all_digits]. fold (digit (n mod 10)). now rewrite is_digit_digit.
Qed.

Lemma Itoa_zero : Itoa 0 = "0".
Proof. reflexivity. Qed.

Lemma Itoa_pos n :
  0 < n -> exists d ds, Itoa n = String d ds /\ is19 d = true /\ all_digits ds = true.
Proof.
  intros H. rewrite Itoa_nonneg by lia. apply digits_shape; [|reflexivity].
  pose proof (fuel_enough n ltac:(lia)). lia.
Qed.

Lemma Itoa_number_text n : number_text (Itoa n).
Proof.
  destruct (Z.lt_trichotomy n 0) as [Hn|[->|Hn]].
  - rewrite Itoa_neg by assumption.
    destruct (digits_shape (fuel_of (- n)) (- n) "") as (d & ds & E & H1 & H2);
      [pose proof (fuel_enough (- n) ltac:(lia)); lia | reflexivity |].
    exists true, d, ds. rewrite E. split; [reflexivity | right; now split].
  - exists false, "0"%char, "". split; [reflexivity | left; now split].
  - destruct (Itoa_pos n Hn) as (d & ds & E & H1 & H2).
    exists false, d, ds. split; [assumption | right; now split].
Qed.

Lemma is_digit_not c x : is_digit c = true -> (byte x < 48 \/ 57 < byte x) -> Ascii.eqb c x = false.
Proof.
  intros Hd Hx. rewrite eqb_byte. apply Z.eqb_neq.
  unfold is_digit in Hd. apply andb_true_iff in Hd as [H1 H2].
  apply Z.leb_le in H1, H2. lia.
Qed.

Lemma is19_is_digit c : is19 c = true -> is_digit c = true.
Proof.
  unfold is19, is_digit. rewrite !andb_true_iff, !Z.leb_le. lia.
Qed.

Lemma ParseInt_Itoa n : - 2 ^ 63 <= n < 2 ^ 63 -> ParseInt (Itoa n) = Some n.
Proof.
  intros Hr. unfold ParseInt.
  assert (Hin : (- 2 ^ 63 <=? n) && (n <? 2 ^ 63) = true).
  { apply andb_true_iff. split; [apply Z.leb_le | apply Z.ltb_lt]; lia. }
  destruct (Z.lt_ge_cases n 0) as [Hn|Hn].
  - rewrite Itoa_neg by assumption. cbn [Ascii.eqb Bool.eqb].
    rewrite ParseDigits_digits by lia. cbn [option_map].
    rewrite Z.opp_involutive, Hin. reflexivity.
  - rewrite Itoa_nonneg by assumption.
    destruct (digits (fuel_of n) n "") as [|c s] eqn:E.
    { exfalso. unfold fuel_of in E. rewrite Nat.add_1_r in E.
      now apply digits_nonempty in E. }
    assert (Hc : is_digit c = true).
    { destruct (Z.eq_dec n 0) as [->|Hne].
      - cbn in E. now inversion E.
      - destruct (digits_shape (fuel_of n) n "") as (d & ds & E' & H1 & H2);
          [pose proof (fuel_enough n Hn); lia | reflexivity |].
        rewrite E in E'. inversion E'; subst. now apply is19_is_digit. }
    rewrite (is_digit_not c "+" Hc) by (left; vm_compute; reflexivity).
    rewrite (is_digit_not c "-" Hc) by (left; vm_compute; reflexivity).
    rewrite <- E, ParseDigits_digits by assumption. now rewrite Hin.
Qed.

Lemma ParseUint_Itoa n : 0 <= n < 2 ^ 64 -> ParseUint (Itoa n) = Some n.
Proof.
  intros Hr. unfold ParseUint. rewrite Itoa_nonneg by lia.
  rewrite ParseDigits_digits by lia.
  destruct (n <? 2 ^ 64) eqn:E; [reflexivity|]. apply Z.ltb_ge in E. lia.
Qed.

(** *** Simple names need no escaping *)

Lemma simple_char_range c :
  simple_char c = true ->
  48 <= byte c <= 57 \/ 65 <= byte c <= 90 \/ byte c = 95 \/ 97 <= byte c <= 122.
Proof.
  unfold simple_char, is_letter, is_digit.
  rewrite !orb_true_iff, !andb_true_iff, !Z.leb_le, eqb_byte, Z.eqb_eq.
  change (byte "_") with 95. lia.
Qed.

Ltac byte_tests :=
  repeat match goal with
         | |- context [?a =? ?b] =>
             first [rewrite (proj2 (Z.eqb_neq a b)) by lia
                   | rewrite (proj2 (Z.eqb_eq a b)) by lia]
         | |- context [?a <? ?b] =>
             first [rewrite (proj2 (Z.ltb_lt a b)) by lia
                   | rewrite (proj2 (Z.ltb_ge a b)) by lia]
         | |- context [?a <=? ?b] =>
             first [rewrite (proj2 (Z.leb_le a b)) by lia
                   | rewrite (proj2 (Z.leb_gt a b)) by lia]
         end.

Lemma appendString_body_simple s :
  all_chars simple_char s = true -> appendString_body 0 false s = s.
Proof.
  induction s as [|c s IH]; [reflexivity|].
  cbn [all_chars]. rewrite andb_true_iff. intros [Hc Hs].
  apply simple_char_range in Hc. cbn [appendString_body].
  byte_tests. cbn [orb]. rewrite (IH Hs). reflexivity.
Qed.

Lemma appendString_simple s :
  all_chars simple_char s = true -> appendString s = String dquote (s ++ String dquote "").
Proof. intros H. unfold appendString. now rewrite (appendString_body_simple s H). Qed.

Lemma unquote_body_simple s :
  all_chars simple_char s = true -> unquote_body 0 s = s.
Proof.
  induction s as [|c s IH]; [reflexivity|].
  cbn [all_chars]. rewrite andb_true_iff. intros [Hc Hs].
  apply simple_char_range in Hc. cbn [unquote_body].
  rewrite eqb_byte. change (byte "\") with 92.
  byte_tests. rewrite (IH Hs). reflexivity.
Qed.

Lemma drop_last_snoc s c : drop_last (s ++ String c "") = s.
Proof.
  induction s as [|x s IH]; [reflexivity|].
  change (String x s ++ String c "") with (String x (s ++ String c "")).
  cbn [drop_last]. rewrite IH.
  destruct s; reflexivity.
Qed.

Lemma unquote_appendString s :
  all_chars simple_char s = true -> unquote (appendString s) = s.
Proof.
  intros H. rewrite (appendString_simple s H). cbn [unquote].
  rewrite drop_last_snoc. now apply unquote_body_simple.
Qed.

(** *** Looking a field up by its own name *)

Lemma distinct_middle l1 x l2 :
  distinct (l1 ++ x :: l2) = true -> Forall (fun y => y <> x) l1.
Proof.
  induction l1 as [|y l1 IH]; [constructor|].
  cbn [app distinct]. rewrite andb_true_iff, negb_true_iff. intros [H1 H2].
  constructor; [|now apply IH].
  intros ->. rewrite existsb_app in H1. cbn [existsb] in H1.
  rewrite String.eqb_refl in H1. rewrite orb_true_r in H1. discriminate.
Qed.

Lemma find_by_middle name pre f suf i0 :
  f_name f = name ->
  Forall (fun o => name_of o <> name) pre -> Forall (fun o => kept o = true) pre ->
  find_by (fun g => String.eqb (f_name g) name) i0 (pre ++ Some f :: suf)
  = Some ((i0 + length pre)%nat, f).
Proof.
  intros Hf Hpre Hk. revert i0. induction Hpre as [|o pre Ho _ IH]; intros i0.
  - cbn. rewrite Hf, String.eqb_refl. do 2 f_equal. lia.
  - inversion Hk as [|? ? Hko Hkpre]; subst.
    destruct o as [g|]; [|discriminate]. cbn [app find_by].
    cbn in Ho. destruct (String.eqb (f_name g) (f_name f)) eqn:E.
    + apply String.eqb_eq in E. contradiction.
    + rewrite (IH Hkpre). do 2 f_equal. cbn [length]. lia.
Qed.

Lemma lookup_middle pre f suf :
  distinct (List.map name_of (pre ++ Some f :: suf)) = true ->
  Forall (fun o => kept o = true) pre ->
  lookup (pre ++ Some f :: suf) (f_name f) = Some (length pre, f).
Proof.
  intros Hd Hk. unfold lookup.
  rewrite (find_by_middle (f_name f) pre f suf 0 eq_refl); [reflexivity| |assumption].
  rewrite map_app in Hd. cbn [List.map name_of] in Hd.
  apply distinct_middle in Hd. clear Hk.
  induction pre as [|o pre IH]; [constructor|].
  cbn [List.map] in Hd. inversion Hd; subst. constructor; auto.
Qed.

(** *** The fields of a plain struct, aligned with the values *)

Lemma kept_Some o : kept o = true -> exists f, o = Some f.
Proof. destruct o; [eauto | discriminate]. Qed.

Lemma typeFields_length fs : length (typeFields fs) = length fs.
Proof. unfold typeFields. now rewrite !length_map. Qed.

Lemma struct_aligned (A : gotype -> Prop) (B : gotype -> value -> Prop)
    (fs : list (string * string * gotype)) vs :
  forallb kept (typeFields fs) = true ->
  Forall (fun sf => A (snd sf)) fs ->
  Forall2 (fun sf x => B (snd sf) x) fs vs ->
  Forall2 (aligned (fun t x => A t /\ B t x)) (typeFields fs) vs.
Proof.
  intros Hk HA HB. apply Forall2_same_length_lookup_2.
  - rewrite typeFields_length. eapply Forall2_length, HB.
  - intros i o x Ho Hx.
    assert (Hko : kept o = true).
    { rewrite forallb_forall in Hk. apply Hk. apply list_elem_of_In.
      eapply list_elem_of_lookup_2, Ho. }
    destruct (kept_Some o Hko) as [f ->].
    destruct (typeFields_type fs i f Ho) as (sf & Hsf & Ht).
    exists f. repeat split; [assumption| |]; rewrite <- Ht.
    + eapply Forall_lookup_1 in HA; [exact HA | exact Hsf].
    + eapply Forall2_lookup_lr in HB; [exact HB | exact Hsf | exact Hx].
Qed.

Lemma plain_canon_aligned (A : gotype -> Prop) pkg name fs vs :
  plain (TStruct pkg name fs) = true -> canon (TStruct pkg name fs) (VStruct vs) ->
  Forall (fun sf => A (snd sf)) fs ->
  Forall2 (aligned (fun t x => (plain t = true /\ A t) /\ canon t x)) (typeFields fs) vs.
Proof.
  intros Hp Hc HA. apply plain_struct in Hp as (Hk & _ & Hall).
  apply canon_struct in Hc. apply struct_aligned; [assumption| |assumption].
  rewrite Forall_forall in Hall, HA |- *. intros sf Hsf. split; auto.
Qed.

(** *** What the encoder writes for plain values *)

Lemma join_parts_inl first ss :
  join_parts first (List.map inl ss) = inl (items first ss).
Proof.
  revert first. induction ss as [|s ss IH]; intros first; [reflexivity|].
  cbn [List.map join_parts items]. now rewrite IH.
Qed.

Lemma text_of t v s : encodeValue t v = inl s -> text t v = s.
Proof. intros H. unfold text. now rewrite H. Qed.

Lemma struct_parts_texts tfs vs :
  Forall2 (aligned (fun t x => encodeValue t x = inl (text t x))) tfs vs ->
  struct_parts encodeValue tfs vs = List.map inl (member_texts text tfs vs).
Proof.
  induction 1 as [|o x tfs vs (f & -> & Hk & He) _ IH]; [reflexivity|].
  cbn [struct_parts member_texts List.map].
  cbn in Hk. apply andb_true_iff in Hk as [_ Hk]. apply negb_true_iff in Hk.
  rewrite Hk, He, IH. reflexivity.
Qed.

Lemma encode_slice e l :
  Forall (fun x => encodeValue e x = inl (text e x)) l ->
  encodeValue (TSlice e) (VSlice (Some l))
  = inl ("[" ++ items true (List.map (text e) l) ++ "]").
Proof.
  intros H. cbn [encodeValue].
  assert (E : List.map (encodeValue e) l = List.map inl (List.map (text e) l)).
  { induction H as [|x l Hx _ IH]; [reflexivity|]. cbn [List.map]. now rewrite Hx, IH. }
  rewrite E, join_parts_inl. reflexivity.
Qed.

Lemma encode_struct pkg name fs vs :
  Forall2 (aligned (fun t x => encodeValue t x = inl (text t x))) (typeFields fs) vs ->
  encodeValue (TStruct pkg name fs) (VStruct vs)
  = inl ("{" ++ items true (member_texts text (typeFields fs) vs) ++ "}").
Proof.
  intros H. cbn [encodeValue]. rewrite (struct_parts_texts _ _ H), join_parts_inl.
  reflexivity.
Qed.

Lemma Forall2_aligned_impl (P Q : gotype -> value -> Prop) tfs vs :
  (forall t x, P t x -> Q t x) ->
  Forall2 (aligned P) tfs vs -> Forall2 (aligned Q) tfs vs.
Proof.
  intros HPQ H. induction H as [|o x tfs vs (f & -> & Hk & Hp) _ IH]; constructor;
    [|assumption].
  exists f. repeat split; auto.
Qed.

Theorem encode_plain t :
  plain t = true -> forall v, canon t v -> encodeValue t v = inl (text t v).
Proof.
  induction t as [ | | | | | | | | e IHe | e IHe | | pkg name fs IHfs | | ] using gotype_ind';
    intros Hp v Hc; try discriminate;
    destruct v as [ | | | | | |p|l|m|vs| | ]; try contradiction.
  all: try (unfold text; cbn; reflexivity).
  - destruct p as [x|]; [|reflexivity].
    destruct Hc as [Hc _]. specialize (IHe Hp x Hc).
    unfold text. cbn [encodeValue]. now rewrite IHe.
  - destruct l as [l|]; [|reflexivity].
    cbn [canon] in Hc.
    assert (H : Forall (fun x => encodeValue e x = inl (text e x)) l).
    { eapply Forall_impl; [exact Hc|]. intros x Hx. now apply IHe. }
    rewrite (encode_slice e l H). symmetry. f_equal. apply text_of, encode_slice, H.
  - pose proof (plain_canon_aligned
                  (fun t => plain t = true ->
                            forall v, canon t v -> encodeValue t v = inl (text t v))
                  pkg name fs vs Hp Hc IHfs) as Ha.
    assert (H : Forall2 (aligned (fun t x => encodeValue t x = inl (text t x)))
                        (typeFields fs) vs).
    { eapply Forall2_aligned_impl; [|exact Ha]. intros t x [[Hpt Hi] Hcx]. now apply Hi. }
    rewrite (encode_struct pkg name fs vs H). symmetry. f_equal.
    apply text_of, encode_struct, H.
Qed.

Lemma text_slice e l :
  plain e = true -> Forall (canon e) l ->
  text (TSlice e) (VSlice (Some l)) = "[" ++ items true (List.map (text e) l) ++ "]".
Proof.
  intros Hp Hc. apply text_of, encode_slice.
  eapply Forall_impl; [exact Hc|]. intros x Hx. now apply encode_plain.
Qed.

Lemma text_struct pkg name fs vs :
  plain (TStruct pkg name fs) = true -> canon (TStruct pkg name fs) (VStruct vs) ->
  text (TStruct pkg name fs) (VStruct vs)
  = "{" ++ items true (member_texts text (typeFields fs) vs) ++ "}".
Proof.
  intros Hp Hc. apply text_of, encode_struct.
  pose proof (plain_canon_aligned (fun _ => True) pkg name fs vs Hp Hc) as Ha.
  eapply Forall2_aligned_impl; [|apply Ha].
  - intros t x [[Hpt _] Hcx]. now apply encode_plain.
  - rewrite Forall_forall. auto.
Qed.

Lemma text_pointer e x : text (TPointer e) (VPointer (Some x)) = text e x.
Proof. reflexivity. Qed.

(** *** Decoding the text of a number *)

Lemma number_first_char s :
  number_text s ->
  let c := first_char s in
  Ascii.eqb c "n" = false /\ Ascii.eqb c "t" = false /\ Ascii.eqb c "f" = false
  /\ Ascii.eqb c dquote = false.
Proof.
  intros (neg & d & ds & -> & Hd). destruct neg; cbn [first_char].
  - cbv zeta. repeat split; reflexivity.
  - assert (Hdig : is_digit d = true).
    { destruct Hd as [[-> _]|[H _]]; [reflexivity | now apply is19_is_digit]. }
    cbv zeta. repeat split; apply (is_digit_not _ _ Hdig);
      first [left; vm_compute; reflexivity | right; vm_compute; reflexivity].
Qed.

Lemma literalStore_number ctx s t v saved :
  number_text s ->
  literalStore ctx s t v saved
  = match t with
    | TInterface =>
        match float.ParseFloat s with
        | Some f => (VInterface (Some (TFloat64, VFloat64 f)), saved)
        | None => (v, saveError ctx (UnmarshalTypeError ("number " ++ s) TFloat64 "" "") saved)
        end
    | TInt | TInt64 =>
        match ParseInt s with
        | Some n => (VInt n, saved)
        | None => (v, saveError ctx (UnmarshalTypeError ("number " ++ s) t "" "") saved)
        end
    | TUint =>
        match ParseUint s with
        | Some n => (VInt n, saved)
        | None => (v, saveError ctx (UnmarshalTypeError ("number " ++ s) t "" "") saved)
        end
    | TFloat64 =>
        match float.ParseFloat s with
        | Some f => (VFloat64 f, saved)
        | None => (v, saveError ctx (UnmarshalTypeError ("number " ++ s) t "" "") saved)
        end
    | _ => (v, saveError ctx (UnmarshalTypeError "number" t "" "") saved)
    end.
Proof.
  intros H. apply number_first_char in H as (H1 & H2 & H3 & H4). cbv zeta in *.
  unfold literalStore. rewrite H1, H2, H3, H4. reflexivity.
Qed.

Lemma text_int t n : text t (VInt n) = Itoa n.
Proof. reflexivity. Qed.

Lemma decode_int ctx t n :
  (t = TInt \/ t = TInt64 \/ t = TUint) -> canon t (VInt n) ->
  decodeValue (Lit (Itoa n)) ctx true t (zero t) None = (VInt n, None).
Proof.
  intros Ht Hc. rewrite decodeValue_unfold.
  pose proof (Itoa_number_text n) as Hn.
  pose proof (number_first_char _ Hn) as (H1 & _). cbv zeta in H1.
  cbn [is_null]. rewrite H1.
  destruct Ht as [ -> | [ -> | -> ] ]; cbn [indirect zero store];
    rewrite (literalStore_number _ _ _ _ _ Hn); cbn [canon] in Hc.
  - now rewrite ParseInt_Itoa.
  - now rewrite ParseInt_Itoa.
  - now rewrite ParseUint_Itoa.
Qed.

(** *** The tree of a value that is not nil is not the null literal *)

Lemma tree_not_null t :
  plain t = true -> forall v, canon t v -> nonnull v -> is_null (tree t v) = false.
Proof.
  induction t as [ | | | | | | | | e IHe | e IHe | | pkg name fs IHfs | | ] using gotype_ind';
    intros Hp v Hc Hn; try discriminate;
    destruct v as [b|n| | | | |p|l|m|vs| | ]; try contradiction.
  - destruct b; reflexivity.
  - cbn [tree is_null]. rewrite text_int. apply (number_first_char _ (Itoa_number_text n)).
  - cbn [tree is_null]. rewrite text_int. apply (number_first_char _ (Itoa_number_text n)).
  - cbn [tree is_null]. rewrite text_int. apply (number_first_char _ (Itoa_number_text n)).
  - destruct p as [x|]; [|contradiction]. destruct Hc as [Hc Hx].
    cbn [tree]. now apply IHe.
  - destruct l as [l|]; [|contradiction]. reflexivity.
  - reflexivity.
Qed.

(** *** Decoding the trees of the elements and of the members *)

Lemma array_tree ctx e l :
  Forall (decodes e) l ->
  array decodeValue ctx e (List.map (tree e) l) [] None = (l, None).
Proof.
  induction 1 as [|x l Hx _ IH]; [reflexivity|].
  cbn [List.map array hd tl]. rewrite (Hx ctx), IH. reflexivity.
Qed.

Lemma zeros_typeFields fs :
  forallb kept (typeFields fs) = true ->
  List.map (fun sf : string * string * gotype => zero (snd sf)) fs
  = List.map zero_of (typeFields fs).
Proof.
  intros Hk. apply list_eq. intros i. rewrite !lookup_map.
  destruct (typeFields fs !! i) as [o|] eqn:Ho.
  - assert (Hko : kept o = true).
    { rewrite forallb_forall in Hk. apply Hk. apply list_elem_of_In.
      eapply list_elem_of_lookup_2, Ho. }
    destruct (kept_Some o Hko) as [f ->].
    destruct (typeFields_type fs i f Ho) as (sf & Hsf & Ht).
    rewrite Hsf. cbn. now rewrite Ht.
  - apply lookup_ge_None in Ho. rewrite typeFields_length in Ho.
    apply lookup_ge_None in Ho. now rewrite Ho.
Qed.

Lemma kept_simple f : kept (Some f) = true -> all_chars simple_char (f_name f) = true.
Proof.
  cbn. unfold simple_name. rewrite !andb_true_iff. tauto.
Qed.

Lemma object_struct_tree ctx name (tfs tfs_suf : list (option field)) :
  forall (tfs_pre : list (option field)) (vs_suf pre : list value),
    tfs = (tfs_pre ++ tfs_suf)%list ->
    distinct (List.map name_of tfs) = true ->
    Forall (fun o => kept o = true) tfs_pre ->
    length pre = length tfs_pre ->
    Forall2 (aligned decodes) tfs_suf vs_suf ->
    object_struct decodeValue ctx name tfs (member_trees tree tfs_suf vs_suf)
                  (pre ++ List.map zero_of tfs_suf)%list None
    = ((pre ++ vs_suf)%list, None).
Proof.
  induction tfs_suf as [|o tfs' IH]; intros tfs_pre vs_suf pre Htfs Hd Hk Hlen Ha.
  - inversion Ha; subst. reflexivity.
  - inversion Ha as [|? x ? vs' (f & -> & Hkf & Hdec) Hrest]; subst.
    cbn [member_trees object_struct List.map zero_of].
    rewrite (unquote_appendString _ (kept_simple f Hkf)).
    rewrite (lookup_middle tfs_pre f tfs' Hd Hk).
    rewrite <- Hlen. rewrite nth_middle. rewrite Hdec.
    unfold set_nth.
    replace (length pre) with (length pre + 0)%nat by lia.
    rewrite insert_app_r. cbn [insert list_insert].
    specialize (IH (tfs_pre ++ [Some f])%list vs' (pre ++ [x])%list).
    rewrite <- !app_assoc in IH. cbn [app] in IH. apply IH; try assumption.
    + reflexivity.
    + apply Forall_app. split; [assumption|]. now constructor.
    + rewrite !length_app. cbn. lia.
Qed.

Theorem decode_tree t :
  plain t = true -> forall v, canon t v -> decodes t v.
Proof.
  induction t as [ | | | | | | | | e IHe | e IHe | | pkg name fs IHfs | | ] using gotype_ind';
    intros Hp v Hc ctx; try discriminate;
    destruct v as [b|n| | | | |p|l|m|vs| | ]; try contradiction.
  - destruct b; reflexivity.
  - cbn [tree]. rewrite text_int. apply decode_int; auto.
  - cbn [tree]. rewrite text_int. apply decode_int; auto.
  - cbn [tree]. rewrite text_int. apply decode_int; auto.
  - destruct p as [x|]; [|reflexivity].
    destruct Hc as [Hc Hx]. cbn [tree zero].
    rewrite (decodeValue_pointer _ _ _ _ _ (tree_not_null e Hp x Hc Hx)).
    cbn [default from_option id]. now rewrite (IHe Hp x Hc ctx).
  - destruct l as [l|]; [|reflexivity].
    cbn [tree zero]. rewrite decodeValue_unfold. cbn [is_null indirect store].
    rewrite array_tree; [reflexivity|].
    cbn [canon] in Hc. eapply Forall_impl; [exact Hc|]. intros x Hx. now apply IHe.
  - cbn [tree zero]. rewrite decodeValue_unfold. cbn [is_null indirect store].
    pose proof (plain_struct _ _ _ Hp) as (Hk & Hd & Hall).
    rewrite (zeros_typeFields fs Hk).
    pose proof (plain_canon_aligned
                  (fun t => plain t = true -> forall v, canon t v -> decodes t v)
                  pkg name fs vs Hp Hc IHfs) as Ha.
    assert (Hdec : Forall2 (aligned decodes) (typeFields fs) vs).
    { eapply Forall2_aligned_impl; [|exact Ha]. intros t x [[Hpt Hi] Hcx]. now apply Hi. }
    pose proof (object_struct_tree ctx name (typeFields fs) (typeFields fs) [] vs []
                  eq_refl Hd (List.Forall_nil _) eq_refl Hdec) as E.
    cbn [app] in E. rewrite E. reflexivity.
Qed.

(** *** Scanning the text of a value *)

Lemma append_String c a b : String c a ++ b = String c (a ++ b).
Proof. reflexivity. Qed.

Lemma append_nil b : "" ++ b = b.
Proof. reflexivity. Qed.

Lemma add_raws_nil fs : add_raws "" fs = fs.
Proof.
  unfold add_raws. induction fs as [|[r k p es ms] fs IH]; [reflexivity|].
  cbn [List.map raw key pending elems members]. now rewrite append_empty, IH.
Qed.

Lemma add_raws_app w1 w2 fs : add_raws w2 (add_raws w1 fs) = add_raws (w1 ++ w2) fs.
Proof.
  unfold add_raws. rewrite List.map_map. apply List.map_ext. intros [r k p es ms].
  cbn [raw key pending elems members]. now rewrite append_assoc.
Qed.

Lemma add_raw_one c fs : add_raw c fs = add_raws (String c "") fs.
Proof. reflexivity. Qed.

Lemma add_raw_raws c w fs : add_raw c (add_raws w fs) = add_raws (w ++ String c "") fs.
Proof. rewrite add_raw_one. apply add_raws_app. Qed.

Lemma run_step f ps n b c rest s2 op :
  do_step (mk f ps None false (n + 1)) c = (s2, op) -> op <> scanError ->
  run (mk f ps None false n) b (String c rest) = run s2 (feed op c b) rest.
Proof.
  intros H Hop. cbn [run step parseState err endTop bytes]. rewrite H.
  destruct op; try reflexivity; congruence.
Qed.

Lemma run_begin f f' ps n fs tp c rest :
  do_step (mk f ps None false (n + 1)) c = (mk f' ps None false (n + 1), scanBeginLiteral) ->
  run (mk f ps None false n) (mkBuilder None fs tp) (String c rest)
  = run (mk f' ps None false (n + 1))
        (mkBuilder (Some (String c "")) (add_raws (String c "") fs) tp) rest.
Proof. intros H. rewrite (run_step _ _ _ _ _ _ _ _ H) by discriminate. reflexivity. Qed.

Lemma run_continue f f' ps n w fs tp c rest :
  do_step (mk f ps None false (n + 1)) c = (mk f' ps None false (n + 1), scanContinue) ->
  run (mk f ps None false n) (mkBuilder (Some w) (add_raws w fs) tp) (String c rest)
  = run (mk f' ps None false (n + 1))
        (mkBuilder (Some (w ++ String c "")) (add_raws (w ++ String c "") fs) tp) rest.
Proof.
  intros H. rewrite (run_step _ _ _ _ _ _ _ _ H) by discriminate.
  cbn [feed lit frames top option_map]. now rewrite add_raw_raws.
Qed.

(** A literal is delivered when the byte after it arrives; the scanner
    is then where the end of a value leaves it. *)
Lemma pending_done f ps n w fs tp rest :
  f = stateEndValue \/ f = state0 \/ f = state1 ->
  follows ps rest ->
  run (mk f ps None false n) (mkBuilder (Some w) (add_raws w fs) tp) rest
  = run (mk stateEndValue ps None false n)
        (deliver (Lit w) (mkBuilder None (add_raws w fs) tp)) rest.
Proof.
  intros Hf Hr. destruct ps as [|p ps]; cbn [follows] in Hr.
  - subst rest. destruct fs; destruct Hf as [->|[->| ->]]; reflexivity.
  - destruct Hr as (d & rest' & -> & Hd). unfold delim in Hd.
    rewrite !orb_true_iff, !Ascii.eqb_eq in Hd.
    destruct fs; destruct Hf as [->|[->| ->]]; destruct Hd as [[->| ->]| ->]; destruct p;
      reflexivity.
Qed.

Lemma run_closed f p ps n b rest :
  follows ps rest ->
  run (popParseState (mk f (p :: ps) None false n)) b rest
  = run (mk stateEndValue ps None false n) b rest.
Proof.
  intros Hr. destruct ps as [|p' ps]; cbn [follows] in Hr; [|reflexivity].
  subst rest. reflexivity.
Qed.

Lemma scans_true : scans_literal "true".
Proof.
  intros f ps n fs tp rest Hf Hr. eexists.
  rewrite !append_String, append_nil.
  rewrite (run_begin f stateT) by (destruct Hf as [->| ->]; reflexivity).
  rewrite (run_continue stateT stateTr) by reflexivity.
  rewrite (run_continue stateTr stateTru) by reflexivity.
  rewrite (run_continue stateTru stateEndValue) by reflexivity.
  apply pending_done; auto.
Qed.

Lemma scans_false : scans_literal "false".
Proof.
  intros f ps n fs tp rest Hf Hr. eexists.
  rewrite !append_String, append_nil.
  rewrite (run_begin f stateF) by (destruct Hf as [->| ->]; reflexivity).
  rewrite (run_continue stateF stateFa) by reflexivity.
  rewrite (run_continue stateFa stateFal) by reflexivity.
  rewrite (run_continue stateFal stateFals) by reflexivity.
  rewrite (run_continue stateFals stateEndValue) by reflexivity.
  apply pending_done; auto.
Qed.

Lemma scans_null : scans_literal "null".
Proof.
  intros f ps n fs tp rest Hf Hr. eexists.
  rewrite !append_String, append_nil.
  rewrite (run_begin f stateN) by (destruct Hf as [->| ->]; reflexivity).
  rewrite (run_continue stateN stateNu) by reflexivity.
  rewrite (run_continue stateNu stateNul) by reflexivity.
  rewrite (run_continue stateNul stateEndValue) by reflexivity.
  apply pending_done; auto.
Qed.

Lemma is19_range c : is19 c = true -> 49 <= byte c <= 57.
Proof. unfold is19. rewrite andb_true_iff, !Z.leb_le. tauto. Qed.

Lemma is_digit_range c : is_digit c = true -> 48 <= byte c <= 57.
Proof. unfold is_digit. rewrite andb_true_iff, !Z.leb_le. tauto. Qed.

Lemma begin_19 f s c :
  begins f -> is19 c = true ->
  do_step (mk f (parseState s) (err s) (endTop s) (bytes s)) c
  = (with_step state1 s, scanBeginLiteral).
Proof.
  intros Hf Hc. pose proof (is19_range c Hc) as Hr.
  assert (E : forall x, (byte x < 49 \/ 57 < byte x) -> Ascii.eqb c x = false).
  { intros x Hx. rewrite eqb_byte. apply Z.eqb_neq. lia. }
  assert (Hb : do_stateBeginValue (mk f (parseState s) (err s) (endTop s) (bytes s)) c
               = (with_step state1 s, scanBeginLiteral)).
  { unfold do_stateBeginValue, isSpace.
    rewrite !E by (first [left; vm_compute; reflexivity | right; vm_compute; reflexivity]).
    cbn [orb]. rewrite Hc. reflexivity. }
  destruct Hf as [->| ->]; cbn [do_step step]; [exact Hb|].
  unfold do_stateBeginValueOrEmpty, isSpace.
  rewrite !E by (first [left; vm_compute; reflexivity | right; vm_compute; reflexivity]).
  cbn [orb]. exact Hb.
Qed.

Lemma state1_digit s c :
  is_digit c = true ->
  do_step (mk state1 (parseState s) (err s) (endTop s) (bytes s)) c
  = (with_step state1 s, scanContinue).
Proof. intros Hc. cbn [do_step step]. unfold do_state1. now rewrite Hc. Qed.

Lemma neg_19 s c :
  is19 c = true ->
  do_step (mk stateNeg (parseState s) (err s) (endTop s) (bytes s)) c
  = (with_step state1 s, scanContinue).
Proof.
  intros Hc. pose proof (is19_range c Hc) as Hr. cbn [do_step step]. unfold do_stateNeg.
  replace (Ascii.eqb c "0") with false.
  - now rewrite Hc.
  - symmetry. rewrite eqb_byte. apply Z.eqb_neq. change (byte "0") with 48. lia.
Qed.

Lemma run_digits ds : 
  all_digits ds = true ->
  forall ps n w fs tp rest,
  exists n',
    run (mk state1 ps None false n) (mkBuilder (Some w) (add_raws w fs) tp) (ds ++ rest)
    = run (mk state1 ps None false n') (mkBuilder (Some (w ++ ds)) (add_raws (w ++ ds) fs) tp) rest.
Proof.
  induction ds as [|c ds IH]; intros Hd ps n w fs tp rest.
  - exists n. now rewrite append_nil, append_empty.
  - cbn [all_digits] in Hd. apply andb_true_iff in Hd as [Hc Hd].
    rewrite append_String.
    rewrite (run_continue state1 state1)
      by exact (state1_digit (mk state1 ps None false (n + 1)) c Hc).
    destruct (IH Hd ps (n + 1) (w ++ String c "") fs tp rest) as [n' E].
    exists n'. rewrite E. now rewrite !append_assoc.
Qed.

Lemma scans_number w : number_text w -> scans_literal w.
Proof.
  intros (neg & c & ds & -> & Hs) f ps n fs tp rest Hf Hr.
  destruct neg.
  - rewrite !append_String.
    rewrite (run_begin f stateNeg) by (destruct Hf as [->| ->]; reflexivity).
    destruct Hs as [[-> ->]|[Hc Hd]].
    + rewrite (run_continue stateNeg state0) by reflexivity.
      eexists. rewrite append_nil. apply pending_done; auto.
    + rewrite (run_continue stateNeg state1)
        by exact (neg_19 (mk stateNeg ps None false (n + 1 + 1)) c Hc).
      destruct (run_digits ds Hd ps (n + 1 + 1) (String "-" "" ++ String c "") fs tp rest)
        as [n' E].
      exists n'. rewrite E. apply pending_done; auto.
  - rewrite !append_String.
    destruct Hs as [[-> ->]|[Hc Hd]].
    + rewrite (run_begin f state0) by (destruct Hf as [->| ->]; reflexivity).
      eexists. rewrite append_nil. apply pending_done; auto.
    + rewrite (run_begin f state1)
        by exact (begin_19 f (mk f ps None false (n + 1)) c Hf Hc).
      destruct (run_digits ds Hd ps (n + 1) (String c "") fs tp rest) as [n' E].
      exists n'. rewrite E. apply pending_done; auto.
Qed.

Lemma scans_of_literal t v :
  tree t v = Lit (text t v) -> scans_literal (text t v) -> scans t v.
Proof.
  intros Ht Hl f ps n fs tp rest Hf _ Hr. rewrite Ht. now apply Hl.
Qed.

Lemma items_false_follows p ps l close rest :
  delim close = true ->
  follows (p :: ps) (items false l ++ String close rest).
Proof.
  intros Hc. cbn [follows]. destruct l as [|s l].
  - exists close, rest. split; [reflexivity | assumption].
  - cbn [items]. rewrite !append_String. eexists _, _. split; reflexivity.
Qed.

Lemma nesting_nonneg t : 0 <= nesting t.
Proof.
  induction t as [ | | | | | | | | e IHe | e IHe | | pkg name fs IHfs | | ] using gotype_ind';
    cbn [nesting]; try lia.
  induction IHfs as [|sf fs Hsf _ IH]; lia.
Qed.

(** *** Arrays *)

Lemma array_loop e l :
  Forall (scans e) l ->
  forall ps n r k T es ms fs tp rest,
    Z.of_nat (length (parseArrayValue :: ps)) + nesting e <= maxNestingDepth ->
    exists n',
      run (mk stateEndValue (parseArrayValue :: ps) None false n)
          (mkBuilder None (mkFrame r k (Some T) es ms :: fs) tp)
          (items false (List.map (text e) l) ++ String "]" rest)
      = run (popParseState (mk stateEndValue (parseArrayValue :: ps) None false n'))
            (deliver (Arr (r ++ items false (List.map (text e) l) ++ "]")
                          (es ++ T :: List.map (tree e) l))
                     (mkBuilder None (add_raws (items false (List.map (text e) l) ++ "]") fs) tp))
            rest.
Proof.
  induction 1 as [|x l Hx _ IH]; intros ps n r k T es ms fs tp rest Hdepth.
  - exists (n + 1). cbn [List.map items]. rewrite !append_nil.
    erewrite run_step; [|reflexivity|discriminate]. reflexivity.
  - cbn [List.map items]. rewrite !append_assoc, !append_String, !append_nil.
    erewrite run_step; [|reflexivity|discriminate].
    unfold with_step.
    cbn [feed flush lit frames top add_raw List.map on_top raw key pending elems members
         close_elems step parseState err endTop bytes].
    fold (add_raw "," fs). rewrite add_raw_one.
    destruct (Hx stateBeginValue (parseArrayValue :: ps) (n + 1)
                 (mkFrame (snoc r ",") None None (es ++ [T]) ms :: add_raws "," fs) tp
                 (items false (List.map (text e) l) ++ String "]" rest)
                 (or_introl eq_refl) Hdepth
                 (items_false_follows _ _ _ "]" rest eq_refl)) as [n1 E1].
    rewrite E1. clear E1.
    cbn [add_raws List.map raw key pending elems members deliver frames lit top].
    fold (add_raws (text e x) (add_raws "," fs)).
    destruct (IH ps n1 (snoc r "," ++ text e x) None (tree e x) (es ++ [T])%list ms
                 (add_raws (text e x) (add_raws "," fs)) tp rest Hdepth) as [n2 E2].
    exists n2. rewrite E2. clear E2.
    rewrite !add_raws_app. unfold snoc. rewrite <- !app_assoc. cbn [app].
    rewrite !append_assoc, !append_String, !append_nil. reflexivity.
Qed.

Lemma depth_ok (p : pstate) ps (d : Z) :
  Z.of_nat (length ps) + (1 + d) <= maxNestingDepth -> 0 <= d ->
  (Z.of_nat (length (p :: ps)) <=? maxNestingDepth) = true
  /\ Z.of_nat (length (p :: ps)) + d <= maxNestingDepth.
Proof.
  intros H Hd. cbn [length]. rewrite Nat2Z.inj_succ. split; [apply Z.leb_le|]; lia.
Qed.

Lemma begin_array f ps n fs tp rest :
  begins f ->
  (Z.of_nat (length (parseArrayValue :: ps)) <=? maxNestingDepth) = true ->
  run (mk f ps None false n) (mkBuilder None fs tp) (String "[" rest)
  = run (mk stateBeginValueOrEmpty (parseArrayValue :: ps) None false (n + 1))
        (mkBuilder None (mkFrame "[" None None [] [] :: add_raws "[" fs) tp) rest.
Proof.
  intros Hf Hd.
  assert (E : do_step (mk f ps None false (n + 1)) "["
              = (mk stateBeginValueOrEmpty (parseArrayValue :: ps) None false (n + 1),
                 scanBeginArray)).
  { destruct Hf as [->| ->]; cbn [do_step step]; unfold do_stateBeginValueOrEmpty;
      cbn [isSpace Ascii.eqb Bool.eqb orb andb]; unfold do_stateBeginValue, pushParseState;
      cbn [isSpace Ascii.eqb Bool.eqb orb andb];
      unfold with_parseState, with_step; cbn [step parseState err endTop bytes];
      rewrite Hd; reflexivity. }
  rewrite (run_step _ _ _ _ _ _ _ _ E) by discriminate. reflexivity.
Qed.

Lemma scans_slice e l :
  plain e = true -> Forall (canon e) l -> Forall (scans e) l ->
  scans (TSlice e) (VSlice (Some l)).
Proof.
  intros Hp Hc Hs f ps n fs tp rest Hf Hdepth Hr.
  cbn [nesting] in Hdepth.
  destruct (depth_ok parseArrayValue ps (nesting e) Hdepth (nesting_nonneg e)) as [Hd1 Hd2].
  cbn [tree]. rewrite (text_slice e l Hp Hc).
  rewrite !append_String, !append_nil, !append_assoc, !append_String, !append_nil.
  rewrite (begin_array f ps n fs tp _ Hf Hd1).
  inversion Hs as [|x l' Hx Hl]; subst.
  - cbn [List.map items]. rewrite !append_nil.
    erewrite run_step; [|reflexivity|discriminate].
    exists (n + 1 + 1).
    rewrite run_closed by assumption.
    cbn [feed flush lit frames top add_raw List.map on_top raw key pending elems members
         close_elems].
    fold (add_raw "]" (add_raws "[" fs)). rewrite add_raw_raws. reflexivity.
  - cbn [List.map items]. rewrite !append_assoc.
    destruct (Hx stateBeginValueOrEmpty (parseArrayValue :: ps) (n + 1)
                 (mkFrame "[" None None [] [] :: add_raws "[" fs) tp
                 (items false (List.map (text e) l') ++ String "]" rest)
                 (or_intror eq_refl) Hd2
                 (items_false_follows _ _ _ "]" rest eq_refl)) as [n1 E1].
    rewrite E1. clear E1.
    cbn [add_raws List.map raw key pending elems members deliver frames lit top].
    fold (add_raws (text e x) (add_raws "[" fs)).
    destruct (array_loop e l' Hl ps n1 ("[" ++ text e x) None (tree e x) [] []
                 (add_raws (text e x) (add_raws "[" fs)) tp rest Hd2) as [n2 E2].
    exists n2. rewrite E2. clear E2.
    rewrite run_closed by assumption.
    rewrite !add_raws_app. cbn [app].
    rewrite !append_assoc, !append_String, !append_nil. reflexivity.
Qed.

(** *** Object keys *)

Lemma in_string_simple s c :
  simple_char c = true ->
  do_step (mk stateInString (parseState s) (err s) (endTop s) (bytes s)) c
  = (with_step stateInString s, scanContinue).
Proof.
  intros Hc. pose proof (simple_char_range c Hc) as Hr.
  cbn [do_step step]. unfold do_stateInString.
  rewrite !eqb_byte. change (byte dquote) with 34. change (byte "\") with 92.
  byte_tests. reflexivity.
Qed.

Lemma run_in_string name :
  all_chars simple_char name = true ->
  forall ps n w fs tp rest,
  exists n',
    run (mk stateInString ps None false n) (mkBuilder (Some w) (add_raws w fs) tp)
        (name ++ rest)
    = run (mk stateInString ps None false n')
          (mkBuilder (Some (w ++ name)) (add_raws (w ++ name) fs) tp) rest.
Proof.
  induction name as [|c name IH]; intros Hn ps n w fs tp rest.
  - exists n. now rewrite append_nil, append_empty.
  - cbn [all_chars] in Hn. apply andb_true_iff in Hn as [Hc Hn].
    rewrite append_String.
    rewrite (run_continue stateInString stateInString)
      by exact (in_string_simple (mk stateInString ps None false (n + 1)) c Hc).
    destruct (IH Hn ps (n + 1) (w ++ String c "") fs tp rest) as [n' E].
    exists n'. rewrite E. now rewrite !append_assoc.
Qed.

Lemma scan_key name f ps n r es ms fs tp rest :
  all_chars simple_char name = true ->
  f = stateBeginString \/ f = stateBeginStringOrEmpty ->
  exists n',
    run (mk f (parseObjectKey :: ps) None false n)
        (mkBuilder None (mkFrame r None None es ms :: fs) tp)
        (appendString name ++ String ":" rest)
    = run (mk stateBeginValue (parseObjectValue :: ps) None false n')
          (mkBuilder None
             (mkFrame (r ++ appendString name ++ ":") (Some (appendString name)) None es ms
              :: add_raws (appendString name ++ ":") fs) tp)
          rest.
Proof.
  intros Hn Hf. rewrite (appendString_simple name Hn).
  rewrite !append_String, !append_assoc, !append_String, !append_nil.
  rewrite (run_begin f stateInString) by (destruct Hf as [->| ->]; reflexivity).
  destruct (run_in_string name Hn (parseObjectKey :: ps) (n + 1) (String dquote "")
              (mkFrame r None None es ms :: fs) tp (String dquote (String ":" rest)))
    as [n1 E1].
  rewrite E1. clear E1.
  rewrite (run_continue stateInString stateEndValue) by reflexivity.
  erewrite run_step; [|reflexivity|discriminate].
  exists (n1 + 1 + 1). unfold with_step, replaceTop, with_parseState.
  cbn [feed flush lit frames top add_raws add_raw List.map on_top raw key pending elems
       members deliver option_map raw_of step parseState err endTop bytes].
  fold (add_raws ((String dquote "" ++ name) ++ String dquote "") fs).
  fold (add_raw ":" (add_raws ((String dquote "" ++ name) ++ String dquote "") fs)).
  rewrite add_raw_raws. unfold snoc.
  rewrite !append_assoc, !append_String, !append_nil. reflexivity.
Qed.

(** *** Objects *)

Lemma object_loop D tfs vs :
  Forall2 (aligned (fits D)) tfs vs ->
  forall ps n r k T es ms fs tp rest,
    Z.of_nat (length (parseObjectValue :: ps)) + D <= maxNestingDepth ->
    exists n',
      run (mk stateEndValue (parseObjectValue :: ps) None false n)
          (mkBuilder None (mkFrame r (Some k) (Some T) es ms :: fs) tp)
          (items false (member_texts text tfs vs) ++ String "}" rest)
      = run (popParseState (mk stateEndValue (parseObjectValue :: ps) None false n'))
            (deliver (Obj (r ++ items false (member_texts text tfs vs) ++ "}")
                          (ms ++ (k, T) :: member_trees tree tfs vs))
                     (mkBuilder None
                        (add_raws (items false (member_texts text tfs vs) ++ "}") fs) tp))
            rest.
Proof.
  induction 1 as [|o x tfs vs (fd & -> & Hk & Hx & Hn) _ IH];
    intros ps n r k T es ms fs tp rest Hdepth.
  - exists (n + 1). cbn [member_texts member_trees items]. rewrite !append_nil.
    erewrite run_step; [|reflexivity|discriminate]. reflexivity.
  - cbn [member_texts member_trees items].
    rewrite !append_assoc, !append_String, !append_nil.
    erewrite run_step; [|reflexivity|discriminate].
    unfold with_step, replaceTop, with_parseState.
    cbn [feed flush lit frames top add_raw List.map on_top raw key pending elems members
         close_members default from_option id step parseState err endTop bytes].
    fold (add_raw "," fs). rewrite add_raw_one.
    destruct (scan_key (f_name fd) stateBeginString ps (n + 1) (snoc r ",") es
                (ms ++ [(k, T)])%list (add_raws "," fs) tp
                (text (f_type fd) x ++ items false (member_texts text tfs vs)
                 ++ String "}" rest)
                (kept_simple fd Hk) (or_introl eq_refl)) as [n0 E0].
    rewrite E0. clear E0.
    assert (Hd' : Z.of_nat (length (parseObjectValue :: ps)) + nesting (f_type fd)
                  <= maxNestingDepth) by lia.
    destruct (Hx stateBeginValue (parseObjectValue :: ps) n0
                 (mkFrame (snoc r "," ++ appendString (f_name fd) ++ ":")
                          (Some (appendString (f_name fd))) None es (ms ++ [(k, T)])%list
                  :: add_raws (appendString (f_name fd) ++ ":") (add_raws "," fs)) tp
                 (items false (member_texts text tfs vs) ++ String "}" rest)
                 (or_introl eq_refl) Hd'
                 (items_false_follows _ _ _ "}" rest eq_refl)) as [n1 E1].
    rewrite E1. clear E1.
    cbn [add_raws List.map raw key pending elems members deliver frames lit top].
    fold (add_raws (text (f_type fd) x)
            (add_raws (appendString (f_name fd) ++ ":") (add_raws "," fs))).
    destruct (IH ps n1 ((snoc r "," ++ appendString (f_name fd) ++ ":") ++ text (f_type fd) x)
                 (appendString (f_name fd)) (tree (f_type fd) x) es (ms ++ [(k, T)])%list
                 (add_raws (text (f_type fd) x)
                    (add_raws (appendString (f_name fd) ++ ":") (add_raws "," fs)))
                 tp rest Hdepth) as [n2 E2].
    exists n2. rewrite E2. clear E2.
    rewrite !add_raws_app. unfold snoc. rewrite <- !app_assoc. cbn [app].
    rewrite !append_assoc, !append_String, !append_nil. reflexivity.
Qed.

Lemma begin_object f ps n fs tp rest :
  begins f ->
  (Z.of_nat (length (parseObjectKey :: ps)) <=? maxNestingDepth) = true ->
  run (mk f ps None false n) (mkBuilder None fs tp) (String "{" rest)
  = run (mk stateBeginStringOrEmpty (parseObjectKey :: ps) None false (n + 1))
        (mkBuilder None (mkFrame "{" None None [] [] :: add_raws "{" fs) tp) rest.
Proof.
  intros Hf Hd.
  assert (E : do_step (mk f ps None false (n + 1)) "{"
              = (mk stateBeginStringOrEmpty (parseObjectKey :: ps) None false (n + 1),
                 scanBeginObject)).
  { destruct Hf as [->| ->]; cbn [do_step step]; unfold do_stateBeginValueOrEmpty;
      cbn [isSpace Ascii.eqb Bool.eqb orb andb]; unfold do_stateBeginValue, pushParseState;
      cbn [isSpace Ascii.eqb Bool.eqb orb andb];
      unfold with_parseState, with_step; cbn [step parseState err endTop bytes];
      rewrite Hd; reflexivity. }
  rewrite (run_step _ _ _ _ _ _ _ _ E) by discriminate. reflexivity.
Qed.

Lemma scans_struct pkg name fs vs D :
  plain (TStruct pkg name fs) = true -> canon (TStruct pkg name fs) (VStruct vs) ->
  nesting (TStruct pkg name fs) = 1 + D -> 0 <= D ->
  Forall2 (aligned (fits D)) (typeFields fs) vs ->
  scans (TStruct pkg name fs) (VStruct vs).
Proof.
  intros Hp Hc HD HD0 Ha f ps n bfs tp rest Hf Hdepth Hr.
  rewrite HD in Hdepth.
  destruct (depth_ok parseObjectKey ps D Hdepth HD0) as [Hd1 Hd2].
  cbn [tree]. rewrite (text_struct pkg name fs vs Hp Hc).
  rewrite !append_String, !append_nil, !append_assoc, !append_String, !append_nil.
  rewrite (begin_object f ps n bfs tp _ Hf Hd1).
  inversion Ha as [|o x tfs' vs' (fd & -> & Hk & Hx & Hn) Hrest Ea Eb]; subst.
  - cbn [member_texts member_trees items]. rewrite !append_nil.
    erewrite run_step; [|reflexivity|discriminate].
    exists (n + 1 + 1).
    unfold replaceTop, with_parseState. cbn [step parseState err endTop bytes].
    rewrite run_closed by assumption.
    cbn [feed flush lit frames top add_raw List.map on_top raw key pending elems members
         close_members].
    fold (add_raw "}" (add_raws "{" bfs)). rewrite add_raw_raws. reflexivity.
  - cbn [member_texts member_trees items]. rewrite !append_assoc, !append_String, !append_nil.
    destruct (scan_key (f_name fd) stateBeginStringOrEmpty ps (n + 1) "{" [] []
                (add_raws "{" bfs) tp
                (text (f_type fd) x ++ items false (member_texts text tfs' vs')
                 ++ String "}" rest)
                (kept_simple fd Hk) (or_intror eq_refl)) as [n0 E0].
    rewrite E0. clear E0.
    assert (Hd' : Z.of_nat (length (parseObjectValue :: ps)) + nesting (f_type fd)
                  <= maxNestingDepth) by (cbn [length] in Hd2 |- *; lia).
    destruct (Hx stateBeginValue (parseObjectValue :: ps) n0
                 (mkFrame ("{" ++ appendString (f_name fd) ++ ":")
                          (Some (appendString (f_name fd))) None [] []
                  :: add_raws (appendString (f_name fd) ++ ":") (add_raws "{" bfs)) tp
                 (items false (member_texts text tfs' vs') ++ String "}" rest)
                 (or_introl eq_refl) Hd'
                 (items_false_follows _ _ _ "}" rest eq_refl)) as [n1 E1].
    rewrite E1. clear E1.
    cbn [add_raws List.map raw key pending elems members deliver frames lit top].
    fold (add_raws (text (f_type fd) x)
            (add_raws (appendString (f_name fd) ++ ":") (add_raws "{" bfs))).
    destruct (object_loop D tfs' vs' Hrest ps n1
                 (("{" ++ appendString (f_name fd) ++ ":") ++ text (f_type fd) x)
                 (appendString (f_name fd)) (tree (f_type fd) x) [] []
                 (add_raws (text (f_type fd) x)
                    (add_raws (appendString (f_name fd) ++ ":") (add_raws "{" bfs)))
                 tp rest ltac:(cbn [length] in Hd2 |- *; lia)) as [n2 E2].
    exists n2. rewrite E2. clear E2.
    rewrite run_closed by assumption.
    rewrite !add_raws_app. cbn [app].
    rewrite !append_assoc, !append_String, !append_nil. reflexivity.
Qed.

Lemma nesting_fields pkg name fs :
  Forall (fun sf : string * string * gotype =>
            nesting (snd sf) <= nesting (TStruct pkg name fs) - 1) fs.
Proof.
  cbn [nesting].
  match goal with |- Forall (fun sf => _ <= 1 + ?d fs - 1) fs => set (deepest := d) end.
  assert (H : Forall (fun sf : string * string * gotype => nesting (snd sf) <= deepest fs) fs).
  { unfold deepest. induction fs as [|sf fs IH]; constructor.
    - apply Z.le_max_l.
    - eapply Forall_impl; [exact IH|]. cbn beta. intros x Hx.
      etransitivity; [exact Hx | apply Z.le_max_r]. }
  eapply Forall_impl; [exact H|]. cbn beta. intros; lia.
Qed.

Lemma nesting_struct_pos pkg name fs : 1 <= nesting (TStruct pkg name fs).
Proof.
  cbn [nesting].
  match goal with |- 1 <= 1 + ?d fs => assert (H : 0 <= d fs); [|lia] end.
  induction fs as [|sf fs IH]; [lia|].
  etransitivity; [exact IH | apply Z.le_max_r].
Qed.

Theorem scans_plain t :
  plain t = true -> forall v, canon t v -> scans t v.
Proof.
  induction t as [ | | | | | | | | e IHe | e IHe | | pkg name fs IHfs | | ] using gotype_ind';
    intros Hp v Hc; try discriminate;
    destruct v as [b|n| | | | |p|l|m|vs| | ]; try contradiction.
  - apply scans_of_literal; [reflexivity|].
    destruct b; [apply scans_true | apply scans_false].
  - apply scans_of_literal; [reflexivity|]. rewrite text_int.
    apply scans_number, Itoa_number_text.
  - apply scans_of_literal; [reflexivity|]. rewrite text_int.
    apply scans_number, Itoa_number_text.
  - apply scans_of_literal; [reflexivity|]. rewrite text_int.
    apply scans_number, Itoa_number_text.
  - destruct p as [x|].
    + destruct Hc as [Hc Hx]. intros f ps n fs tp rest Hf Hd Hr.
      cbn [tree]. rewrite text_pointer. now apply IHe.
    + apply scans_of_literal; [reflexivity|]. apply scans_null.
  - destruct l as [l|].
    + cbn [canon] in Hc. apply scans_slice; try assumption.
      eapply Forall_impl; [exact Hc|]. intros x Hx. now apply IHe.
    + apply scans_of_literal; [reflexivity|]. apply scans_null.
  - pose proof (nesting_struct_pos pkg name fs) as Hn0.
    apply (scans_struct pkg name fs vs (nesting (TStruct pkg name fs) - 1));
      try assumption; try lia.
    assert (HA : Forall (fun sf : string * string * gotype =>
                             (plain (snd sf) = true -> forall v, canon (snd sf) v -> scans (snd sf) v)
                             /\ nesting (snd sf) <= nesting (TStruct pkg name fs) - 1) fs).
    { pose proof (nesting_fields pkg name fs) as Hn.
      rewrite Forall_forall in IHfs, Hn |- *. intros sf Hsf. split; auto. }
    pose proof (plain_canon_aligned
                  (fun t => (plain t = true -> forall v, canon t v -> scans t v)
                            /\ nesting t <= nesting (TStruct pkg name fs) - 1)
                  pkg name fs vs Hp Hc HA) as Ha.
    eapply Forall2_aligned_impl; [|exact Ha].
    intros t x [[Hpt [Hi Hn]] Hcx]. split; [now apply Hi | exact Hn].
Qed.

Theorem scan_text t v :
  plain t = true -> canon t v -> nesting t <= maxNestingDepth ->
  scan (text t v) = inl (tree t v).
Proof.
  intros Hp Hc Hn.
  destruct (scans_plain t Hp v Hc stateBeginValue [] 0 [] None ""
              (or_introl eq_refl) ltac:(cbn [length]; lia) eq_refl) as [n E].
  rewrite append_empty in E. unfold scan, reset, empty. rewrite E. reflexivity.
Qed.

(** [json.Unmarshal] hands the decoder what its pointer argument points to. *)
Lemma decodeValue_top j ctx t x saved :
  decodeValue j ctx false (TPointer t) (VPointer (Some x)) saved
  = let '(r, s) := decodeValue j ctx true t x saved in (VPointer (Some r), s).
Proof.
  rewrite !decodeValue_unfold. cbn [indirect]. rewrite andb_false_r.
  destruct (indirect (is_null j) true t x) as [ws [t' v']].
  destruct (store decodeValue j ctx t' v' saved) as [r s]. reflexivity.
Qed.

Lemma Unmarshal_plain_canon T data v :
  plain T = true ->
  Unmarshal data (pointer_to T (zero T)) = (pointer_to T v, None) ->
  canon T v.
Proof.
  intros Hp. unfold Unmarshal, pointer_to.
  destruct (scan data) as [j|e]; [|discriminate].
  rewrite decodeValue_top.
  destruct (decodeValue j (mkContext None []) true T (zero T) None) as [r s] eqn:E.
  intros [= -> ->].
  exact (proj1 (decodeValue_sound j T (zero T) _ v Hp (zero_canon T Hp) E)).
Qed.

Lemma Unmarshal_text T v :
  plain T = true -> canon T v -> nesting T <= maxNestingDepth ->
  Unmarshal (text T v) (pointer_to T (zero T)) = (pointer_to T v, None).
Proof.
  intros Hp Hc Hn. unfold Unmarshal, pointer_to.
  rewrite (scan_text T v Hp Hc Hn), decodeValue_top.
  now rewrite (decode_tree T Hp v Hc).
Qed.

(** C9, amended.  For a destination type built from booleans, [int],
    [int64], [uint], pointers, slices and structs all of whose fields the
    codec keeps, under distinct names of letters, digits and underscores
    and without [omitempty], and nested no deeper than the scanner allows:
    when [GetMetadata] decodes the metadata into a zero destination and
    returns nil, [json.Marshal] of the destination succeeds, and
    [json.Unmarshal] of its output into a zero destination of the same
    type gives the same value again, field for field. *)
Theorem GetMetadata_reencoding_decodes_back (T : gotype) (p p' : Process) (v : value) :
  plain T = true -> nesting T <= maxNestingDepth ->
  @GetMetadata encoding_json (pointer_to T (zero T)) p = Returns (pointer_to T v, None) p' ->
  exists text : string,
    json_Marshal (Some (T, v)) = (text, None)
    /\ json_Unmarshal text (pointer_to T (zero T)) = (pointer_to T v, None).
Proof.
  intros Hp Hn H.
  destruct (GetMetadata_Returns p p' _ _ H) as (a & obj & _ & _ & Hu).
  pose proof (Unmarshal_plain_canon T _ v Hp Hu) as Hc.
  exists (text T v). split.
  - cbn [json_Marshal encoding_json]. unfold Marshal. now rewrite (encode_plain T Hp v Hc).
  - now apply Unmarshal_text.
Qed.

Lemma GetMetadata_reencoding_decodes_back_witness :
  exists text : string,
    json_Marshal (Some (Meta, VStruct [VInt 5])) = (text, None)
    /\ json_Unmarshal text (pointer_to Meta (zero Meta))
       = (pointer_to Meta (VStruct [VInt 5]), None).
Proof.
  apply (GetMetadata_reencoding_decodes_back Meta (started ["action"; payload])
           (parsed_state (started ["action"; payload]) decoded_payload) (VStruct [VInt 5])).
  - reflexivity.
  - vm_compute. discriminate.
  - vm_compute. reflexivity.
Defined.

End roundtrip_facts.

(* ===================================================================== *)
(** * Further properties of the five functions *)
(* ===================================================================== *)

(** ** How the calls end and what they touch *)

Section Extra_facts.
Context {json : JSON}.

Lemma GetArgs_cases (p : Process) :
  (exists a, args p = Some a /\ GetArgs p = Returns (Some a, None) p)
  \/ (args p = None /\ (length (os_Args p) < 2)%nat
      /\ GetArgs p = Returns (None, Some (errorString "no arguments present")) p)
  \/ (exists arg1, args p = None /\ os_Args p !! 1%nat = Some arg1
      /\ GetArgs p
         = let r := json_Unmarshal arg1 (pointer_to Args (zero Args)) in
           Returns
             match snd r with
             | Some e => (None, Some (errorString ("unable to parse arguments: " ++ Error e)))
             | None => (Some (length (heap p)), None)
             end
             (parsed_state p (stored (fst r)))).
Proof.
  destruct (args p) as [a|] eqn:Ha.
  - left. exists a. split; [reflexivity|]. now apply GetArgs_cached.
  - right. destruct (os_Args p !! 1%nat) as [arg1|] eqn:Harg.
    + right. exists arg1. repeat split. now apply GetArgs_uncached.
    + left. apply lookup_ge_None in Harg. repeat split; [lia|].
      apply GetArgs_missing; [assumption | lia].
Qed.

Lemma GetMetadata_final (p : Process) (dest : iface) :
  final (GetMetadata dest p) = final (GetArgs p).
Proof.
  unfold GetMetadata, mbind, M_bind.
  destruct (GetArgs p) as [[r [e|]] q| |]; try reflexivity.
  destruct r as [a|]; [|reflexivity].
  unfold load. destruct (heap q !! a); reflexivity.
Qed.

Lemma File_Write_nil_error (f f' : File) (b : string) (n : nat) :
  File_Write f b = ((n, None), f') -> f' = appended f b /\ accepts f (String.length b).
Proof.
  unfold File_Write, appended, accepts.
  destruct (failure f) as [[room errno]|].
  - destruct (String.length b <=? room)%nat eqn:E; [|discriminate].
    intros [= _ <-]. split; [reflexivity|]. now apply Nat.leb_le.
  - intros [= _ <-]. split; [reflexivity | exact I].
Qed.

Lemma File_Write_grows (f : File) (b : string) :
  exists k, written (snd (File_Write f b)) = written f ++ take_bytes k b
            /\ Name (snd (File_Write f b)) = Name f.
Proof.
  assert (Hall : take_bytes (String.length b) b = b).
  { induction b as [|c b IH]; [reflexivity|]. cbn [String.length take_bytes]. now rewrite IH. }
  unfold File_Write. destruct (failure f) as [[room errno]|].
  - destruct (String.length b <=? room)%nat.
    + exists (String.length b). now rewrite Hall.
    + exists room. split; reflexivity.
  - exists (String.length b). now rewrite Hall.
Qed.

End Extra_facts.

(** X1.  [GetArgs] always returns: it does not index [os.Args] out of
    range, exit or panic.  What it returns is either a record with a nil
    error, and then [args] holds that very record, or a nil record with
    one of its two errors: "no arguments present", or "unable to parse
    arguments: " followed by the text of the decoder's error. *)
Theorem GetArgs_returns_record_or_error {json : JSON} (p : Process) :
  exists (r : option ptr * error) (p' : Process),
    GetArgs p = Returns r p'
    /\ ((exists a, r = (Some a, None) /\ args p' = Some a)
        \/ r = (None, Some (errorString "no arguments present"))
        \/ (exists e, r = (None, Some (errorString ("unable to parse arguments: " ++ Error e))))).
Proof.
  destruct (GetArgs_cases p) as [(a & Ha & E)|[(Ha & Hlen & E)|(arg1 & Ha & Harg & E)]].
  - exists (Some a, None), p. split; [exact E|]. left. now exists a.
  - eexists _, p. split; [exact E|]. right. now left.
  - cbv zeta in E.
    destruct (snd (json_Unmarshal arg1 (pointer_to Args (zero Args)))) as [e|];
      eexists _, _; (split; [exact E|]).
    + right. right. now exists e.
    + left. eexists. split; reflexivity.
Qed.

(** X2.  [GetMetadata] never dereferences a nil record: whenever
    [GetArgs] reports no error the record is there, so for every
    destination, nil included, [GetMetadata] returns; it neither panics
    nor exits.  (The package variable, once set, points at an object, and
    the call keeps it so.) *)
Theorem GetMetadata_always_returns {json : JSON} (p : Process) (dest : iface) :
  linked p ->
  exists (r : iface * error) (p' : Process),
    GetMetadata dest p = Returns r p' /\ linked p'.
Proof.
  intros Hl.
  destruct (GetArgs_cases p) as [(a & Ha & E)|[(Ha & Hlen & E)|(arg1 & Ha & Harg & E)]].
  - rewrite (GetMetadata_after_GetArgs p p dest _ E).
    destruct (Hl a Ha) as [obj Hobj]. rewrite Hobj. eexists _, p. now split.
  - rewrite (GetMetadata_after_GetArgs p p dest _ E). eexists _, p. now split.
  - cbv zeta in E. rewrite (GetMetadata_after_GetArgs p _ dest _ E).
    assert (Hl' : forall obj, linked (parsed_state p obj)).
    { intros obj a. cbn [parsed_state args heap]. intros [= <-].
      rewrite list_lookup_middle by reflexivity. now eexists. }
    destruct (snd (json_Unmarshal arg1 (pointer_to Args (zero Args)))) as [e|].
    + eexists _, _. split; [reflexivity | apply Hl'].
    + cbn [parsed_state heap]. rewrite list_lookup_middle by reflexivity.
      eexists _, _. split; [reflexivity | apply Hl'].
Qed.

Lemma GetMetadata_always_returns_witness :
  exists (r : iface * error) (p' : Process),
    GetMetadata None (started ["action"; payload]) = Returns r p' /\ linked p'.
Proof.
  apply (GetMetadata_always_returns (started ["action"; payload]) None).
  intros a H. discriminate H.
Defined.

(** X3.  The three reading functions produce no output and change
    nothing of the operating system's side: however [GetArgs] and
    [GetMetadata] end, [os.Args], the environment, standard output and the
    log are as before, and the heap has at most one object more (the
    record); [GetSecret] changes nothing at all. *)
Theorem readers_write_nothing {json : JSON} (p : Process) :
  (same_world p (final (GetArgs p))
   /\ exists l, heap (final (GetArgs p)) = (heap p ++ l)%list /\ (length l <= 1)%nat)
  /\ (forall dest : iface, final (GetMetadata dest p) = final (GetArgs p))
  /\ (forall name : string, final (GetSecret name p) = p).
Proof.
  split; [|split].
  - destruct (GetArgs_cases p) as [(a & Ha & E)|[(Ha & Hlen & E)|(arg1 & Ha & Harg & E)]];
      rewrite E; cbn [final].
    + split; [unfold same_world; auto|]. exists []. split; [now rewrite app_nil_r | cbn; lia].
    + split; [unfold same_world; auto|]. exists []. split; [now rewrite app_nil_r | cbn; lia].
    + split; [unfold same_world; auto|]. eexists [_]. split; [reflexivity | cbn; lia].
  - intros dest. apply GetMetadata_final.
  - intros name. unfold GetSecret, Getenv, mbind, M_bind, mret, M_ret.
    destruct (negb (String.eqb (default "" (environ p !! name)) "")); reflexivity.
Qed.

(** X4.  [WriteResult] always returns; it never exits, panics or logs.
    It changes nothing of the process but standard output, keeps what was
    written there before, and adds to it a leading part (all of it when
    the error is nil, none when the encoder fails) of the bytes it was
    to write. *)
Theorem WriteResult_touches_only_stdout {json : JSON} (i : iface) (p : Process) :
  exists (err : error) (p' : Process) (k : nat),
    WriteResult i p = Returns err p'
    /\ p' = set_os_Stdout (os_Stdout p') p
    /\ Name (os_Stdout p') = Name (os_Stdout p)
    /\ written (os_Stdout p')
       = written (os_Stdout p)
         ++ take_bytes k (match i with None => "{}" | Some _ => fst (json_Marshal i) end).
Proof.
  assert (Hw : forall b,
             exists err p' k,
               match fmt_Fprint_Stdout b p with
               | Returns (_, err) p' => Returns err p'
               | Exits c p' => Exits c p'
               | Panics msg p' => Panics msg p'
               end = Returns err p'
               /\ p' = set_os_Stdout (os_Stdout p') p
               /\ Name (os_Stdout p') = Name (os_Stdout p)
               /\ written (os_Stdout p') = written (os_Stdout p) ++ take_bytes k b).
  { intros b. unfold fmt_Fprint_Stdout.
    destruct (File_Write_grows (os_Stdout p) b) as (k & Hk & Hn).
    destruct (File_Write (os_Stdout p) b) as [[n err] f]. cbn [snd] in Hk, Hn.
    exists err, (set_os_Stdout f p), k. repeat split; assumption. }
  destruct i as [[t v]|].
  - rewrite WriteResult_value.
    destruct (json_Marshal (Some (t, v))) as [byt [e|]]; cbn [fst].
    + eexists _, p, 0%nat. repeat split; [now destruct p|].
      cbn [take_bytes]. now rewrite append_empty.
    + apply Hw.
  - rewrite WriteResult_nil. apply Hw.
Qed.

(** X5.  A nil error from [WriteResult] is a guarantee: the bytes [{}]
    for a nil argument, the complete output of [json.Marshal] otherwise,
    were appended to standard output, and nothing else changed. *)
Theorem WriteResult_nil_error_means_written {json : JSON} (i : iface) (p p' : Process) :
  WriteResult i p = Returns None p' ->
  exists byt : string,
    output_of i byt
    /\ accepts (os_Stdout p) (String.length byt)
    /\ p' = set_os_Stdout (appended (os_Stdout p) byt) p.
Proof.
  assert (Hw : forall b,
             match fmt_Fprint_Stdout b p with
             | Returns (_, err) q => Returns err q
             | Exits c q => Exits c q
             | Panics msg q => Panics msg q
             end = Returns None p' ->
             accepts (os_Stdout p) (String.length b)
             /\ p' = set_os_Stdout (appended (os_Stdout p) b) p).
  { intros b. unfold fmt_Fprint_Stdout.
    destruct (File_Write (os_Stdout p) b) as [[n err] f] eqn:E.
    intros [= -> <-]. destruct (File_Write_nil_error _ _ _ _ E) as [-> Hacc]. now split. }
  destruct i as [[t v]|].
  - rewrite WriteResult_value.
    destruct (json_Marshal (Some (t, v))) as [byt [e|]] eqn:Hm; [discriminate|].
    intros H. exists byt. split; [exact Hm | now apply Hw].
  - rewrite WriteResult_nil. intros H. exists "{}". split; [reflexivity | now apply Hw].
Qed.

Lemma WriteResult_nil_error_means_written_witness :
  exists byt : string,
    output_of (Some (TInt, VInt 7)) byt
    /\ accepts (os_Stdout (started ["action"])) (String.length byt)
    /\ set_os_Stdout (mkFile "/dev/stdout" "7" None) (started ["action"])
       = set_os_Stdout (appended (os_Stdout (started ["action"])) byt) (started ["action"]).
Proof.
  apply (WriteResult_nil_error_means_written (Some (TInt, VInt 7)) (started ["action"])).
  reflexivity.
Defined.

Lemma appended_appended (f : File) (a b : string) :
  appended (appended f a) b = appended f (a ++ b).
Proof.
  unfold appended. cbn [Name written failure]. rewrite append_assoc.
  destruct (failure f) as [[room errno]|]; [|reflexivity].
  rewrite length_append. do 3 f_equal. lia.
Qed.

Lemma accepts_appended (f : File) (a b : string) :
  accepts f (String.length a + String.length b) ->
  accepts f (String.length a) /\ accepts (appended f a) (String.length b).
Proof.
  unfold accepts, appended. cbn [failure].
  destruct (failure f) as [[room errno]|]; [lia | auto].
Qed.

Section Emitting.
Context {json : JSON}.

Lemma WriteResult_output (i : iface) (byt : string) (p : Process) :
  output_of i byt -> accepts (os_Stdout p) (String.length byt) ->
  WriteResult i p = Returns None (set_os_Stdout (appended (os_Stdout p) byt) p).
Proof.
  intros Ho Ha. destruct i as [[t v]|]; cbn [output_of] in Ho.
  - rewrite WriteResult_value, Ho. now rewrite (Fprint_accepts p byt Ha).
  - subst byt. rewrite WriteResult_nil. now rewrite (Fprint_accepts p "{}" Ha).
Qed.

End Emitting.

(** X6.  Two calls of [WriteResult] put their outputs on standard output
    one after the other, in the order of the calls, with nothing between
    them and nothing after: a reader sees the two encodings run
    together. *)
Theorem WriteResult_twice_concatenates {json : JSON}
    (i1 i2 : iface) (byt1 byt2 : string) (p : Process) :
  output_of i1 byt1 -> output_of i2 byt2 ->
  accepts (os_Stdout p) (String.length byt1 + String.length byt2) ->
  (WriteResult i1 ;; WriteResult i2) p
  = Returns None (set_os_Stdout (appended (os_Stdout p) (byt1 ++ byt2)) p).
Proof.
  intros H1 H2 Ha. destruct (accepts_appended _ _ _ Ha) as [Ha1 Ha2].
  rewrite (bind_Returns _ _ _ _ _ (WriteResult_output i1 byt1 p H1 Ha1)).
  rewrite (WriteResult_output i2 byt2 (set_os_Stdout (appended (os_Stdout p) byt1) p) H2 Ha2).
  cbn [os_Stdout set_os_Stdout]. rewrite appended_appended. reflexivity.
Qed.

Lemma WriteResult_twice_concatenates_witness :
  (WriteResult (Some (TInt, VInt 7)) ;; WriteResult None) (started ["action"])
  = Returns None (set_os_Stdout (mkFile "/dev/stdout" "7{}" None) (started ["action"])).
Proof.
  apply (WriteResult_twice_concatenates (Some (TInt, VInt 7)) None "7" "{}"
           (started ["action"])).
  - reflexivity.
  - reflexivity.
  - exact I.
Defined.

(** X7.  How [WriteError] can end, whatever the encoder does.  It
    returns only after writing, and then it has logged nothing; it exits
    only with status 1, after handing exactly one line to the logger; it
    panics only for a nil error (the call of [Error] on it), before
    anything is written or logged.  In every case [args], the record
    behind it, [os.Args] and the environment are untouched and what was
    on standard output before stays there. *)
Theorem WriteError_outcomes {json : JSON} (err : error) (p : Process) :
  same_cache p (final (WriteError err p))
  /\ (exists w, written (os_Stdout (final (WriteError err p))) = written (os_Stdout p) ++ w)
  /\ match WriteError err p with
     | Returns _ p' => err <> None /\ log_output p' = log_output p
     | Exits code p' =>
         err <> None /\ code = 1 /\ exists line, log_output p' = (log_output p ++ [line])%list
     | Panics _ p' => err = None /\ p' = p
     end.
Proof.
  destruct err as [e|].
  - rewrite WriteError_value.
    destruct (json_Marshal (envelope (Error e))) as [byt [m|]].
    + cbn [final]. repeat split; try discriminate.
      * exists "". cbn. now rewrite append_empty.
      * now eexists.
    + unfold fmt_Fprint_Stdout.
      destruct (File_Write_grows (os_Stdout p) byt) as (k & Hk & Hn).
      destruct (File_Write (os_Stdout p) byt) as [[n [w|]] f]; cbn [snd] in Hk, Hn;
        cbn [final]; repeat split; try discriminate; try (now eexists);
        exists (take_bytes k byt); exact Hk.
  - cbn. repeat split. exists "". now rewrite append_empty.
Qed.

(** X8.  With [encoding/json] the first [log.Fatal] of [WriteError] is
    never reached: the map with the one string it builds always encodes.
    For every error and every state of standard output, [WriteError]
    either writes the whole object and returns, or, the device taking
    fewer bytes than the object has, writes those, logs "unable to write
    error: " with the write error, and exits with status 1. *)
Theorem WriteError_fails_only_on_write (p : Process) (e : goerror) :
  let text := js "{'error':" ++ encoder.appendString (Error e) ++ "}" in
  (accepts (os_Stdout p) (String.length text)
   /\ WriteError (Some e) p = Returns tt (set_os_Stdout (appended (os_Stdout p) text) p))
  \/ (exists (room : nat) (errno : string),
        failure (os_Stdout p) = Some (room, errno) /\ (room < String.length text)%nat
        /\ WriteError (Some e) p
           = Exits 1
               (set_log_output
                  (log_output p
                   ++ ["unable to write error: write " ++ Name (os_Stdout p) ++ ": " ++ errno])
                  (set_os_Stdout
                     (mkFile (Name (os_Stdout p))
                             (written (os_Stdout p) ++ take_bytes room text)
                             (Some (0%nat, errno))) p))).
Proof.
  intros text. rewrite WriteError_value, Marshal_envelope. fold text.
  destruct (failure (os_Stdout p)) as [[room errno]|] eqn:Hf.
  - destruct (Nat.le_gt_cases (String.length text) room) as [Hle|Hgt].
    + left. assert (Ha : accepts (os_Stdout p) (String.length text)).
      { unfold accepts. now rewrite Hf. }
      split; [exact Ha|]. now rewrite (Fprint_accepts p text Ha).
    + right. exists room, errno. repeat split; [exact Hgt|].
      now rewrite (Fprint_rejects p text room errno Hf Hgt).
  - left. assert (Ha : accepts (os_Stdout p) (String.length text)).
    { unfold accepts. now rewrite Hf. }
    split; [exact Ha|]. now rewrite (Fprint_accepts p text Ha).
Qed.

(** X9.  The payload is parsed once.  After a [GetMetadata] that
    returned nil, every later [GetMetadata], for any destination and
    whatever [os.Args] has become, decodes the same [Metadata] bytes of
    the cached record and leaves the process as it is. *)
Theorem GetMetadata_decodes_same_blob_again {json : JSON}
    (p p1 : Process) (d1 r1 : iface) :
  GetMetadata d1 p = Returns (r1, None) p1 ->
  exists blob : string,
    json_Unmarshal blob d1 = (r1, None)
    /\ forall (argv' : list string) (d2 : iface),
         GetMetadata d2 (set_os_Args argv' p1)
         = Returns (json_Unmarshal blob d2) (set_os_Args argv' p1).
Proof.
  intros H. destruct (GetMetadata_Returns p p1 d1 r1 H) as (a & obj & Ha & Hobj & Hu).
  exists (Metadata obj). split; [exact Hu|]. intros argv' d2.
  rewrite (GetMetadata_after_GetArgs (set_os_Args argv' p1) _ d2 _
             (GetArgs_cached (set_os_Args argv' p1) a Ha)).
  cbn [set_os_Args heap]. now rewrite Hobj.
Qed.

Lemma GetMetadata_decodes_same_blob_again_witness :
  exists blob : string,
    json_Unmarshal blob (pointer_to Meta (zero Meta)) = (pointer_to Meta (VStruct [VInt 5]), None)
    /\ forall (argv' : list string) (d2 : iface),
         GetMetadata d2
           (set_os_Args argv' (parsed_state (started ["action"; payload]) decoded_payload))
         = Returns (json_Unmarshal blob d2)
             (set_os_Args argv' (parsed_state (started ["action"; payload]) decoded_payload)).
Proof.
  apply (GetMetadata_decodes_same_blob_again (started ["action"; payload])).
  vm_compute. reflexivity.
Defined.

(** X10.  A first argument that is not well-formed JSON spoils later
    calls.  The first [GetMetadata] returns "unable to parse arguments: "
    with the scanner's error and leaves the destination alone; since
    [args] then points at an empty record, every later [GetMetadata],
    whatever [os.Args] has become, hands the decoder no bytes and returns
    its bare "unexpected end of JSON input", again leaving the destination
    alone. *)
Theorem GetMetadata_after_syntax_error
    (p : Process) (arg1 : string) (e : goerror) (d1 : iface) :
  args p = None -> os_Args p !! 1%nat = Some arg1 ->
  syntax.scan arg1 = inr e ->
  GetMetadata d1 p
  = Returns (d1, Some (errorString ("unable to parse arguments: " ++ Error e)))
      (parsed_state p (zero Args))
  /\ forall (argv' : list string) (d2 : iface),
       GetMetadata d2 (set_os_Args argv' (parsed_state p (zero Args)))
       = Returns (d2, Some (SyntaxError "unexpected end of JSON input" 0))
           (set_os_Args argv' (parsed_state p (zero Args))).
Proof.
  intros Ha Harg Hs.
  assert (Hu : json_Unmarshal arg1 (pointer_to Args (zero Args))
               = (pointer_to Args (zero Args), Some e)).
  { cbn [json_Unmarshal encoding_json]. unfold decoder.Unmarshal. now rewrite Hs. }
  split.
  - rewrite (GetMetadata_after_GetArgs p _ d1 _ (GetArgs_uncached p arg1 Ha Harg)).
    cbv zeta. rewrite Hu. reflexivity.
  - intros argv' d2.
    rewrite (GetMetadata_after_GetArgs (set_os_Args argv' (parsed_state p (zero Args))) _ d2 _
               (GetArgs_cached (set_os_Args argv' (parsed_state p (zero Args)))
                  (length (heap p)) eq_refl)).
    cbn [set_os_Args parsed_state heap]. rewrite list_lookup_middle by reflexivity.
    reflexivity.
Qed.

Lemma GetMetadata_after_syntax_error_witness :
  GetMetadata None (started ["action"; "{"])
  = Returns (None, Some (errorString "unable to parse arguments: unexpected end of JSON input"))
      (parsed_state (started ["action"; "{"]) (zero Args))
  /\ forall (argv' : list string) (d2 : iface),
       GetMetadata d2 (set_os_Args argv' (parsed_state (started ["action"; "{"]) (zero Args)))
       = Returns (d2, Some (SyntaxError "unexpected end of JSON input" 0))
           (set_os_Args argv' (parsed_state (started ["action"; "{"]) (zero Args))).
Proof.
  apply (GetMetadata_after_syntax_error (started ["action"; "{"]) "{"
           (SyntaxError "unexpected end of JSON input" 1) None).
  - reflexivity.
  - reflexivity.
  - vm_compute. reflexivity.
Defined.

(** X11.  When the decoder rejects the first argument after storing part
    of it (a field of the wrong type), the first [GetMetadata] returns
    "unable to parse arguments: ..." but the part stored stays behind
    [args]: the next [GetMetadata] decodes the [Metadata] bytes of that
    record, and can return nil. *)
Theorem GetMetadata_after_rejected_payload {json : JSON}
    (p : Process) (arg1 : string) (obj : value) (e : goerror) (d1 d2 : iface) :
  args p = None -> os_Args p !! 1%nat = Some arg1 ->
  json_Unmarshal arg1 (pointer_to Args (zero Args)) = (pointer_to Args obj, Some e) ->
  GetMetadata d1 p
  = Returns (d1, Some (errorString ("unable to parse arguments: " ++ Error e)))
      (parsed_state p obj)
  /\ GetMetadata d2 (parsed_state p obj)
     = Returns (json_Unmarshal (Metadata obj) d2) (parsed_state p obj).
Proof.
  intros Ha Harg Hu. split.
  - rewrite (GetMetadata_after_GetArgs p _ d1 _ (GetArgs_uncached p arg1 Ha Harg)).
    cbv zeta. rewrite Hu. reflexivity.
  - rewrite (GetMetadata_after_GetArgs (parsed_state p obj) _ d2 _
               (GetArgs_cached (parsed_state p obj) (length (heap p)) eq_refl)).
    cbn [parsed_state heap]. now rewrite list_lookup_middle.
Qed.

Lemma GetMetadata_after_rejected_payload_witness :
  let arg1 := js "{'ArgsVersion':'one','Metadata':{'x':5}}" in
  let obj := VStruct [VInt 0; VRawMessage (Some (js "{'x':5}")); zero Baggage] in
  GetMetadata None (started ["action"; arg1])
  = Returns
      (None,
       Some (errorString
               ("unable to parse arguments: "
                ++ Error (UnmarshalTypeError "string" TInt "Args" "ArgsVersion"))))
      (parsed_state (started ["action"; arg1]) obj)
  /\ GetMetadata (pointer_to Meta (zero Meta)) (parsed_state (started ["action"; arg1]) obj)
     = Returns (pointer_to Meta (VStruct [VInt 5]), None)
         (parsed_state (started ["action"; arg1]) obj).
Proof.
  exact (GetMetadata_after_rejected_payload
           (started ["action"; js "{'ArgsVersion':'one','Metadata':{'x':5}}"])
           (js "{'ArgsVersion':'one','Metadata':{'x':5}}")
           (VStruct [VInt 0; VRawMessage (Some (js "{'x':5}")); zero Baggage])
           (UnmarshalTypeError "string" TInt "Args" "ArgsVersion")
           None (pointer_to Meta (zero Meta)) eq_refl eq_refl eq_refl).
Defined.

(** ** Reading back what was written *)

Section Reading_back.
Import utf8 strconv scanner syntax fields decoder encoder roundtrip sample observations.

Lemma appendString_body_cons c rest :
  (byte c <? 128) = true ->
  appendString_body 0 false (String c rest) = escaped c ++ appendString_body 0 false rest.
Proof.
  intros Hb. unfold escaped. cbn [appendString_body]. rewrite Hb.
  now rewrite append_empty.
Qed.

Ltac each_byte c H :=
  destruct c as [[] [] [] [] [] [] [] []];
  try (exfalso; vm_compute in H; discriminate H); clear H.

Lemma run_escaped c :
  (byte c <? 128) = true ->
  forall ps n w fs tp rest,
  exists n',
    run (mk stateInString ps None false n) (mkBuilder (Some w) (add_raws w fs) tp)
        (escaped c ++ rest)
    = run (mk stateInString ps None false n')
          (mkBuilder (Some (w ++ escaped c)) (add_raws (w ++ escaped c) fs) tp) rest.
Proof.
  intros H ps n w fs tp rest.
  each_byte c H.
  all: eexists.
  all: match goal with
       | |- context [escaped ?c] =>
           let o := eval vm_compute in (escaped c) in change (escaped c) with o
       end.
  all: rewrite !append_String, append_nil.
  all: repeat (erewrite run_continue; [|reflexivity]).
  all: rewrite ?append_assoc; reflexivity.
Qed.

Lemma unquote_escaped c rest :
  (byte c <? 128) = true ->
  unquote_body 0 (escaped c ++ rest) = String c (unquote_body 0 rest).
Proof.
  intros H. each_byte c H.
  all: match goal with
       | |- context [escaped ?c] =>
           let o := eval vm_compute in (escaped c) in change (escaped c) with o
       end.
  all: rewrite !append_String, append_nil; cbn; reflexivity.
Qed.

Lemma run_string_body m :
  ascii_only m = true ->
  forall ps n w fs tp rest,
  exists n',
    run (mk stateInString ps None false n) (mkBuilder (Some w) (add_raws w fs) tp)
        (appendString_body 0 false m ++ rest)
    = run (mk stateInString ps None false n')
          (mkBuilder (Some (w ++ appendString_body 0 false m))
                     (add_raws (w ++ appendString_body 0 false m) fs) tp) rest.
Proof.
  induction m as [|c m IH]; intros Hm ps n w fs tp rest.
  - exists n. cbn [appendString_body]. now rewrite append_nil, append_empty.
  - unfold ascii_only in Hm. cbn [all_chars] in Hm. apply andb_true_iff in Hm as [Hc Hm].
    rewrite (appendString_body_cons c m Hc), append_assoc.
    destruct (run_escaped c Hc ps n w fs tp (appendString_body 0 false m ++ rest)) as [n1 E1].
    rewrite E1.
    destruct (IH Hm ps n1 (w ++ escaped c) fs tp rest) as [n2 E2].
    exists n2. rewrite E2. now rewrite !append_assoc.
Qed.

Lemma unquote_string_body m :
  ascii_only m = true -> unquote_body 0 (appendString_body 0 false m) = m.
Proof.
  induction m as [|c m IH]; intros Hm; [reflexivity|].
  unfold ascii_only in Hm. cbn [all_chars] in Hm. apply andb_true_iff in Hm as [Hc Hm].
  rewrite (appendString_body_cons c m Hc), (unquote_escaped c _ Hc). now rewrite (IH Hm).
Qed.

Lemma unquote_ascii m : ascii_only m = true -> unquote (appendString m) = m.
Proof.
  intros Hm. unfold unquote, appendString.
  rewrite append_String. rewrite drop_last_snoc. now apply unquote_string_body.
Qed.

(** The scanner reads a quoted ASCII string as one literal. *)
Lemma scans_string m : ascii_only m = true -> scans_literal (appendString m).
Proof.
  intros Hm f ps n fs tp rest Hf Hr. unfold appendString.
  rewrite !append_String, !append_assoc, !append_String, !append_nil.
  rewrite (run_begin f stateInString) by (destruct Hf as [->| ->]; reflexivity).
  destruct (run_string_body m Hm ps (n + 1) (String dquote "") fs tp (String dquote rest))
    as [n1 E1].
  rewrite E1.
  rewrite (run_continue stateInString stateEndValue) by reflexivity.
  exists (n1 + 1). rewrite pending_done by auto.
  rewrite !append_assoc, !append_String, !append_nil. reflexivity.
Qed.

Lemma scan_envelope m :
  ascii_only m = true ->
  scan (envelope_text m)
  = inl (Obj (envelope_text m) [(appendString "error", Lit (appendString m))]).
Proof.
  intros Hm. unfold scan, reset, empty, envelope_text.
  change (js "{'error':") with ("{" ++ appendString "error" ++ ":").
  rewrite !append_assoc, !append_String, !append_nil.
  rewrite (begin_object stateBeginValue [] 0 [] None _ (or_introl eq_refl) eq_refl).
  destruct (scan_key "error" stateBeginStringOrEmpty [] (0 + 1) "{" [] [] (add_raws "{" []) None
              (appendString m ++ "}") eq_refl (or_intror eq_refl)) as [n0 E0].
  rewrite E0. clear E0.
  destruct (scans_string m Hm stateBeginValue [parseObjectValue] n0
              (mkFrame ("{" ++ appendString "error" ++ ":") (Some (appendString "error"))
                       None [] [] :: add_raws (appendString "error" ++ ":") (add_raws "{" []))
              None "}" (or_introl eq_refl)
              (ex_intro _ "}"%char (ex_intro _ "" (conj eq_refl eq_refl)))) as [n1 E1].
  rewrite E1. clear E1.
  cbn [add_raws List.map raw key pending elems members deliver frames lit top].
  pose proof (object_loop 0 [] [] (List.Forall2_nil _) [] n1
                (("{" ++ appendString "error" ++ ":") ++ appendString m)
                (appendString "error") (Lit (appendString m)) [] [] [] None ""
                ltac:(vm_compute; discriminate)) as [n2 E2].
  cbn [member_texts member_trees items] in E2. rewrite !append_nil in E2.
  rewrite E2. clear E2.
  rewrite run_closed by reflexivity.
  cbn. rewrite !append_assoc, !append_String, !append_nil. reflexivity.
Qed.

Lemma decode_quoted ctx m :
  decodeValue (Lit (appendString m)) ctx true TInterface (VInterface None) None
  = (VInterface (Some (TString, VString (unquote (appendString m)))), None).
Proof.
  rewrite decodeValue_unfold. unfold appendString at 1 2. rewrite append_String.
  reflexivity.
Qed.

Lemma Unmarshal_envelope m :
  ascii_only m = true ->
  Unmarshal (envelope_text m) (pointer_to (TMap TString TInterface) (VMap None))
  = (pointer_to (TMap TString TInterface)
       (VMap (Some [(VString "error", VInterface (Some (TString, VString m)))])),
     None).
Proof.
  intros Hm. unfold Unmarshal, pointer_to. rewrite (scan_envelope m Hm).
  rewrite decodeValue_top, decodeValue_unfold.
  cbn [is_null indirect store key_kind_ok negb object_map].
  rewrite decode_quoted.
  rewrite (unquote_ascii m Hm), (unquote_appendString "error" eq_refl).
  reflexivity.
Qed.

(** X12.  What [WriteError] writes can be read back.  For an error whose
    message has only ASCII bytes (control characters, quotes and
    backslashes included), the text written to standard output is
    well-formed JSON, and [json.Unmarshal] of it into a
    [map[string]interface{}] gives the map with the single key "error"
    holding the message, byte for byte. *)
Theorem WriteError_output_reads_back (p : Process) (e : goerror) :
  ascii_only (Error e) = true ->
  accepts (os_Stdout p) (String.length (envelope_text (Error e))) ->
  WriteError (Some e) p
  = Returns tt (set_os_Stdout (appended (os_Stdout p) (envelope_text (Error e))) p)
  /\ json_Unmarshal (envelope_text (Error e)) (pointer_to (TMap TString TInterface) (VMap None))
     = (pointer_to (TMap TString TInterface)
          (VMap (Some [(VString "error", VInterface (Some (TString, VString (Error e))))])),
        None).
Proof.
  intros Hm Ha. split.
  - rewrite WriteError_value, Marshal_envelope. fold (envelope_text (Error e)).
    now rewrite (Fprint_accepts p _ Ha).
  - now apply Unmarshal_envelope.
Qed.

Lemma WriteError_output_reads_back_witness :
  let e := errorString (js "open 'a\b': no such file") in
  WriteError (Some e) (started ["action"])
  = Returns tt
      (set_os_Stdout (appended stdout (envelope_text (Error e))) (started ["action"]))
  /\ json_Unmarshal (envelope_text (Error e)) (pointer_to (TMap TString TInterface) (VMap None))
     = (pointer_to (TMap TString TInterface)
          (VMap (Some [(VString "error", VInterface (Some (TString, VString (Error e))))])),
        None).
Proof.
  apply (WriteError_output_reads_back (started ["action"])
           (errorString (js "open 'a\b': no such file"))).
  - reflexivity.
  - exact I.
Defined.

(** X13.  What [WriteResult] writes for a value of a plain type (booleans,
    integers, pointers, slices, structs with kept fields) can be read
    back: the text on standard output is the encoding of the value, and
    [json.Unmarshal] of that text into a zero destination of the same type
    gives the value again. *)
Theorem WriteResult_output_reads_back (T : gotype) (v : value) (p : Process) :
  plain T = true -> canon T v -> nesting T <= maxNestingDepth ->
  accepts (os_Stdout p) (String.length (text T v)) ->
  WriteResult (Some (T, v)) p
  = Returns None (set_os_Stdout (appended (os_Stdout p) (text T v)) p)
  /\ json_Unmarshal (text T v) (pointer_to T (zero T)) = (pointer_to T v, None).
Proof.
  intros Hp Hc Hn Ha. split.
  - rewrite WriteResult_value. cbn [json_Marshal encoding_json]. unfold Marshal.
    rewrite (encode_plain T Hp v Hc). now rewrite (Fprint_accepts p _ Ha).
  - now apply Unmarshal_text.
Qed.

Lemma WriteResult_output_reads_back_witness :
  WriteResult (Some (TSlice Meta, VSlice (Some [VStruct [VInt 5]; VStruct [VInt (-3)]])))
    (started ["action"])
  = Returns None
      (set_os_Stdout (mkFile "/dev/stdout" (js "[{'X':5},{'X':-3}]") None) (started ["action"]))
  /\ json_Unmarshal (js "[{'X':5},{'X':-3}]") (pointer_to (TSlice Meta) (zero (TSlice Meta)))
     = (pointer_to (TSlice Meta) (VSlice (Some [VStruct [VInt 5]; VStruct [VInt (-3)]])), None).
Proof.
  apply (WriteResult_output_reads_back (TSlice Meta)
           (VSlice (Some [VStruct [VInt 5]; VStruct [VInt (-3)]])) (started ["action"])).
  - reflexivity.
  - repeat constructor; vm_compute; congruence.
  - vm_compute. discriminate.
  - exact I.
Defined.

(** *** Destinations and arguments *)

(** X14.  [GetMetadata] needs a non-nil pointer.  With a record cached
    whose [Metadata] is well-formed JSON, a nil destination gets the
    error "json: Unmarshal(nil)", a destination that is not a pointer
    "json: Unmarshal(non-pointer T)", and a nil pointer
    "json: Unmarshal(nil *T)"; the destination and the process are left
    as they were. *)
Theorem GetMetadata_rejects_bad_destination
    (p : Process) (a : ptr) (obj : value) (j : jtree) :
  args p = Some a -> heap p !! a = Some obj -> scan (Metadata obj) = inl j ->
  (GetMetadata None p = Returns (None, Some (InvalidUnmarshalError None)) p
   /\ Error (InvalidUnmarshalError None) = "json: Unmarshal(nil)")
  /\ (forall (t : gotype) (v : value),
        is_pointer t = false ->
        GetMetadata (Some (t, v)) p
        = Returns (Some (t, v), Some (InvalidUnmarshalError (Some t))) p
        /\ Error (InvalidUnmarshalError (Some t))
           = "json: Unmarshal(non-pointer " ++ Type_String t ++ ")")
  /\ (forall e : gotype,
        GetMetadata (Some (TPointer e, VPointer None)) p
        = Returns (Some (TPointer e, VPointer None),
                   Some (InvalidUnmarshalError (Some (TPointer e)))) p
        /\ Error (InvalidUnmarshalError (Some (TPointer e)))
           = "json: Unmarshal(nil *" ++ Type_String e ++ ")").
Proof.
  intros Ha Hobj Hs.
  assert (E : forall dest, GetMetadata dest p
                           = Returns (Unmarshal (Metadata obj) dest) p).
  { intros dest. rewrite (GetMetadata_after_GetArgs p p dest _ (GetArgs_cached p a Ha)).
    now rewrite Hobj. }
  split; [|split].
  - split; [|reflexivity]. rewrite E. unfold Unmarshal. now rewrite Hs.
  - intros t v Ht. split.
    + rewrite E. unfold Unmarshal. rewrite Hs. destruct t; try reflexivity. discriminate.
    + destruct t; try reflexivity. discriminate.
  - intros e. split; [|reflexivity]. rewrite E. unfold Unmarshal. now rewrite Hs.
Qed.

Lemma GetMetadata_rejects_bad_destination_witness :
  let p := parsed_state (started ["action"; payload]) decoded_payload in
  GetMetadata None p = Returns (None, Some (InvalidUnmarshalError None)) p
  /\ GetMetadata (Some (Meta, VStruct [VInt 0])) p
     = Returns (Some (Meta, VStruct [VInt 0]), Some (InvalidUnmarshalError (Some Meta))) p
  /\ Error (InvalidUnmarshalError (Some Meta)) = "json: Unmarshal(non-pointer main.Meta)"
  /\ GetMetadata (Some (TPointer Meta, VPointer None)) p
     = Returns (Some (TPointer Meta, VPointer None),
                Some (InvalidUnmarshalError (Some (TPointer Meta)))) p
  /\ Error (InvalidUnmarshalError (Some (TPointer Meta))) = "json: Unmarshal(nil *main.Meta)".
Proof.
  pose proof (GetMetadata_rejects_bad_destination
                (parsed_state (started ["action"; payload]) decoded_payload) 0%nat
                decoded_payload
                (Obj (js "{'x':5}") [(js "'x'", Lit "5")]) eq_refl eq_refl eq_refl)
    as (H1 & H2 & H3).
  destruct (H2 Meta (VStruct [VInt 0]) eq_refl) as [H2a H2b].
  destruct (H3 Meta) as [H3a H3b].
  exact (conj (proj1 H1) (conj H2a (conj H2b (conj H3a H3b)))).
Defined.

(** X15.  Of [os.Args], [GetArgs] reads the entry at index 1 and nothing
    else: the program name and any further arguments do not matter.  Two
    processes without a cached record that agree on that entry get the
    same result and the same record. *)
Theorem GetArgs_reads_only_first_argument {json : JSON}
    (p : Process) (arg1 : string) (argv' : list string) :
  args p = None -> os_Args p !! 1%nat = Some arg1 -> argv' !! 1%nat = Some arg1 ->
  exists (r : option ptr * error) (obj : value),
    GetArgs p = Returns r (parsed_state p obj)
    /\ GetArgs (set_os_Args argv' p) = Returns r (set_os_Args argv' (parsed_state p obj)).
Proof.
  intros Ha Harg Harg'.
  rewrite (GetArgs_uncached p arg1 Ha Harg).
  rewrite (GetArgs_uncached (set_os_Args argv' p) arg1 Ha Harg').
  cbv zeta. eexists _, _. split; reflexivity.
Qed.

Lemma GetArgs_reads_only_first_argument_witness :
  exists (r : option ptr * error) (obj : value),
    GetArgs (started ["action"; payload]) = Returns r (parsed_state (started ["action"; payload]) obj)
    /\ GetArgs (set_os_Args ["other"; payload; "--verbose"] (started ["action"; payload]))
       = Returns r (set_os_Args ["other"; payload; "--verbose"]
                      (parsed_state (started ["action"; payload]) obj)).
Proof.
  apply (GetArgs_reads_only_first_argument (started ["action"; payload]) payload
           ["other"; payload; "--verbose"]); reflexivity.
Defined.

End Reading_back.
